(** * The file-backed journal of [ik] (package [journal]), embedded in Rocq

    The development follows the Go source: chunk objects live in a heap
    indexed by address, the chunk list is the intrusive doubly linked
    dequeue of the source ([head.next] leads to the older neighbour,
    [head.prev] to the newer one, [chunks.first] is the newest chunk and
    [chunks.last] the oldest), files live in a path-indexed disk, and every
    operation threads the state explicitly.  A Go [panic] and a loop that
    does not terminate are separate outcomes; a Go [error] is an ordinary
    return value. *)

From Stdlib Require Import ZArith String Ascii Lia Decimal DecimalString DecimalN.
From stdpp Require Import gmap strings list fin_maps sorting.

Local Open Scope Z_scope.

(** ** Outcomes of a call *)

Inductive outcome (A : Type) : Type :=
  | Ret (a : A)
  | Panic (msg : string)
  | Diverge.
Arguments Ret {A} a.
Arguments Panic {A} msg.
Arguments Diverge {A}.

#[global] Instance outcome_ret : MRet outcome := fun _ a => Ret a.
#[global] Instance outcome_bind : MBind outcome := fun _ _ f m =>
  match m with
  | Ret a => f a
  | Panic msg => Panic msg
  | Diverge => Diverge
  end.

(** A Go [error] value; [None] is [nil]. *)
Definition error := string.

(** ** Machine integers *)

Definition wrap (bits : Z) (z : Z) : Z :=
  (z + 2 ^ (bits - 1)) mod 2 ^ bits - 2 ^ (bits - 1).
Definition int32 (z : Z) : Z := wrap 32 z.
Definition int64 (z : Z) : Z := wrap 64 z.

(** ** Data model *)

(** Address of a [FileJournalChunk]; [option ptr] is a Go pointer, [None]
    being [nil]. *)
Definition ptr := nat.

Inductive JournalFileType := Head | Rest.

#[global] Instance JournalFileType_eq_dec : EqDecision JournalFileType.
Proof. solve_decision. Defined.

(** [FileJournalChunk], with the embedded [FileJournalChunkDequeueHead]
    flattened into [head_next] (older neighbour) and [head_prev] (newer
    neighbour). *)
Record FileJournalChunk := mkChunk {
  head_next : option ptr;
  head_prev : option ptr;
  Path : string;
  Type_ : JournalFileType;
  TSuffix : string;
  Timestamp : Z;
  UniqueId : list Byte.byte;
  refcount : Z;
}.

Record FileJournalChunkDequeue := mkDequeue {
  chunks_first : option ptr;
  chunks_last : option ptr;
  chunks_count : Z;
}.

(** An [*os.File] opened for writing: the path it was opened at and whether
    [Close] has been called on it. *)
Record File := mkFile {
  f_path : string;
  f_closed : bool;
}.

(** A [FileJournal] together with the memory and the disk it lives in. *)
Record State := mkState {
  heap : gmap ptr FileJournalChunk;
  disk : gmap string (list Byte.byte);
  chunks : FileJournalChunkDequeue;
  writer : option File;
  position : Z;
}.

(** [FileJournalChunkWrapper]; the journal it points to is the one of the
    state it is used with. *)
Record FileJournalChunkWrapper := mkWrapper {
  chunk : option ptr;
  ownershipTaken : Z;
}.

(** A value of the interface type [ik.JournalChunk].  The nil interface is
    [nil_interface]; the one dynamic type the package puts into the
    interface is [*FileJournalChunkWrapper], a pointer that may itself be
    nil: [wrapper_ptr None] is the interface value that holds the nil
    pointer, and it is not the nil interface. *)
Inductive JournalChunk : Type :=
  | nil_interface
  | wrapper_ptr (p : option FileJournalChunkWrapper).

(** The test [chunk == nil] of a caller that holds the interface value. *)
Definition is_nil (j : JournalChunk) : bool :=
  match j with
  | nil_interface => true
  | wrapper_ptr _ => false
  end.

(** The fields of the journal and of its group that never change. *)
Record Config := mkConfig {
  key : string;
  pathPrefix : string;
  pathSuffix : string;
  maxSize : Z;
}.

(** ** State updates *)

Definition set_heap (h : gmap ptr FileJournalChunk) (s : State) : State :=
  mkState h (disk s) (chunks s) (writer s) (position s).
Definition set_disk (d : gmap string (list Byte.byte)) (s : State) : State :=
  mkState (heap s) d (chunks s) (writer s) (position s).
Definition set_chunks (q : FileJournalChunkDequeue) (s : State) : State :=
  mkState (heap s) (disk s) q (writer s) (position s).
Definition set_writer (w : option File) (s : State) : State :=
  mkState (heap s) (disk s) (chunks s) w (position s).
Definition set_position (p : Z) (s : State) : State :=
  mkState (heap s) (disk s) (chunks s) (writer s) p.

Definition with_next (v : option ptr) (c : FileJournalChunk) : FileJournalChunk :=
  mkChunk v (head_prev c) (Path c) (Type_ c) (TSuffix c) (Timestamp c)
          (UniqueId c) (refcount c).
Definition with_prev (v : option ptr) (c : FileJournalChunk) : FileJournalChunk :=
  mkChunk (head_next c) v (Path c) (Type_ c) (TSuffix c) (Timestamp c)
          (UniqueId c) (refcount c).
Definition with_refcount (v : Z) (c : FileJournalChunk) : FileJournalChunk :=
  mkChunk (head_next c) (head_prev c) (Path c) (Type_ c) (TSuffix c)
          (Timestamp c) (UniqueId c) v.
Definition with_path (ty : JournalFileType) (p : string) (c : FileJournalChunk)
  : FileJournalChunk :=
  mkChunk (head_next c) (head_prev c) p ty (TSuffix c) (Timestamp c)
          (UniqueId c) (refcount c).

(** [p.head.next = v], [p.head.prev = v] *)
Definition set_next (p : ptr) (v : option ptr) (s : State) : State :=
  set_heap (alter (with_next v) p (heap s)) s.
Definition set_prev (p : ptr) (v : option ptr) (s : State) : State :=
  set_heap (alter (with_prev v) p (heap s)) s.

(** [atomic.AddInt32(&p.refcount, d)] *)
Definition add_refcount (p : ptr) (d : Z) (s : State) : State :=
  set_heap (alter (fun c => with_refcount (int32 (refcount c + d)) c) p (heap s)) s.

(** The address of a newly allocated chunk: one that is not in use. *)
Definition new_ptr (h : gmap ptr FileJournalChunk) : ptr :=
  max_list (S <$> elements (dom h)).

(** Reading through a pointer. *)
Definition deref (s : State) (p : ptr) : outcome FileJournalChunk :=
  match heap s !! p with
  | Some c => Ret c
  | None => Panic "invalid memory address or nil pointer dereference"
  end.

(** ** The disk *)

(** [os.Remove]: fails when there is no file at the path. *)
Definition os_Remove (p : string) (d : gmap string (list Byte.byte))
  : option error * gmap string (list Byte.byte) :=
  match d !! p with
  | Some _ => (None, delete p d)
  | None => (Some ("remove " +:+ p +:+ ": no such file or directory")%string, d)
  end.

(** [os.Rename]: fails when there is no file at the old path, replaces a
    file at the new path otherwise. *)
Definition os_Rename (old new : string) (d : gmap string (list Byte.byte))
  : option error * gmap string (list Byte.byte) :=
  match d !! old with
  | Some data => (None, <[new := data]> (delete old d))
  | None => (Some ("rename " +:+ old +:+ ": no such file or directory")%string, d)
  end.

(** [os.OpenFile(p, O_WRONLY|O_APPEND|O_CREATE|O_EXCL, mode)] *)
Definition os_Create (p : string) (d : gmap string (list Byte.byte))
  : (error + File) * gmap string (list Byte.byte) :=
  match d !! p with
  | Some _ => (inl ("open " +:+ p +:+ ": file exists")%string, d)
  | None => (inr (mkFile p false), <[p := []]> d)
  end.

(** [os.OpenFile(p, O_WRONLY|O_APPEND, mode)] *)
Definition os_OpenAppend (p : string) (d : gmap string (list Byte.byte))
  : error + File :=
  match d !! p with
  | Some _ => inr (mkFile p false)
  | None => inl ("open " +:+ p +:+ ": no such file or directory")%string
  end.

(** [file.Close()] *)
Definition file_Close (f : File) : option error * File :=
  if f_closed f then (Some "file already closed"%string, f)
  else (None, mkFile (f_path f) true).

(** [file.Write(data)]: the number of bytes written, the error, the disk.  A
    file that was removed while it was open takes the bytes without any
    path showing them. *)
Definition file_Write (f : File) (data : list Byte.byte)
    (d : gmap string (list Byte.byte))
  : Z * option error * gmap string (list Byte.byte) :=
  if f_closed f then (0, Some "file already closed"%string, d)
  else match d !! f_path f with
       | Some old => (Z.of_nat (length data), None, <[f_path f := old ++ data]> d)
       | None => (Z.of_nat (length data), None, d)
       end.

(** [file.Seek(0, os.SEEK_END)] *)
Definition file_size (f : File) (d : gmap string (list Byte.byte)) : Z :=
  match d !! f_path f with
  | Some data => Z.of_nat (length data)
  | None => 0
  end.

(** ** Chunk handles and the cascading [deleteRef] *)

(** [journal.newChunkWrapper(chunk)] *)
Definition newChunkWrapper (p : ptr) (s : State)
  : outcome (FileJournalChunkWrapper * State) :=
  _ ← deref s p;
  Ret (mkWrapper (Some p) 0, add_refcount p 1 s).

(** The critical section at the end of [deleteRef]: take [p] out of the
    dequeue. *)
Definition unlink (p : ptr) (s : State) : outcome State :=
  c ← deref s p;
  let prevChunk := head_prev c in
  let nextChunk := head_next c in
  let s1 :=
    match prevChunk with
    | None => set_chunks (mkDequeue nextChunk (chunks_last (chunks s))
                                    (chunks_count (chunks s))) s
    | Some pc => set_next pc nextChunk s
    end in
  let s2 :=
    match nextChunk with
    | None => set_chunks (mkDequeue (chunks_first (chunks s1)) prevChunk
                                    (chunks_count (chunks s1))) s1
    | Some nc => set_prev nc prevChunk s1
    end in
  Ret (set_chunks (mkDequeue (chunks_first (chunks s2)) (chunks_last (chunks s2))
                             (int64 (chunks_count (chunks s2) - 1))) s2).

(** [journal.deleteRef(chunk)]: the error, [destroyed], the state.  The
    recursion follows [head.prev]; [fuel] bounds its depth, and a chain of
    [head.prev] pointers longer than [fuel] gives [Diverge]. *)
Fixpoint deleteRef (fuel : nat) (p : ptr) (s : State)
  : outcome (option error * bool * State) :=
  match fuel with
  | O => Diverge
  | S fuel' =>
    c ← deref s p;
    let rc := int32 (refcount c - 1) in
    let s1 := add_refcount p (-1) s in
    if rc =? 0 then
      '(err, s2) ← match head_prev c with
                    | Some prevChunk =>
                        '(err, _, s2) ← deleteRef fuel' prevChunk s1;
                        Ret (err, s2)
                    | None => Ret (None, s1)
                    end;
      match err with
      | Some e => Ret (Some e, false, add_refcount p 1 s2)
      | None =>
        c2 ← deref s2 p;
        match os_Remove (Path c2) (disk s2) with
        | (Some e, _) => Ret (Some e, false, add_refcount p 1 s2)
        | (None, d) =>
          s3 ← unlink p (set_disk d s2);
          Ret (None, true, s3)
        end
      end
    else if rc <? 0 then Panic "something went wrong!"
    else Ret (None, false, s1)
  end.

(** The depth [deleteRef] is run with: no chain of distinct chunks is longer
    than the heap. *)
Definition depth (s : State) : nat := S (size (heap s)).

(** [wrapper.GetReader()]: the error, or the bytes the reader yields. *)
Definition GetReader (w : FileJournalChunkWrapper) (s : State)
  : outcome (error + list Byte.byte) :=
  match chunk w with
  | None => Ret (inl "already disposed"%string)
  | Some p =>
    c ← deref s p;
    match disk s !! Path c with
    | Some data => Ret (inr data)
    | None => Ret (inl ("open " +:+ Path c +:+ ": no such file or directory")%string)
    end
  end.

(** [wrapper.GetNextChunk()]: [retval] is a [*FileJournalChunkWrapper],
    nil at first, and is returned as an [ik.JournalChunk]. *)
Definition GetNextChunk (w : FileJournalChunkWrapper) (s : State)
  : outcome (JournalChunk * State) :=
  match chunk w with
  | None => Ret (wrapper_ptr None, s)
  | Some p =>
    c ← deref s p;
    match head_prev c with
    | Some n => '(w', s') ← newChunkWrapper n s; Ret (wrapper_ptr (Some w'), s')
    | None => Ret (wrapper_ptr None, s)
    end
  end.

(** [wrapper.TakeOwnership()]: the result, the wrapper, the state. *)
Definition TakeOwnership (w : FileJournalChunkWrapper) (s : State)
  : outcome (bool * FileJournalChunkWrapper * State) :=
  match chunk w with
  | None => Ret (false, w, s)
  | Some p =>
    if ownershipTaken w =? 0 then
      '(_, _, s') ← deleteRef (depth s) p s;
      Ret (true, mkWrapper (chunk w) 1, s')
    else Ret (false, w, s)
  end.

(** [wrapper.Dispose()]: the error, the wrapper, the state. *)
Definition Dispose (w : FileJournalChunkWrapper) (s : State)
  : outcome (option error * FileJournalChunkWrapper * State) :=
  let w' := mkWrapper None (ownershipTaken w) in
  match chunk w with
  | None => Ret (Some "already disposed"%string, w', s)
  | Some p =>
    '(err, destroyed, s1) ← deleteRef (depth s) p s;
    match err with
    | Some e => Ret (Some e, w', s1)
    | None =>
      c ← deref s1 p;
      if destroyed && negb (ownershipTaken w =? 0) && bool_decide (head_next c = None)
      then
        match head_prev c with
        | Some prevChunk => Ret (None, w', add_refcount prevChunk 1 s1)
        | None => Ret (None, w', s1)
        end
      else Ret (None, w', s1)
    end
  end.

(** [journal.GetTailChunk()]: as in [GetNextChunk], the nil
    [*FileJournalChunkWrapper] is returned as an [ik.JournalChunk]. *)
Definition GetTailChunk (s : State)
  : outcome (JournalChunk * State) :=
  match chunks_last (chunks s) with
  | Some p => '(w, s') ← newChunkWrapper p s; Ret (wrapper_ptr (Some w), s')
  | None => Ret (wrapper_ptr None, s)
  end.

(** A method of [*FileJournalChunkWrapper] called through the interface
    value [j].  Each of the four methods begins by loading
    [wrapper.chunk]: on the nil pointer that is a nil pointer dereference,
    and so is any call on the nil interface. *)
Definition nil_dereference : string :=
  "invalid memory address or nil pointer dereference".

Definition call {A : Type} (method : FileJournalChunkWrapper -> State -> outcome A)
    (j : JournalChunk) (s : State) : outcome A :=
  match j with
  | wrapper_ptr (Some w) => method w s
  | wrapper_ptr None | nil_interface => Panic nil_dereference
  end.

(** [journal.Purge()] *)
Definition Purge (s : State) : outcome (option error * State) :=
  '(err, s1) ← match chunks_last (chunks s) with
                | Some lastChunk =>
                    '(err, _, s1) ← deleteRef (depth s) lastChunk s;
                    Ret (err, s1)
                | None => Ret (None, s)
                end;
  match err with
  | Some e => Ret (Some e, s1)
  | None =>
    match chunks_last (chunks s1) with
    | Some lastChunk => _ ← deref s1 lastChunk; Ret (None, add_refcount lastChunk 1 s1)
    | None => Ret (None, s1)
    end
  end.

(** ** The path codec

    [BuildJournalPath], [BuildJournalPathWithTSuffix] and
    [DecodeJournalPath] are defined in a file of the package that is not
    part of the sources at hand; the journal code is embedded over any
    implementation of them. *)

Record JournalPathInfo := mkInfo {
  info_Key : string;
  info_Type : JournalFileType;
  info_VariablePortion : string;
  info_TSuffix : string;
  info_Timestamp : Z;
  info_UniqueId : list Byte.byte;
}.

Class PathCodec := mkCodec {
  (** [BuildJournalPath(key, type, time, randValue)] *)
  BuildJournalPath : string -> JournalFileType -> Z -> Z -> JournalPathInfo;
  (** [BuildJournalPathWithTSuffix(key, type, tSuffix)] *)
  BuildJournalPathWithTSuffix : string -> JournalFileType -> string -> string;
  (** [DecodeJournalPath(variablePortion)]; [None] is the error case *)
  DecodeJournalPath : string -> option JournalPathInfo;
}.

(** ** Listeners

    A [JournalChunkListener] receives a fresh wrapper and runs against the
    state; its error is logged and dropped.  The listener maps of a journal
    are given as lists, in the order the [range] loop visits them. *)

Definition Listener : Type :=
  FileJournalChunkWrapper -> State -> outcome (option error * State).

Record Listeners := mkListeners {
  newChunkListeners : list Listener;
  flushListeners : list Listener;
}.

Definition no_listeners : Listeners := mkListeners [] [].

(** [journal.notifyFlushListeners(chunk)] and
    [journal.notifyNewChunkListeners(chunk)] *)
Fixpoint notifyListeners (ls : list Listener) (p : ptr) (s : State) : outcome State :=
  match ls with
  | [] => Ret s
  | listener :: ls' =>
    '(w, s1) ← newChunkWrapper p s;
    '(_, s2) ← listener w s1;
    notifyListeners ls' p s2
  end.

Section Journal.

Context {codec : PathCodec}.
Variable cfg : Config.
Variable lsn : Listeners.

(** [journal.finalizeChunk(chunk)] *)
Definition finalizeChunk (p : ptr) (s : State) : outcome (option error * State) :=
  c ← deref s p;
  let variablePortion := BuildJournalPathWithTSuffix (key cfg) Rest (TSuffix c) in
  let newPath := (pathPrefix cfg +:+ variablePortion +:+ pathSuffix cfg)%string in
  match os_Rename (Path c) newPath (disk s) with
  | (Some e, _) => Ret (Some e, s)
  | (None, d) =>
    let s1 := set_heap (alter (with_path Rest newPath) p (heap s)) (set_disk d s) in
    s2 ← notifyListeners (flushListeners lsn) p s1;
    Ret (None, s2)
  end.

(** [if journal.writer != nil { err := journal.writer.Close(); ... }] in
    [newChunk]. *)
Definition close_writer (s : State) : option error * State :=
  match writer s with
  | Some w => let '(err, w') := file_Close w in (err, set_writer (Some w') s)
  | None => (None, s)
  end.

(** The critical section of [newChunk]: [p] becomes the newest chunk. *)
Definition link_newest (p : ptr) (s : State) : State :=
  let oldHead := chunks_first (chunks s) in
  let s :=
    match oldHead with
    | Some oh => set_prev oh (Some p) s
    | None => set_chunks (mkDequeue (chunks_first (chunks s)) (Some p)
                                    (chunks_count (chunks s))) s
    end in
  let s := set_next p (chunks_first (chunks s)) s in
  set_chunks (mkDequeue (Some p) (chunks_last (chunks s))
                        (int64 (chunks_count (chunks s) + 1))) s.

(** [if oldHead != nil { ... }] in [newChunk]: the old head is finalized
    and the reference the writer held on it is given back; the error, if
    any, is the one [newChunk] gives up with. *)
Definition seal (oldHead : option ptr) (s : State) : outcome (option error * State) :=
  match oldHead with
  | Some oh =>
    '(err, s) ← finalizeChunk oh s;
    match err with
    | Some e => Ret (Some e, s)
    | None => '(err, _, s) ← deleteRef (depth s) oh s; Ret (err, s)
    end
  | None => Ret (None, s)
  end.

(** [journal.newChunk()], with the reading [now] of the clock and the value
    [rnd] of [group.rand.Int63n(0xfff)].  The state is returned in every
    case that returns. *)
Definition newChunk (now rnd : Z) (s : State) : outcome ((error + ptr) * State) :=
  let info := BuildJournalPath (key cfg) Head now rnd in
  let p := new_ptr (heap s) in
  let c := mkChunk (chunks_first (chunks s)) None
                   (pathPrefix cfg +:+ info_VariablePortion info +:+ pathSuffix cfg)%string
                   (info_Type info) (info_TSuffix info) 0 (info_UniqueId info) 1 in
  let s := set_heap (<[p := c]> (heap s)) s in
  match os_Create (Path c) (disk s) with
  | (inl e, _) => Ret (inl e, s)
  | (inr file, d) =>
    match close_writer (set_disk d s) with
    | (Some e, s) => Ret (inl e, s)
    | (None, s) =>
      let oldHead := chunks_first (chunks s) in
      let s := add_refcount p 1 (link_newest p s) in
      '(failed, s) ← seal oldHead s;
      match failed with
      | Some e =>
        match heap s !! p with
        | Some c' => Ret (inl e, set_disk (snd (os_Remove (Path c') (disk s))) s)
        | None => Panic "invalid memory address or nil pointer dereference"
        end
      | None =>
        let s := set_position 0 (set_writer (Some file) s) in
        s ← notifyListeners (newChunkListeners lsn) p s;
        Ret (inr p, s)
      end
    end
  end.

(** [journal.Write(data)] *)
Definition Write (data : list Byte.byte) (now rnd : Z) (s : State)
  : outcome (option error * State) :=
  '(failed, s) ←
    match writer s with
    | None =>
      match chunks_first (chunks s) with
      | None =>
        '(r, s) ← newChunk now rnd s;
        Ret (match r with inl e => Some e | inr _ => None end, s)
      | Some _ => Ret (None, s)
      end
    | Some _ =>
      if int64 (maxSize cfg - position s) <? Z.of_nat (length data) then
        '(r, s) ← newChunk now rnd s;
        Ret (match r with inl e => Some e | inr _ => None end, s)
      else Ret (None, s)
    end;
  match failed with
  | Some e => Ret (Some e, s)
  | None =>
    match writer s with
    | None => Panic "invalid memory address or nil pointer dereference"
    | Some w =>
      match file_Write w data (disk s) with
      | (_, Some e, d) => Ret (Some e, set_disk d s)
      | (n, None, d) =>
        if negb (n =? Z.of_nat (length data))
        then Ret (Some "not all data could be written"%string, set_disk d s)
        else Ret (None, set_position (int64 (position s + n)) (set_disk d s))
      end
    end
  end.

End Journal.

(** [journal.Dispose()] *)
Definition Journal_Dispose (s : State) : option error * State :=
  match writer s with
  | Some w =>
    match file_Close w with
    | (Some e, w') => (Some e, set_writer (Some w') s)
    | (None, _) => (None, set_writer None s)
    end
  | None => (None, s)
  end.

(** ** Strings

    A Go string is a sequence of bytes; slicing panics out of bounds. *)

Definition chars (s : string) : list ascii := list_ascii_of_string s.
Definition str (l : list ascii) : string := string_of_list_ascii l.
Definition len (s : string) : nat := String.length s.

(** [s[a:b]] *)
Definition slice (s : string) (a b : Z) : outcome string :=
  if bool_decide (0 <= a /\ a <= b /\ b <= Z.of_nat (len s))
  then Ret (str (take (Z.to_nat (b - a)) (drop (Z.to_nat a) (chars s))))
  else Panic "slice bounds out of range".

(** [strings.HasSuffix(s, suffix)] *)
Definition HasSuffix (s suffix : string) : bool :=
  bool_decide (len suffix <= len s)%nat
  && bool_decide (drop (len s - len suffix) (chars s) = chars suffix).

(** [strings.Index(s, c)] and [strings.LastIndex(s, c)] for a one-byte
    [c]; [None] is [-1]. *)
Fixpoint index_of (c : ascii) (l : list ascii) : option nat :=
  match l with
  | [] => None
  | x :: l' => if decide (x = c) then Some O else S <$> index_of c l'
  end.

Fixpoint last_index_of (c : ascii) (l : list ascii) : option nat :=
  match l with
  | [] => None
  | x :: l' =>
    match last_index_of c l' with
    | Some i => Some (S i)
    | None => if decide (x = c) then Some O else None
    end
  end.

Definition slash : ascii := "/"%char.

(** [path.Split(p)]: the directory part, up to and including the last
    slash, and the file part. *)
Definition path_Split (p : string) : string * string :=
  match last_index_of slash (chars p) with
  | Some i => (str (take (S i) (chars p)), str (drop (S i) (chars p)))
  | None => (""%string, p)
  end.

(** ** Sorting and validating a recovered chunk list *)

(** The first loop of a merge step:
    [for i > 0 && rhs.head.next != nil { i -= 1; rhs = rhs.head.next }] *)
Fixpoint sort_advance (h : gmap ptr FileJournalChunk) (i : nat) (rhs : ptr)
  : outcome (nat * ptr) :=
  match i with
  | O => Ret (O, rhs)
  | S i' =>
    match h !! rhs with
    | None => Panic "invalid memory address or nil pointer dereference"
    | Some c =>
      match head_next c with
      | None => Ret (i, rhs)
      | Some n => sort_advance h i' n
      end
    end
  end.

(** The locals of the merge loop. *)
Record MergeState := mkMerge {
  m_heap : gmap ptr FileJournalChunk;
  m_result : FileJournalChunkDequeue;
  m_lhs : option ptr;
  m_rhs : option ptr;
  m_lhsSize : nat;
  m_rhsSize : nat;
}.

(** The tail of one iteration of the merge loop: take [picked] out of the
    list it is in and append it to [result]. *)
Definition sort_move (picked : ptr) (h : gmap ptr FileJournalChunk)
    (result : FileJournalChunkDequeue)
  : outcome (gmap ptr FileJournalChunk * FileJournalChunkDequeue) :=
  match h !! picked with
  | None => Panic "invalid memory address or nil pointer dereference"
  | Some c =>
    let h1 := match head_prev c with
              | Some pp => alter (with_next (head_next c)) pp h
              | None => h
              end in
    let h2 := match head_next c with
              | Some nn => alter (with_prev (head_prev c)) nn h1
              | None => h1
              end in
    let '(h3, result_first) :=
      match chunks_last result with
      | None => (h2, Some picked)
      | Some l => (alter (with_next (Some picked)) l h2, chunks_first result)
      end in
    let h4 := alter (with_prev (chunks_last result)) picked h3 in
    let h5 := alter (with_next None) picked h4 in
    Ret (h5, mkDequeue result_first (Some picked) (chunks_count result))
  end.

Definition timestamp_lt (h : gmap ptr FileJournalChunk) (lhs rhs : ptr)
  : outcome bool :=
  match h !! lhs, h !! rhs with
  | Some a, Some b => Ret (bool_decide (Timestamp a < Timestamp b))
  | _, _ => Panic "invalid memory address or nil pointer dereference"
  end.

Definition next_of (h : gmap ptr FileJournalChunk) (p : ptr) : outcome (option ptr) :=
  match h !! p with
  | Some c => Ret (head_next c)
  | None => Panic "invalid memory address or nil pointer dereference"
  end.

(** The branches of one iteration of the merge loop: the chunk that is
    picked and whether it comes from the right run; [None] is [break]. *)
Definition sort_choose (m : MergeState) : outcome (option (ptr * bool)) :=
  if negb (m_lhsSize m =? 0)%nat then
    match m_lhs m with
    | None => Panic "invalid memory address or nil pointer dereference"
    | Some l =>
      match m_rhs m with
      | Some r =>
        if negb (m_rhsSize m =? 0)%nat then
          lt ← timestamp_lt (m_heap m) l r;
          Ret (Some (if lt : bool then (r, true) else (l, false)))
        else Ret (Some (l, false))
      | None => Ret (Some (l, false))
      end
    end
  else
    match m_rhs m with
    | Some r => if negb (m_rhsSize m =? 0)%nat then Ret (Some (r, true)) else Ret None
    | None => Ret None
    end.

(** The rest of the iteration: the run the chunk comes from moves on to
    its [head.next], and the chunk moves to the result. *)
Definition sort_pick (picked : ptr) (from_rhs : bool) (m : MergeState)
  : outcome MergeState :=
  n ← next_of (m_heap m) picked;
  '(h, res) ← sort_move picked (m_heap m) (m_result m);
  Ret (if from_rhs
       then mkMerge h res (m_lhs m) n (m_lhsSize m) (m_rhsSize m - 1)
       else mkMerge h res n (m_rhs m) (m_lhsSize m - 1) (m_rhsSize m)).

(** The merge loop; every iteration that does not [break] takes one chunk,
    so [fuel] above [lhsSize + rhsSize] is never used up. *)
Fixpoint sort_merge (fuel : nat) (m : MergeState) : outcome MergeState :=
  match fuel with
  | O => Diverge
  | S fuel' =>
    c ← sort_choose m;
    match c with
    | None => Ret m
    | Some (picked, from_rhs) =>
      m' ← sort_pick picked from_rhs m;
      sort_merge fuel' m'
    end
  end.

(** One pass over the list with run length [k]: the loop that merges
    neighbouring runs into [result].  Returns the heap, [result] and
    [first]. *)
Fixpoint sort_pass (fuel : nat) (k : nat) (h : gmap ptr FileJournalChunk)
    (result : FileJournalChunkDequeue) (lhs : ptr) (first : bool)
  : outcome (gmap ptr FileJournalChunk * FileJournalChunkDequeue * bool) :=
  match fuel with
  | O => Diverge
  | S fuel' =>
    '(i, rhs) ← sort_advance h k lhs;
    let lhsSize := (k - i)%nat in
    m ← sort_merge (S (lhsSize + k)) (mkMerge h result (Some lhs) (Some rhs) lhsSize k);
    match m_rhs m with
    | None => Ret (m_heap m, m_result m, first)
    | Some lhs' => sort_pass fuel' k (m_heap m) (m_result m) lhs' false
    end
  end.

(** The outer loop of [sortChunksByTimestamp]. *)
Fixpoint sort_loop (fuel : nat) (k : nat) (h : gmap ptr FileJournalChunk)
    (count : Z) (lhs : ptr)
  : outcome (gmap ptr FileJournalChunk * FileJournalChunkDequeue) :=
  match fuel with
  | O => Diverge
  | S fuel' =>
    '(h', result, first) ← sort_pass (S (size h)) k h (mkDequeue None None count) lhs true;
    if first : bool then Ret (h', result)
    else
      match chunks_first result with
      | None => Panic "invalid memory address or nil pointer dereference"
      | Some lhs' => sort_loop fuel' (k * 2) h' count lhs'
      end
  end.

(** [sortChunksByTimestamp(chunks)] *)
Definition sortChunksByTimestamp (h : gmap ptr FileJournalChunk)
    (q : FileJournalChunkDequeue)
  : outcome (gmap ptr FileJournalChunk * FileJournalChunkDequeue) :=
  match chunks_first q with
  | None => Ret (h, q)
  | Some lhs => sort_loop (S (size h)) 1 h (chunks_count q) lhs
  end.

(** The loop of [validateChunks]: the chunk head found so far. *)
Fixpoint validate_loop (fuel : nat) (h : gmap ptr FileJournalChunk)
    (cur : option ptr) (chunkHead : option ptr) : outcome (error + option ptr) :=
  match cur with
  | None => Ret (inr chunkHead)
  | Some p =>
    match fuel with
    | O => Diverge
    | S fuel' =>
      match h !! p with
      | None => Panic "invalid memory address or nil pointer dereference"
      | Some c =>
        if decide (Type_ c = Head) then
          match chunkHead with
          | Some _ => Ret (inl "multiple chunk heads found"%string)
          | None => validate_loop fuel' h (head_next c) (Some p)
          end
        else validate_loop fuel' h (head_next c) chunkHead
      end
    end
  end.

(** [validateChunks(chunks)] *)
Definition validateChunks (h : gmap ptr FileJournalChunk)
    (q : FileJournalChunkDequeue) : outcome (option error) :=
  r ← validate_loop (S (size h)) h (chunks_first q) None;
  match r with
  | inl e => Ret (Some e)
  | inr chunkHead =>
    if decide (chunkHead = chunks_first q) then Ret None
    else Ret (Some "chunk head does not have the newest timestamp"%string)
  end.

(** ** The startup scan *)

(** The fields of a [FileJournal] that the scan and the group keep per key. *)
Record FileJournal := mkJournal {
  j_chunks : FileJournalChunkDequeue;
  j_writer : option File;
  j_position : Z;
}.

(** What the path of the directory leads to when the scan opens it. *)
Inductive dirent :=
  | NoEntry
  | NotDirectory
  | Directory (names : list string).

(** The state of the scan loop: the chunks allocated so far, the journals
    by key and the files warned about. *)
Record Scan := mkScan {
  sc_heap : gmap ptr FileJournalChunk;
  sc_journals : gmap string FileJournal;
  sc_warnings : list string;
}.

Section Scan.

Context {codec : PathCodec}.

(** The body of [for _, file := range files_]. *)
Definition scan_file (pathPrefix pathSuffix basename : string) (file : string)
    (sc : Scan) : outcome Scan :=
  if negb (HasSuffix file pathSuffix) then Ret sc
  else
    variablePortion ← slice file (Z.of_nat (len basename))
                                 (Z.of_nat (len file) - Z.of_nat (len pathSuffix));
    match DecodeJournalPath variablePortion with
    | None => Ret (mkScan (sc_heap sc) (sc_journals sc) (sc_warnings sc ++ [file]))
    | Some info =>
      let journalProto :=
        match sc_journals sc !! info_Key info with
        | Some j => j
        | None => mkJournal (mkDequeue None None 0) None 0
        end in
      let q := j_chunks journalProto in
      let p := new_ptr (sc_heap sc) in
      let c := mkChunk None (chunks_last q)
                 (pathPrefix +:+ info_VariablePortion info +:+ pathSuffix)%string
                 (info_Type info) (info_TSuffix info) (info_Timestamp info)
                 (info_UniqueId info) 1 in
      let h := <[p := c]> (sc_heap sc) in
      let '(h, q_first) :=
        match chunks_last q with
        | None => (h, Some p)
        | Some l => (alter (with_next (Some p)) l h, chunks_first q)
        end in
      let q' := mkDequeue q_first (Some p) (int64 (chunks_count q + 1)) in
      Ret (mkScan h
             (<[info_Key info := mkJournal q' (j_writer journalProto)
                                           (j_position journalProto)]> (sc_journals sc))
             (sc_warnings sc))
    end.

Fixpoint scan_files (pathPrefix pathSuffix basename : string) (files : list string)
    (sc : Scan) : outcome Scan :=
  match files with
  | [] => Ret sc
  | file :: files' =>
    sc' ← scan_file pathPrefix pathSuffix basename file sc;
    scan_files pathPrefix pathSuffix basename files' sc'
  end.

(** The last loop of [scanJournals]: sort and validate every journal. *)
Fixpoint scan_finish (js : list (string * FileJournal)) (sc : Scan)
  : outcome (option error * Scan) :=
  match js with
  | [] => Ret (None, sc)
  | (k, j) :: js' =>
    '(h, q) ← sortChunksByTimestamp (sc_heap sc) (j_chunks j);
    err ← validateChunks h q;
    let sc' := mkScan h (<[k := mkJournal q (j_writer j) (j_position j)]> (sc_journals sc))
                      (sc_warnings sc) in
    match err with
    | Some e => Ret (Some e, sc')
    | None => scan_finish js' sc'
    end
  end.

(** [scanJournals(logger, pathPrefix, pathSuffix)], run on a heap [h] and
    on what the directory holds. *)
Definition scanJournals (h : gmap ptr FileJournalChunk) (dir : dirent)
    (pathPrefix pathSuffix : string) : outcome (error + Scan) :=
  let '(dirname, basename) := path_Split pathPrefix in
  let dirname := if decide (dirname = ""%string) then "."%string else dirname in
  match dir with
  | NoEntry => Ret (inl ("open " +:+ dirname +:+ ": no such file or directory")%string)
  | NotDirectory => Ret (inl (dirname +:+ " is not a directory")%string)
  | Directory names =>
    sc ← scan_files pathPrefix pathSuffix basename names (mkScan h ∅ []);
    '(err, sc') ← scan_finish (map_to_list (sc_journals sc)) sc;
    match err with
    | Some e => Ret (inl e)
    | None => Ret (inr sc')
    end
  end.

End Scan.

(** ** Journal groups and their factory *)

Record FileJournalGroup := mkGroup {
  pluginInstance : nat;
  g_pathPrefix : string;
  g_pathSuffix : string;
  g_maxSize : Z;
  journals : gmap string FileJournal;
}.

(** The factory; [paths] records every group as it was registered. *)
Record FileJournalGroupFactory := mkFactory {
  paths : gmap string FileJournalGroup;
  defaultPathSuffix : string;
  f_maxSize : Z;
}.

(** A journal of a group as a [State], and back. *)
Definition load (h : gmap ptr FileJournalChunk) (d : gmap string (list Byte.byte))
    (j : FileJournal) : State :=
  mkState h d (j_chunks j) (j_writer j) (j_position j).
Definition store (s : State) : FileJournal :=
  mkJournal (chunks s) (writer s) (position s).

(** The configuration of the journal of [k] in [g]. *)
Definition config_of (g : FileJournalGroup) (k : string) : Config :=
  mkConfig k (g_pathPrefix g) (g_pathSuffix g) (g_maxSize g).

(** [journalGroup.GetFileJournal(key)]: the journal and the group. *)
Definition GetFileJournal (k : string) (g : FileJournalGroup)
  : FileJournal * FileJournalGroup :=
  match journals g !! k with
  | Some j => (j, g)
  | None =>
    let j := mkJournal (mkDequeue None None 0) None 0 in
    (j, mkGroup (pluginInstance g) (g_pathPrefix g) (g_pathSuffix g) (g_maxSize g)
                (<[k := j]> (journals g)))
  end.

(** [journalGroup.GetJournalKeys()], in the order of the map. *)
Definition GetJournalKeys (g : FileJournalGroup) : list string :=
  (map_to_list (journals g)).*1.

(** [journalGroup.Dispose()]: every journal is disposed, errors are
    dropped. *)
Definition Group_Dispose (g : FileJournalGroup) : FileJournalGroup :=
  mkGroup (pluginInstance g) (g_pathPrefix g) (g_pathSuffix g) (g_maxSize g)
    ((fun j => store (snd (Journal_Dispose (load ∅ ∅ j)))) <$> journals g).

(** The loop of [GetJournalGroup] that opens the newest chunk of every
    recovered journal for appending. *)
Fixpoint open_writers (js : list (string * FileJournal))
    (h : gmap ptr FileJournalChunk) (d : gmap string (list Byte.byte))
    (acc : gmap string FileJournal)
  : outcome (gmap ptr FileJournalChunk * (error + gmap string FileJournal)) :=
  match js with
  | [] => Ret (h, inr acc)
  | (k, j) :: js' =>
    match chunks_first (j_chunks j) with
    | None => Panic "invalid memory address or nil pointer dereference"
    | Some p =>
      match h !! p with
      | None => Panic "invalid memory address or nil pointer dereference"
      | Some c =>
        match os_OpenAppend (Path c) d with
        | inl e => Ret (h, inl e)
        | inr file =>
          let h' := <[p := with_refcount (int32 (refcount c + 1)) c]> h in
          open_writers js' h' d
            (<[k := mkJournal (j_chunks j) (Some file) (file_size file d)]> acc)
        end
      end
    end
  end.

(** [strings.Index(path, "*")] and the two ways of splitting the path. *)
Definition split_pattern (defaultSuffix path : string) : string * string :=
  match index_of "*"%char (chars path) with
  | Some pos => (str (take pos (chars path)), str (drop (S pos) (chars path)))
  | None => ((path +:+ ".")%string, defaultSuffix)
  end.

Section Factory.

Context {codec : PathCodec}.

(** [factory.GetJournalGroup(path, pluginInstance)], run on a heap, on what
    the directory of the path holds and on the disk: the heap, the factory
    and the error or the group. *)
Definition GetJournalGroup (factory : FileJournalGroupFactory) (path : string)
    (plugin : nat) (h : gmap ptr FileJournalChunk) (dir : dirent)
    (d : gmap string (list Byte.byte))
  : outcome (gmap ptr FileJournalChunk * FileJournalGroupFactory
             * (error + FileJournalGroup)) :=
  match paths factory !! path with
  | Some registered =>
    if decide (pluginInstance registered = plugin)
    then Ret (h, factory, inr registered)
    else Ret (h, factory,
              inl ("Other plugin already use same buffer_path: " +:+ path)%string)
  | None =>
    let '(pathPrefix, pathSuffix) := split_pattern (defaultPathSuffix factory) path in
    r ← scanJournals h dir pathPrefix pathSuffix;
    match r with
    | inl e => Ret (h, factory, inl e)
    | inr sc =>
      '(h', opened) ← open_writers (map_to_list (sc_journals sc)) (sc_heap sc) d
                                    (sc_journals sc);
      match opened with
      | inl e => Ret (h', factory, inl e)
      | inr js =>
        let g := mkGroup plugin pathPrefix pathSuffix (f_maxSize factory) js in
        Ret (h', mkFactory (<[path := g]> (paths factory)) (defaultPathSuffix factory)
                           (f_maxSize factory),
             inr g)
      end
    end
  end.

End Factory.

(** [NewFileJournalGroupFactory(...)] *)
Definition NewFileJournalGroupFactory (defaultPathSuffix : string) (maxSize : Z)
  : FileJournalGroupFactory :=
  mkFactory ∅ defaultPathSuffix maxSize.

(** ** Reading a journal back *)

(** The chunks from [p] on in the direction of [head.prev], that is from
    older to newer; [None] when the chain does not end within [fuel]
    steps or leaves the heap. *)
Fixpoint chain_prev (fuel : nat) (h : gmap ptr FileJournalChunk) (p : option ptr)
  : option (list ptr) :=
  match p with
  | None => Some []
  | Some q =>
    match fuel with
    | O => None
    | S fuel' =>
      c ← h !! q;
      l ← chain_prev fuel' h (head_prev c);
      Some (q :: l)
    end
  end.

(** What a consumer reads that starts at [GetTailChunk] and follows
    [GetNextChunk] to the end, concatenating what each reader yields. *)
Definition read_back (h : gmap ptr FileJournalChunk)
    (d : gmap string (list Byte.byte)) (j : FileJournal) : option (list Byte.byte) :=
  l ← chain_prev (S (size h)) h (chunks_last (j_chunks j));
  datas ← mapM (fun p => c ← h !! p; d !! Path c) l;
  Some (concat datas).

(** What the directory of [dirname] holds: [names] lists, in any order and
    once each, the files of the disk directly under [dirname]. *)
Definition dir_lists (d : gmap string (list Byte.byte)) (dirname : string)
    (names : list string) : Prop :=
  NoDup names /\
  forall name, name ∈ names <->
    (slash ∉ chars name) /\ is_Some (d !! (dirname +:+ name)%string).

(** ** A path codec

    Modelled from the spec: the path codec ([BuildJournalPath],
    [BuildJournalPathWithTSuffix], [DecodeJournalPath]) is missing from the
    sources.  The spec asks for an encoding of key, role, time and a 12-bit
    nonce from which the role and the timestamp are recovered, in which
    [Head] and [Rest] differ in one segment and the [t_suffix] survives the
    rename.  Here the variable portion is [key.bN] for a head and [key.qN]
    for a sealed chunk, [N] being [time * 4096 + nonce] in decimal. *)

Module SampleCodec.

Definition marker (ty : JournalFileType) : string :=
  match ty with Head => "b" | Rest => "q" end.

Definition decimal (n : N) : string := NilEmpty.string_of_uint (N.to_uint n).

Definition stamp (now rnd : Z) : N := Z.to_N (now * 4096 + rnd).

Definition build_with_tsuffix (k : string) (ty : JournalFileType) (ts : string)
  : string :=
  (k +:+ "." +:+ marker ty +:+ ts)%string.

Definition build (k : string) (ty : JournalFileType) (now rnd : Z) : JournalPathInfo :=
  let ts := decimal (stamp now rnd) in
  mkInfo k ty (build_with_tsuffix k ty ts) ts now (list_byte_of_string ts).

Definition decode (vp : string) : option JournalPathInfo :=
  i ← last_index_of "."%char (chars vp);
  match drop (S i) (chars vp) with
  | m :: ts =>
    ty ← (if decide (m = "b"%char) then Some Head
          else if decide (m = "q"%char) then Some Rest else None);
    match ts with
    | [] => None
    | _ :: _ =>
      n ← NilEmpty.uint_of_string (str ts);
      Some (mkInfo (str (take i (chars vp))) ty vp (str ts)
                   (Z.of_N (N.of_uint n) / 4096) (list_byte_of_string (str ts)))
    end
  | [] => None
  end.

#[local] Instance codec : PathCodec := mkCodec build build_with_tsuffix decode.

End SampleCodec.

(** ** Well-formed chunk lists

    [l] lists the chunks of a dequeue from the newest to the oldest, the
    order of [head.next]. *)

Definition hd_or (l : list ptr) (d : option ptr) : option ptr :=
  match l with
  | [] => d
  | p :: _ => Some p
  end.

Definition last_or (l : list ptr) (d : option ptr) : option ptr :=
  match last l with
  | Some p => Some p
  | None => d
  end.

(** What a heap holds at an address, in three parts: the links, the fields
    that [deleteRef] never writes, and the reference count. *)
Definition links (h : gmap ptr FileJournalChunk) (p : ptr)
  : option (option ptr * option ptr) :=
  (fun c => (head_prev c, head_next c)) <$> h !! p.
Definition static (h : gmap ptr FileJournalChunk) (p : ptr)
  : option (string * JournalFileType * string * Z * list Byte.byte) :=
  (fun c => (Path c, Type_ c, TSuffix c, Timestamp c, UniqueId c)) <$> h !! p.
Definition rc (h : gmap ptr FileJournalChunk) (p : ptr) : option Z :=
  refcount <$> h !! p.
Definition path_of (h : gmap ptr FileJournalChunk) (p : ptr) : option string :=
  Path <$> h !! p.

(** The chunks of [l] are linked to each other in [h]; [pp] is what
    [head.prev] of the first one holds and [nn] what [head.next] of the last
    one holds. *)
Fixpoint dseg (h : gmap ptr FileJournalChunk) (pp : option ptr) (l : list ptr)
    (nn : option ptr) : Prop :=
  match l with
  | [] => True
  | p :: l' => links h p = Some (pp, hd_or l' nn) /\ dseg h (Some p) l' nn
  end.

(** [q] is the dequeue of the chunks [l] in [h]. *)
Definition dequeue_of (h : gmap ptr FileJournalChunk) (q : FileJournalChunkDequeue)
    (l : list ptr) : Prop :=
  NoDup l /\ dseg h None l None /\ chunks_first q = head l /\ chunks_last q = last l.

(** The types of the chunks of [l]. *)
Definition types_of (h : gmap ptr FileJournalChunk) (l : list ptr)
  : list (option JournalFileType) :=
  (fun p => Type_ <$> h !! p) <$> l.

(** The journal of [s] is in order: its chunks are [l], each is referenced
    at least once, and each has a file of its own on the disk. *)
Record journal_ok (s : State) (l : list ptr) : Prop := mkJournalOk {
  ok_dequeue : dequeue_of (heap s) (chunks s) l;
  ok_refcount : forall p c, p ∈ l -> heap s !! p = Some c ->
                  1 <= refcount c < 2 ^ 31;
  ok_file : forall p c, p ∈ l -> heap s !! p = Some c -> is_Some (disk s !! Path c);
  ok_paths : forall p p' c c', p ∈ l -> p' ∈ l -> heap s !! p = Some c ->
               heap s !! p' = Some c' -> Path c = Path c' -> p = p';
}.

(** The chunk at [p] is a head chunk. *)
Definition is_head (h : gmap ptr FileJournalChunk) (p : ptr) : Prop :=
  Type_ <$> h !! p = Some Head.

#[global] Instance is_head_dec h p : Decision (is_head h p).
Proof. unfold is_head. apply _. Defined.

(** What the loop of [validateChunks] makes of the head chunks it meets. *)
Definition verdict (heads : list ptr) : error + option ptr :=
  match heads with
  | [] => inr None
  | [p] => inr (Some p)
  | _ :: _ :: _ => inl "multiple chunk heads found"%string
  end.

(** A journal that holds one sealed chunk and no head. *)
Definition sealed_chunk : FileJournalChunk :=
  mkChunk None None "/tmp/j.s.q4101.log" Rest "4101" 1 [] 1.
Definition sealed_only_heap : gmap ptr FileJournalChunk := {[ 0%nat := sealed_chunk ]}.
Definition sealed_only : FileJournalChunkDequeue := mkDequeue (Some 0%nat) (Some 0%nat) 1.

(** The chunks of [l] that a cascade coming from the older end leaves in
    place: it takes the chunks that are referenced once, up to the first
    chunk that is referenced more often. *)
Fixpoint survivors (h : gmap ptr FileJournalChunk) (l : list ptr) : list ptr :=
  match l with
  | [] => []
  | p :: l' =>
    match survivors h l' with
    | [] => if decide (rc h p = Some 1) then [] else [p]
    | q :: k => p :: q :: k
    end
  end.

(** The chunks of [l] that such a cascade takes. *)
Definition reclaimed (h : gmap ptr FileJournalChunk) (l : list ptr) : list ptr :=
  drop (length (survivors h l)) l.

(** The disk without the files of the chunks [l]. *)
Definition remove_files (h : gmap ptr FileJournalChunk) (l : list ptr)
    (d : gmap string (list Byte.byte)) : gmap string (list Byte.byte) :=
  foldl (fun d x => match path_of h x with Some p => delete p d | None => d end) d l.

(** The last step of [Purge] and of [Dispose] on an owned handle: the oldest
    chunk of [k], if there is one, is referenced once more. *)
Definition anchor (k : list ptr) (s : State) : State :=
  match last k with
  | Some p => add_refcount p 1 s
  | None => s
  end.

(** The state [s'] after [deleteRef] on [n] has returned [e] and [d],
    compared with the state [s] before; [l1] are the chunks newer than [n]
    and [l2] the older ones. *)
Record untouched (s s' : State) (l1 : list ptr) (n : ptr) (l2 : list ptr)
    (e : option error) (d : bool) : Prop := mkUntouched {
  un_static : forall x, static (heap s') x = static (heap s) x;
  un_rc : forall x, x ∉ l1 ++ [n] -> rc (heap s') x = rc (heap s) x;
  un_linked : exists l1', dequeue_of (heap s') (chunks s')
                            (l1' ++ (if d then [] else [n]) ++ l2);
  un_error : e <> None -> d = false;
  un_undo : e <> None -> forall r, rc (heap s) n = Some r ->
              - 2 ^ 31 <= r < 2 ^ 31 -> rc (heap s') n = Some r;
  un_disk : forall pth, (forall x, x ∈ l1 ++ [n] -> path_of (heap s) x <> Some pth) ->
              disk s' !! pth = disk s !! pth;
  un_file : d = false -> forall pth, path_of (heap s) n = Some pth ->
              (forall x, x ∈ l1 -> path_of (heap s) x <> Some pth) ->
              disk s' !! pth = disk s !! pth;
  un_writer : writer s' = writer s /\ position s' = position s;
}.

(** ** What a roll-over makes *)

Section Paths.

Context {codec : PathCodec}.
Variable cfg : Config.

(** The path of the head chunk made at the time [now] with the nonce
    [rnd], and the path a chunk is renamed to when it is sealed. *)
Definition head_path (now rnd : Z) : string :=
  (pathPrefix cfg +:+ info_VariablePortion (BuildJournalPath (key cfg) Head now rnd)
   +:+ pathSuffix cfg)%string.

Definition rest_path (c : FileJournalChunk) : string :=
  (pathPrefix cfg +:+ BuildJournalPathWithTSuffix (key cfg) Rest (TSuffix c)
   +:+ pathSuffix cfg)%string.

(** The head chunk [newChunk] makes, once the writer holds it. *)
Definition new_head (now rnd : Z) (oldHead : option ptr) : FileJournalChunk :=
  let info := BuildJournalPath (key cfg) Head now rnd in
  mkChunk oldHead None (head_path now rnd) (info_Type info) (info_TSuffix info) 0
          (info_UniqueId info) 2.

(** The old head [c] once it is sealed and the writer has let go of it; [p]
    is the new head. *)
Definition sealed (p : ptr) (c : FileJournalChunk) : FileJournalChunk :=
  mkChunk (head_next c) (Some p) (rest_path c) Rest (TSuffix c) (Timestamp c)
          (UniqueId c) (refcount c - 1).

(** The state after [newChunk] on a journal without chunks. *)
Definition started (now rnd : Z) (s : State) : State :=
  mkState (<[new_ptr (heap s) := new_head now rnd None]> (heap s))
          (<[head_path now rnd := []]> (disk s))
          (mkDequeue (Some (new_ptr (heap s))) (Some (new_ptr (heap s)))
                     (int64 (chunks_count (chunks s) + 1)))
          (Some (mkFile (head_path now rnd) false))
          0.

(** The state after [newChunk] on a journal whose head [oh] holds [c], is
    referenced more than once and has the contents [old]. *)
Definition rolled (now rnd : Z) (s : State) (oh : ptr) (c : FileJournalChunk)
    (old : list Byte.byte) : State :=
  mkState (<[new_ptr (heap s) := new_head now rnd (Some oh)]>
             (<[oh := sealed (new_ptr (heap s)) c]> (heap s)))
          (<[rest_path c := old]>
             (delete (Path c) (<[head_path now rnd := []]> (disk s))))
          (mkDequeue (Some (new_ptr (heap s))) (chunks_last (chunks s))
                     (int64 (chunks_count (chunks s) + 1)))
          (Some (mkFile (head_path now rnd) false))
          0.

End Paths.

(** ** The merge sort, on lists

    What [sortChunksByTimestamp] computes, on the list of the chunks from
    the first to the last; [ts] gives the timestamp of a chunk. *)

Section SortModel.

Variable ts : ptr -> Z.

(** One merge: the chunk of the right run goes first when the timestamp of
    the left one is smaller. *)
Fixpoint merge_abs (l1 : list ptr) : list ptr -> list ptr :=
  fix aux (l2 : list ptr) : list ptr :=
    match l1, l2 with
    | [], _ => l2
    | _, [] => l1
    | a :: l1', b :: l2' =>
      if bool_decide (ts a < ts b) then b :: aux l2' else a :: merge_abs l1' l2
    end.

(** The length of the left run of a merge step on the list [l]: [k], or
    what is left without its last chunk. *)
Definition left_run (k : nat) (l : list ptr) : nat := (k `min` (length l - 1))%nat.

(** One pass with run length [k]. *)
Fixpoint pass_abs (fuel : nat) (k : nat) (l : list ptr) : list ptr :=
  match fuel with
  | O => []
  | S fuel' =>
    match l with
    | [] => []
    | _ :: _ =>
      let t := drop (left_run k l) l in
      merge_abs (take (left_run k l) l) (take k t) ++ pass_abs fuel' k (drop k t)
    end
  end.

(** The passes, with run lengths [k], [2k], ... up to the pass that is made
    of one merge. *)
Fixpoint loop_abs (fuel : nat) (k : nat) (l : list ptr) : list ptr :=
  match fuel with
  | O => l
  | S fuel' =>
    let l' := pass_abs (length l) k l in
    if decide (length l <= left_run k l + k)%nat then l'
    else loop_abs fuel' (k * 2) l'
  end.

(** The order of the sorted list: no chunk comes before a chunk with a
    greater timestamp. *)
Definition newest_first : relation ptr := fun a b => ts b <= ts a.

(** The list is made of sorted runs of [k] chunks, the last of which may be
    shorter: what a pass with run length [k] starts from. *)
Inductive runs (k : nat) : list ptr -> Prop :=
  | runs_last l :
      (length l <= k)%nat -> StronglySorted newest_first l -> runs k l
  | runs_block b l :
      length b = k -> StronglySorted newest_first b -> runs k l -> runs k (b ++ l).

End SortModel.

(** The timestamp of the chunk at [p]. *)
Definition ts_of (h : gmap ptr FileJournalChunk) (p : ptr) : Z :=
  match h !! p with
  | Some c => Timestamp c
  | None => 0
  end.

(** ** A journal with three chunks

    The journal of key [s] under [/tmp/j.*.log] with a size limit of four
    bytes, after [AAA], [BBB] and [CCC] have been written at the times 1, 2
    and 3. *)

Definition example_cfg : Config := mkConfig "s" "/tmp/j." ".log" 4.

Definition empty_journal : State :=
  mkState ∅ ∅ (mkDequeue None None 0) None 0.

Definition AAA : list Byte.byte := [Byte.x41; Byte.x41; Byte.x41].
Definition BBB : list Byte.byte := [Byte.x42; Byte.x42; Byte.x42].
Definition CCC : list Byte.byte := [Byte.x43; Byte.x43; Byte.x43].

Definition three_chunks : State :=
  mkState
    (<[2%nat := mkChunk (Some 1%nat) None "/tmp/j.s.b12297.log" Head "12297" 0
                        (list_byte_of_string "12297") 2]>
     (<[1%nat := mkChunk (Some 0%nat) (Some 2%nat) "/tmp/j.s.q8199.log" Rest "8199" 0
                         (list_byte_of_string "8199") 1]>
      (<[0%nat := mkChunk None (Some 1%nat) "/tmp/j.s.q4101.log" Rest "4101" 0
                          (list_byte_of_string "4101") 1]> ∅)))
    (<["/tmp/j.s.b12297.log"%string := CCC]>
     (<["/tmp/j.s.q8199.log"%string := BBB]>
      (<["/tmp/j.s.q4101.log"%string := AAA]> ∅)))
    (mkDequeue (Some 2%nat) (Some 0%nat) 3)
    (Some (mkFile "/tmp/j.s.b12297.log" false))
    3.

(** The same journal when the file of the chunk at address 1 is not on the
    disk any more. *)
Definition lost_file : State :=
  set_disk (delete "/tmp/j.s.q8199.log"%string (disk three_chunks)) three_chunks.

(** The state of a call that has returned. *)
Definition state_of {A} (r : outcome (A * State)) : State :=
  match r with
  | Ret (_, s) => s
  | _ => empty_journal
  end.

(** ** A directory with a foreign file

    The directory [/tmp/] holds the head chunk [j.s.b8199.log] of the
    journal of key [s] under [/tmp/j.*.log], and a file [xxs.q4101.log] that
    does not start with the prefix [j.] of the journal files. *)

Definition foreign_disk : gmap string (list Byte.byte) :=
  <["/tmp/j.s.b8199.log"%string := BBB]> (<["/tmp/xxs.q4101.log"%string := AAA]> ∅).

Definition foreign_names : list string := ["xxs.q4101.log"; "j.s.b8199.log"]%string.

(** The journal of [k] in what [GetJournalGroup] returns, as a state on the
    disk [d]. *)
Definition opened_journal
    (r : outcome (gmap ptr FileJournalChunk * FileJournalGroupFactory
                  * (error + FileJournalGroup)))
    (k : string) (d : gmap string (list Byte.byte)) : option State :=
  match r with
  | Ret (h, _, inr g) => load h d <$> journals g !! k
  | _ => None
  end.

(** The journal of [s] that [GetJournalGroup] recovers from that directory. *)
Definition foreign_journal : State :=
  mkState
    (<[1%nat := mkChunk (Some 0%nat) None "/tmp/j.s.b8199.log" Head "8199" 2
                        (list_byte_of_string "8199") 2]>
     (<[0%nat := mkChunk None (Some 1%nat) "/tmp/j.s.q4101.log" Rest "4101" 1
                         (list_byte_of_string "4101") 1]> ∅))
    foreign_disk
    (mkDequeue (Some 1%nat) (Some 0%nat) 2)
    (Some (mkFile "/tmp/j.s.b8199.log" false))
    3.

(** ** The clock of the journal with three chunks

    The [n]-th chunk is made at the time [n + 1] with the nonce [2n + 5];
    its name decodes to the timestamp [n + 1]. *)

Definition example_clock (n : nat) : Z * Z := (Z.of_nat n + 1, 2 * Z.of_nat n + 5).
Definition example_tau (n : nat) : Z := Z.of_nat n + 1.

(** ** A chunk list as the scan links it

    Three chunks in the order in which a directory listed their files, with
    the timestamps 2, 3 and 1. *)

Definition unsorted_heap : gmap ptr FileJournalChunk :=
  <[2%nat := mkChunk None (Some 1%nat) "/tmp/j.s.q4101.log" Rest "4101" 1
                     (list_byte_of_string "4101") 1]>
  (<[1%nat := mkChunk (Some 2%nat) (Some 0%nat) "/tmp/j.s.b12297.log" Head "12297" 3
                      (list_byte_of_string "12297") 1]>
   (<[0%nat := mkChunk (Some 1%nat) None "/tmp/j.s.q8199.log" Rest "8199" 2
                       (list_byte_of_string "8199") 1]> ∅)).

Definition unsorted : FileJournalChunkDequeue := mkDequeue (Some 0%nat) (Some 2%nat) 3.

(** ** Writing records and finding them again after a restart *)

(** What a restart has to recover of a chunk: its path, its type and its
    timestamp. *)
Definition summary (h : gmap ptr FileJournalChunk) (p : ptr)
  : option (string * JournalFileType * Z) :=
  (fun c => (Path c, Type_ c, Timestamp c)) <$> h !! p.

(** The timestamp of a summary. *)
Definition stamp_of (x : option (string * JournalFileType * Z)) : Z :=
  match x with
  | Some (_, _, t) => t
  | None => 0
  end.

(** The order of the chunks from the oldest to the newest, on summaries. *)
Definition older : relation (option (string * JournalFileType * Z)) :=
  fun a b => stamp_of a <= stamp_of b.

Section Records.

Context {codec : PathCodec}.
Variable cfg : Config.

(** The clock and the random source of the group: [clock n] is what the
    [n]-th call of [newChunk] gets from [timeGetter()] and from
    [rand.Int63n(0xfff)]. *)
Variable clock : nat -> Z * Z.

(** The condition under which [Write] calls [newChunk]. *)
Definition calls_newChunk (data : list Byte.byte) (s : State) : bool :=
  match writer s with
  | None => bool_decide (chunks_first (chunks s) = None)
  | Some _ => int64 (maxSize cfg - position s) <? Z.of_nat (length data)
  end.

(** A client that writes the records one after the other and gives up at
    the first error; [n] counts the calls of [newChunk]. *)
Fixpoint write_all (n : nat) (records : list (list Byte.byte)) (s : State)
  : outcome (option error * State) :=
  match records with
  | [] => Ret (None, s)
  | data :: records' =>
    '(err, s') ← Write cfg no_listeners data (clock n).1 (clock n).2 s;
    match err with
    | Some e => Ret (Some e, s')
    | None => write_all (if calls_newChunk data s then S n else n) records' s'
    end
  end.

(** The variable portion of the name of the [n]-th chunk while it is the
    head, and once it is sealed. *)
Definition head_name (n : nat) : string :=
  info_VariablePortion (BuildJournalPath (key cfg) Head (clock n).1 (clock n).2).
Definition rest_name (n : nat) : string :=
  BuildJournalPathWithTSuffix (key cfg) Rest
    (info_TSuffix (BuildJournalPath (key cfg) Head (clock n).1 (clock n).2)).

(** The path of the file with the variable portion [vp], and its name in
    the directory when [basename] is the file part of the prefix. *)
Definition file_of (vp : string) : string :=
  (pathPrefix cfg +:+ vp +:+ pathSuffix cfg)%string.
Definition name_of (basename vp : string) : string :=
  (basename +:+ vp +:+ pathSuffix cfg)%string.

(** [DecodeJournalPath] reads the key of the journal, the type [t] and the
    timestamp [ts] off the variable portion [vp], and gives [vp] back. *)
Definition decodes (vp : string) (t : JournalFileType) (ts : Z) : Prop :=
  exists info, DecodeJournalPath vp = Some info /\
    info_Key info = key cfg /\ info_Type info = t /\
    info_VariablePortion info = vp /\ info_Timestamp info = ts.

(** What the round trip needs of the codec and of the clock for the first
    [m] chunks: the names decode to what they were built from, the sealed
    name keeps the timestamp [tau n] of the head name, no name holds a
    slash, and a chunk made later has a greater timestamp. *)
Record stamps_ok (tau : nat -> Z) (m : nat) : Prop := mkStampsOk {
  so_head : forall n, (n < m)%nat -> decodes (head_name n) Head (tau n);
  so_rest : forall n, (n < m)%nat -> decodes (rest_name n) Rest (tau n);
  so_head_slash : forall n, (n < m)%nat -> slash ∉ chars (head_name n);
  so_rest_slash : forall n, (n < m)%nat -> slash ∉ chars (rest_name n);
  so_mono : forall n n', (n < n')%nat -> (n' < m)%nat -> tau n < tau n';
}.

(** The files of a journal whose newest chunk is the [m]-th, from the
    oldest to the newest: variable portion, type and timestamp. *)
Definition entries (tau : nat -> Z) (m : nat)
  : list (string * JournalFileType * Z) :=
  ((fun n => (rest_name n, Rest, tau n)) <$> seq 0 m) ++ [(head_name m, Head, tau m)].

(** What the scan makes of such a file. *)
Definition recovered (e : string * JournalFileType * Z)
  : option (string * JournalFileType * Z) :=
  Some (file_of e.1.1, e.1.2, e.2).

(** The journal while it is written: [m] chunks are sealed and hold
    [past], the head chunk is the [m]-th, the writer is on its file, which
    holds [cur]; [d0] is the disk before the first write. *)
Record writing (d0 : gmap string (list Byte.byte)) (m : nat)
    (past : list (list Byte.byte)) (cur : list Byte.byte) (s : State) : Prop :=
  mkWriting {
  wr_count : length past = m;
  wr_writer : writer s = Some (mkFile (file_of (head_name m)) false);
  wr_head : exists oh c, chunks_first (chunks s) = Some oh /\ heap s !! oh = Some c /\
              Path c = file_of (head_name m) /\
              file_of (BuildJournalPathWithTSuffix (key cfg) Rest (TSuffix c))
              = file_of (rest_name m) /\
              refcount c = 2;
  wr_position : position s = Z.of_nat (length cur);
  wr_bound : Z.of_nat (length cur) < 2 ^ 63;
  wr_cur : disk s !! file_of (head_name m) = Some cur;
  wr_done : forall i c, past !! i = Some c -> disk s !! file_of (rest_name i) = Some c;
  wr_other : forall p, p <> file_of (head_name m) ->
               (forall i, (i < m)%nat -> p <> file_of (rest_name i)) ->
               disk s !! p = d0 !! p;
}.

End Records.

(** The state of the scan once it has read the files [V] of one journal:
    their chunks [l] are linked in the order in which they were read, and
    each is referenced once. *)
Definition scanned `{codec : PathCodec} (cfg : Config) (sc : Scan) (l : list ptr)
    (V : list (string * JournalFileType * Z)) : Prop :=
  exists q, dequeue_of (sc_heap sc) q l /\
    (l = [] -> q = mkDequeue None None 0) /\
    sc_journals sc = (if decide (l = []) then ∅
                      else {[ key cfg := mkJournal q None 0 ]}) /\
    summary (sc_heap sc) <$> l = recovered cfg <$> V /\
    forall x, x ∈ l -> rc (sc_heap sc) x = Some 1.
(** ** A consumer of the chunks

    A consumer that reads a journal through its handles: it starts at
    [GetTailChunk], reads a chunk with [GetReader], moves on with
    [GetNextChunk] and disposes the handle it leaves; it gives up at the
    first error.  The values it is given are of the interface type; it
    takes the [*FileJournalChunkWrapper] out of each one (a type assertion,
    which panics on the nil interface) and stops at the nil pointer. *)

Definition as_wrapper (j : JournalChunk) : outcome (option FileJournalChunkWrapper) :=
  match j with
  | wrapper_ptr p => Ret p
  | nil_interface =>
      Panic "interface conversion: interface is nil, not *journal.FileJournalChunkWrapper"
  end.

Fixpoint read_chunks (fuel : nat) (w : FileJournalChunkWrapper) (s : State)
  : outcome ((error + list Byte.byte) * State) :=
  match fuel with
  | O => Diverge
  | S fuel' =>
    r ← GetReader w s;
    match r with
    | inl e => Ret (inl e, s)
    | inr data =>
      '(j, s1) ← GetNextChunk w s;
      next ← as_wrapper j;
      '(err, _, s2) ← Dispose w s1;
      match err with
      | Some e => Ret (inl e, s2)
      | None =>
        match next with
        | None => Ret (inr data, s2)
        | Some w' =>
          '(rest, s3) ← read_chunks fuel' w' s2;
          Ret (match rest with
               | inl e => inl e
               | inr data' => inr (data ++ data')
               end, s3)
        end
      end
    end
  end.

Definition read_journal (s : State) : outcome ((error + list Byte.byte) * State) :=
  '(j, s1) ← GetTailChunk s;
  w ← as_wrapper j;
  match w with
  | None => Ret (inr [], s1)
  | Some w => read_chunks (depth s) w s1
  end.

(** The same consumer when it tests the interface value itself against nil
    and calls the methods through the interface. *)
Fixpoint read_until_nil (fuel : nat) (j : JournalChunk) (s : State)
  : outcome ((error + list Byte.byte) * State) :=
  match fuel with
  | O => Diverge
  | S fuel' =>
    if is_nil j then Ret (inr [], s)
    else
      r ← call GetReader j s;
      match r with
      | inl e => Ret (inl e, s)
      | inr data =>
        '(next, s1) ← call GetNextChunk j s;
        '(err, _, s2) ← call Dispose j s1;
        match err with
        | Some e => Ret (inl e, s2)
        | None =>
          '(rest, s3) ← read_until_nil fuel' next s2;
          Ret (match rest with
               | inl e => inl e
               | inr data' => inr (data ++ data')
               end, s3)
        end
      end
  end.

(** ** [Flush]

    The visitor of [Flush] receives a handle and runs against the state. *)

Definition Visitor : Type :=
  FileJournalChunkWrapper -> State -> outcome (option error * State).

(** The first loop of [Flush]: [chunks[i] = chunk; i += 1] from
    [chunks.last] on along [head.prev], into the slice [arr]. *)
Fixpoint flush_collect (fuel : nat) (h : gmap ptr FileJournalChunk) (cur : option ptr)
    (i : nat) (arr : list (option ptr)) : outcome (list (option ptr)) :=
  match cur with
  | None => Ret arr
  | Some p =>
    match fuel with
    | O => Diverge
    | S fuel' =>
      if decide (i < length arr)%nat then
        match h !! p with
        | Some c => flush_collect fuel' h (head_prev c) (S i) (<[i := Some p]> arr)
        | None => Panic "invalid memory address or nil pointer dereference"
        end
      else Panic "index out of range"
    end
  end.

(** The second loop: [visitor(journal.newChunkWrapper(chunk))] for every
    element of the slice, up to the first error. *)
Fixpoint flush_visit (visitor : Visitor) (arr : list (option ptr)) (s : State)
  : outcome (option error * State) :=
  match arr with
  | [] => Ret (None, s)
  | None :: _ => Panic "invalid memory address or nil pointer dereference"
  | Some p :: arr' =>
    '(w, s1) ← newChunkWrapper p s;
    '(err, s2) ← visitor w s1;
    match err with
    | Some e => Ret (Some e, s2)
    | None => flush_visit visitor arr' s2
    end
  end.

(** [journal.Flush(visitor)]; [None] is the nil visitor.  The error of
    [Purge] is dropped. *)
Definition Flush (visitor : option Visitor) (s : State)
  : outcome (option error * State) :=
  '(err, s1) ←
    match visitor with
    | Some v =>
      if chunks_count (chunks s) <? 0 then Panic "makeslice: len out of range"
      else
        arr ← flush_collect (depth s) (heap s) (chunks_last (chunks s)) 0
                            (replicate (Z.to_nat (chunks_count (chunks s))) None);
        flush_visit v arr s
    | None => Ret (None, s)
    end;
  match err with
  | Some e => Ret (Some e, s1)
  | None => '(_, s2) ← Purge s1; Ret (None, s2)
  end.

(** A visitor that gives its handle back at once. *)
Definition release : Visitor :=
  fun w s => '(err, _, s') ← Dispose w s; Ret (err, s').

(** A listener that consumes the chunk it is told about: it takes the
    ownership of the chunk and disposes its handle. *)
Definition consume : Listener :=
  fun w s =>
    '(_, w1, s1) ← TakeOwnership w s;
    '(err, _, s2) ← Dispose w1 s1;
    Ret (err, s2).

(** The listeners of a journal with [consume] as its one flush listener. *)
Definition consuming : Listeners := mkListeners [] [consume].

(** ** A journal that is being written

    The journal of [s] is in order, its chunks are [l], and its writer is
    open on the file of the newest chunk, which the writer references
    besides the list. *)

Record journal_open (s : State) (l : list ptr) : Prop := mkJournalOpen {
  jo_ok : journal_ok s l;
  jo_head : exists oh c w, head l = Some oh /\ heap s !! oh = Some c /\
              writer s = Some w /\ f_path w = Path c /\ f_closed w = false /\
              2 <= refcount c;
  jo_position : 0 <= position s < 2 ^ 63;
}.

(** * Properties *)

(** ** Monad and integer lemmas *)

Lemma bind_Ret {A B} (a : A) (f : A -> outcome B) : (Ret a ≫= f) = f a.
Proof. reflexivity. Qed.

Lemma bind_Ret_inv {A B} (m : outcome A) (f : A -> outcome B) (b : B) :
  (m ≫= f) = Ret b -> exists a, m = Ret a /\ f a = Ret b.
Proof. destruct m; simpl; intros H; try discriminate. eauto. Qed.

Lemma int32_id z : - 2 ^ 31 <= z < 2 ^ 31 -> int32 z = z.
Proof.
  intros H. unfold int32, wrap.
  rewrite Z.mod_small; lia.
Qed.

Lemma int64_id z : - 2 ^ 63 <= z < 2 ^ 63 -> int64 z = z.
Proof.
  intros H. unfold int64, wrap.
  rewrite Z.mod_small; lia.
Qed.

Lemma int32_add_sub z d : int32 (int32 (z - d) + d) = int32 z.
Proof.
  unfold int32, wrap.
  replace (((z - d + 2 ^ (32 - 1)) mod 2 ^ 32 - 2 ^ (32 - 1) + d + 2 ^ (32 - 1)))
    with ((z - d + 2 ^ (32 - 1)) mod 2 ^ 32 + d) by lia.
  rewrite Zplus_mod_idemp_l. f_equal. f_equal. lia.
Qed.

(** ** A write without a writer *)

Section WriteNil.

Context {codec : PathCodec}.

(** C10. When the writer of a journal is [nil] while its chunk list is not
    empty, as it is after [journal.Dispose()] has closed and cleared an open
    writer, [Write] creates no chunk and returns no error: it dereferences
    the [nil] writer and panics. *)
Theorem Write_without_writer_panics (cfg : Config) (lsn : Listeners)
    (data : list Byte.byte) (now rnd : Z) (s : State) (w : File) :
  writer s = Some w -> f_closed w = false -> chunks_first (chunks s) <> None ->
  let s' := snd (Journal_Dispose s) in
  fst (Journal_Dispose s) = None /\
  writer s' = None /\ heap s' = heap s /\ disk s' = disk s /\ chunks s' = chunks s /\
  Write cfg lsn data now rnd s'
    = Panic "invalid memory address or nil pointer dereference".
Proof.
  intros Hw Hc Hf. unfold Journal_Dispose. rewrite Hw. unfold file_Close.
  rewrite Hc. simpl. repeat split.
  unfold Write. simpl.
  destruct (chunks_first (chunks s)) eqn:E; [reflexivity | congruence].
Qed.

End WriteNil.

(** ** Handles after [Dispose] *)

(** C9.  What a disposed handle gives.  Once [Dispose] has returned without
    error on a handle, in any later state [GetReader] returns the error
    "already disposed", [TakeOwnership] returns [false] and [Dispose]
    returns an error, each leaving the handle and the state as they are.
    [GetNextChunk] does not return nil: its result is the interface value
    that holds the nil [*FileJournalChunkWrapper], on which the test
    [chunk == nil] is false and every method panics. *)
Theorem disposed_handle_next_is_not_nil (w w' : FileJournalChunkWrapper) (s s' : State) :
  Dispose w s = Ret (None, w', s') ->
  chunk w' = None /\
  forall t : State,
    GetReader w' t = Ret (inl "already disposed"%string) /\
    TakeOwnership w' t = Ret (false, w', t) /\
    Dispose w' t = Ret (Some "already disposed"%string, w', t) /\
    exists j : JournalChunk,
      GetNextChunk w' t = Ret (j, t) /\ j = wrapper_ptr None /\ is_nil j = false /\
      call GetReader j t = Panic nil_dereference /\
      call GetNextChunk j t = Panic nil_dereference /\
      call TakeOwnership j t = Panic nil_dereference /\
      call Dispose j t = Panic nil_dereference.
Proof.
  intros H.
  assert (Hw : w' = mkWrapper None (ownershipTaken w)).
  { unfold Dispose in H. destruct (chunk w) as [p|]; [|discriminate].
    apply bind_Ret_inv in H as ([[err destroyed] s1] & _ & H).
    destruct err; [discriminate|].
    apply bind_Ret_inv in H as (c & _ & H).
    destruct (destroyed && _ && _); [destruct (head_prev c)|]; congruence. }
  subst w'. split; [reflexivity|]. intros t. split_and!; try reflexivity.
  exists (wrapper_ptr None). split_and!; reflexivity.
Qed.

(** ** Linked chunk lists *)

Lemma dseg_lookup h pp l nn p : dseg h pp l nn -> p ∈ l -> is_Some (h !! p).
Proof.
  revert pp. induction l as [|x l IH]; simpl; intros pp H Hin.
  - by apply elem_of_nil in Hin.
  - destruct H as [Hc H]. apply elem_of_cons in Hin as [->|Hin]; [|eauto].
    unfold links in Hc. destruct (h !! x); [eauto | discriminate].
Qed.

Lemma length_le_size (h : gmap ptr FileJournalChunk) (l : list ptr) :
  NoDup l -> (forall p, p ∈ l -> is_Some (h !! p)) -> (length l <= size h)%nat.
Proof.
  intros Hnd Hin.
  rewrite <- (size_dom (D := gset ptr)).
  rewrite <- (size_list_to_set (C := gset ptr) l Hnd).
  apply subseteq_size. intros p Hp. apply elem_of_list_to_set in Hp.
  apply elem_of_dom. auto.
Qed.

(** ** [validateChunks] *)

Lemma validate_loop_spec h l : forall pp fuel chunkHead,
  dseg h pp l None -> (length l < fuel)%nat ->
  validate_loop fuel h (hd_or l None) chunkHead
  = Ret (verdict (option_list chunkHead ++ filter (is_head h) l)).
Proof.
  induction l as [|p l IH]; intros pp fuel chunkHead Hseg Hfuel.
  - simpl. rewrite app_nil_r. destruct fuel; [simpl in Hfuel; lia|].
    destruct chunkHead; reflexivity.
  - destruct fuel as [|fuel]; [simpl in Hfuel; lia|].
    simpl in Hseg. destruct Hseg as [Hl Hseg]. unfold links in Hl.
    destruct (h !! p) as [c|] eqn:Hc; [|discriminate].
    assert (Hn : head_next c = hd_or l None) by (simpl in Hl; congruence).
    simpl. rewrite Hc, Hn.
    assert (Hiff : is_head h p <-> Type_ c = Head).
    { unfold is_head. rewrite Hc. simpl. split; congruence. }
    rewrite filter_cons.
    destruct (decide (Type_ c = Head)) as [Hty|Hty].
    + rewrite decide_True by tauto.
      destruct chunkHead as [x|]; simpl.
      * reflexivity.
      * rewrite (IH (Some p) fuel (Some p) Hseg) by (simpl in Hfuel; lia).
        reflexivity.
    + rewrite decide_False by tauto.
      apply (IH (Some p)); [done | simpl in Hfuel; lia].
Qed.

Lemma filter_is_head_nil h l :
  filter (is_head h) l = [] <-> forall p, p ∈ l -> ~ is_head h p.
Proof.
  split.
  - intros H p Hp Hh. assert (p ∈ filter (is_head h) l) as Hin by (apply list_elem_of_filter; done).
    rewrite H in Hin. by apply elem_of_nil in Hin.
  - intros H. induction l as [|x l IH]; [done|].
    rewrite filter_cons. destruct (decide (is_head h x)) as [Hx|Hx].
    + exfalso. apply (H x); [left | done].
    + apply IH. intros p Hp. apply H. by right.
Qed.

(** C6 (amended). On the chunk list of a recovered journal [validateChunks]
    always returns; it returns no error exactly when the list is empty or
    its newest chunk is its only head chunk.  A list that is not empty and
    holds sealed chunks only is refused, with the error "chunk head does not
    have the newest timestamp". *)
Theorem validateChunks_spec (h : gmap ptr FileJournalChunk)
    (q : FileJournalChunkDequeue) (l : list ptr) :
  dequeue_of h q l ->
  (exists r, validateChunks h q = Ret r) /\
  (validateChunks h q = Ret None <->
     l = [] \/ exists p rest, l = p :: rest /\ is_head h p /\
                              forall r, r ∈ rest -> ~ is_head h r) /\
  (l <> [] -> (forall p, p ∈ l -> ~ is_head h p) ->
     validateChunks h q
     = Ret (Some "chunk head does not have the newest timestamp"%string)).
Proof.
  intros (Hnd & Hseg & Hfirst & _).
  assert (Hlen : (length l < S (size h))%nat).
  { apply Nat.lt_succ_r, length_le_size; [done|]. intros p. by apply dseg_lookup with (1 := Hseg). }
  assert (Hhd : chunks_first q = hd_or l None) by (rewrite Hfirst; by destruct l).
  unfold validateChunks. rewrite Hhd.
  rewrite (validate_loop_spec h l None _ None Hseg Hlen). simpl.
  destruct l as [|p rest]; simpl.
  { split; [eauto|]. split; [tauto|]. done. }
  rewrite filter_cons.
  destruct (decide (is_head h p)) as [Hp|Hp].
  - destruct (filter (is_head h) rest) as [|x [|y tl]] eqn:E; simpl.
    + rewrite decide_True by done. split; [eauto|]. split.
      * split; [|done]. intros _. right. exists p, rest. split; [done|]. split; [done|].
        by apply filter_is_head_nil.
      * intros _ H. exfalso. apply (H p); [left|done].
    + split; [eauto|]. split.
      * split; [done|]. intros [?|(p' & rest' & Heq & _ & Hno)]; [done|].
        simplify_eq. exfalso. apply (proj2 (filter_is_head_nil h _)) in Hno. congruence.
      * intros _ H. exfalso. apply (H p); [left|done].
    + split; [eauto|]. split.
      * split; [done|]. intros [?|(p' & rest' & Heq & _ & Hno)]; [done|].
        simplify_eq. exfalso. apply (proj2 (filter_is_head_nil h _)) in Hno. congruence.
      * intros _ H. exfalso. apply (H p); [left|done].
  - destruct (filter (is_head h) rest) as [|x [|y tl]] eqn:E; simpl.
    + split; [eauto|]. split; [|done].
      split; [done|]. intros [?|(p' & rest' & Heq & Hh & _)]; [done|].
      by simplify_eq.
    + assert (Hx : x ∈ rest).
      { assert (x ∈ filter (is_head h) rest) as Hin by (rewrite E; left).
        by apply list_elem_of_filter in Hin as [_ ?]. }
      assert (Hx' : is_head h x).
      { assert (x ∈ filter (is_head h) rest) as Hin by (rewrite E; left).
        by apply list_elem_of_filter in Hin as [? _]. }
      assert (x <> p) by (intros ->; by apply NoDup_cons in Hnd as [? _]).
      rewrite decide_False by congruence. split; [eauto|]. split.
      * split; [done|]. intros [?|(p' & rest' & Heq & Hh & _)]; [done|].
        by simplify_eq.
      * intros _ H'. exfalso. apply (H' x); [by right|done].
    + split; [eauto|]. split.
      * split; [done|]. intros [?|(p' & rest' & Heq & Hh & _)]; [done|].
        by simplify_eq.
      * intros _ H'. exfalso.
        assert (x ∈ filter (is_head h) rest) as Hin by (rewrite E; left).
        apply list_elem_of_filter in Hin as [? ?]. apply (H' x); [by right|done].
Qed.

Lemma sealed_only_dequeue : dequeue_of sealed_only_heap sealed_only [0%nat].
Proof.
  split; [apply NoDup_singleton|].
  split; [|done].
  simpl. split; [|done]. done.
Qed.

(** C6, as stated, fails: the list that holds one sealed chunk and no head
    has at most one head chunk, and [validateChunks] refuses it. *)
Lemma validateChunks_sealed_only_fails :
  dequeue_of sealed_only_heap sealed_only [0%nat] /\
  ~ is_head sealed_only_heap 0%nat /\
  validateChunks sealed_only_heap sealed_only
  = Ret (Some "chunk head does not have the newest timestamp"%string) /\
  validateChunks sealed_only_heap sealed_only <> Ret None.
Proof.
  split; [apply sealed_only_dequeue|].
  split; [by vm_compute|].
  split; [by vm_compute|].
  by vm_compute.
Qed.

Lemma validateChunks_spec_witness :
  dequeue_of sealed_only_heap sealed_only [0%nat] /\
  exists r, validateChunks sealed_only_heap sealed_only = Ret r.
Proof.
  split; [apply sealed_only_dequeue|].
  apply (validateChunks_spec sealed_only_heap sealed_only [0%nat] sealed_only_dequeue).
Defined.

(** ** Links, static fields and reference counts under heap updates *)

Lemma links_alter_refcount h f p x :
  links (alter (fun c => with_refcount (f c) c) p h) x = links h x.
Proof.
  unfold links. destruct (decide (p = x)) as [->|Hne].
  - rewrite lookup_alter_eq. by destruct (h !! x).
  - by rewrite lookup_alter_ne.
Qed.

Lemma static_alter_refcount h f p x :
  static (alter (fun c => with_refcount (f c) c) p h) x = static h x.
Proof.
  unfold static. destruct (decide (p = x)) as [->|Hne].
  - rewrite lookup_alter_eq. by destruct (h !! x).
  - by rewrite lookup_alter_ne.
Qed.

Lemma rc_alter_refcount h f p x :
  rc (alter (fun c => with_refcount (f c) c) p h) x
  = if decide (p = x) then f <$> h !! x else rc h x.
Proof.
  unfold rc. destruct (decide (p = x)) as [->|Hne].
  - rewrite lookup_alter_eq. by destruct (h !! x).
  - by rewrite lookup_alter_ne.
Qed.

Lemma links_alter_next h v p x :
  links (alter (with_next v) p h) x
  = if decide (p = x) then (fun '(pv, _) => (pv, v)) <$> links h x else links h x.
Proof.
  unfold links. destruct (decide (p = x)) as [->|Hne].
  - rewrite lookup_alter_eq. by destruct (h !! x).
  - by rewrite lookup_alter_ne.
Qed.

Lemma links_alter_prev h v p x :
  links (alter (with_prev v) p h) x
  = if decide (p = x) then (fun '(_, nx) => (v, nx)) <$> links h x else links h x.
Proof.
  unfold links. destruct (decide (p = x)) as [->|Hne].
  - rewrite lookup_alter_eq. by destruct (h !! x).
  - by rewrite lookup_alter_ne.
Qed.

Lemma static_alter_next h v p x : static (alter (with_next v) p h) x = static h x.
Proof.
  unfold static. destruct (decide (p = x)) as [->|Hne].
  - rewrite lookup_alter_eq. by destruct (h !! x).
  - by rewrite lookup_alter_ne.
Qed.

Lemma static_alter_prev h v p x : static (alter (with_prev v) p h) x = static h x.
Proof.
  unfold static. destruct (decide (p = x)) as [->|Hne].
  - rewrite lookup_alter_eq. by destruct (h !! x).
  - by rewrite lookup_alter_ne.
Qed.

Lemma rc_alter_next h v p x : rc (alter (with_next v) p h) x = rc h x.
Proof.
  unfold rc. destruct (decide (p = x)) as [->|Hne].
  - rewrite lookup_alter_eq. by destruct (h !! x).
  - by rewrite lookup_alter_ne.
Qed.

Lemma rc_alter_prev h v p x : rc (alter (with_prev v) p h) x = rc h x.
Proof.
  unfold rc. destruct (decide (p = x)) as [->|Hne].
  - rewrite lookup_alter_eq. by destruct (h !! x).
  - by rewrite lookup_alter_ne.
Qed.

(** ** Linked segments *)

Lemma dseg_frame h h' l : forall pp nn,
  (forall x, x ∈ l -> links h' x = links h x) ->
  dseg h pp l nn -> dseg h' pp l nn.
Proof.
  induction l as [|p l IH]; intros pp nn Hfr; simpl; [done|].
  intros [Hl Hseg]. split.
  - rewrite Hfr; [done | left].
  - apply IH; [|done]. intros x Hx. apply Hfr. by right.
Qed.

Lemma last_or_app l1 l2 d : last_or (l1 ++ l2) d = last_or l2 (last_or l1 d).
Proof.
  unfold last_or. destruct l2 as [|x l2] using rev_ind.
  - by rewrite app_nil_r.
  - rewrite app_assoc, !last_snoc. done.
Qed.

Lemma hd_or_app l1 l2 d : hd_or (l1 ++ l2) d = hd_or l1 (hd_or l2 d).
Proof. by destruct l1. Qed.

Lemma dseg_app h l1 l2 : forall pp nn,
  dseg h pp (l1 ++ l2) nn <->
  dseg h pp l1 (hd_or l2 nn) /\ dseg h (last_or l1 pp) l2 nn.
Proof.
  induction l1 as [|p l1 IH]; intros pp nn; simpl.
  - unfold last_or. simpl. tauto.
  - rewrite IH. rewrite hd_or_app.
    replace (last_or (p :: l1) pp) with (last_or l1 (Some p)).
    + tauto.
    + unfold last_or. destruct l1 as [|x l1]; [done|].
      change (last (p :: x :: l1)) with (last (x :: l1)).
      destruct (last (x :: l1)) eqn:E; [done|].
      by apply last_None in E.
Qed.

(** Redirecting [head.next] of the last chunk of a segment. *)
Lemma dseg_set_next h l m v : forall pp nn,
  NoDup (l ++ [m]) -> dseg h pp (l ++ [m]) nn ->
  dseg (alter (with_next v) m h) pp (l ++ [m]) v.
Proof.
  induction l as [|p l IH]; intros pp nn Hnd; simpl.
  - intros [Hl _]. split; [|done].
    rewrite links_alter_next, decide_True by done. rewrite Hl. done.
  - intros [Hl Hseg]. apply NoDup_cons in Hnd as [Hp Hnd]. split.
    + rewrite links_alter_next, decide_False.
      * rewrite Hl. f_equal. f_equal. by destruct l.
      * intros ->. apply Hp. apply elem_of_app. right. left.
    + by apply IH with (nn := nn).
Qed.

(** Redirecting [head.prev] of the first chunk of a segment. *)
Lemma dseg_set_prev h l m v pp nn :
  NoDup (m :: l) -> dseg h pp (m :: l) nn ->
  dseg (alter (with_prev v) m h) v (m :: l) nn.
Proof.
  intros Hnd [Hl Hseg]. apply NoDup_cons in Hnd as [Hm Hnd]. split.
  - rewrite links_alter_prev, decide_True by done. rewrite Hl. done.
  - apply dseg_frame with (h := h); [|done].
    intros x Hx. rewrite links_alter_prev, decide_False; [done|].
    by intros ->.
Qed.

Lemma last_or_None_inv l : last_or l None = None -> l = [].
Proof.
  unfold last_or. destruct (last l) eqn:E; [done|]. intros _. by apply last_None.
Qed.

Lemma last_or_snoc l m d : last_or (l ++ [m]) d = Some m.
Proof. unfold last_or. by rewrite last_snoc. Qed.

Lemma head_app_cons (l1 l2 : list ptr) : head (l1 ++ l2) = hd_or l1 (head l2).
Proof. by destruct l1. Qed.

Lemma last_app_or (l1 l2 : list ptr) : last (l1 ++ l2) = last_or l2 (last l1).
Proof.
  unfold last_or. destruct l2 as [|x l2 _] using rev_ind.
  - by rewrite app_nil_r.
  - by rewrite app_assoc, !last_snoc.
Qed.

(** ** Taking a chunk out of the dequeue *)

Lemma unlink_spec (s : State) (l1 l2 : list ptr) (n : ptr) :
  dequeue_of (heap s) (chunks s) (l1 ++ n :: l2) ->
  exists s', unlink n s = Ret s' /\
    dequeue_of (heap s') (chunks s') (l1 ++ l2) /\
    (forall x, static (heap s') x = static (heap s) x) /\
    (forall x, rc (heap s') x = rc (heap s) x) /\
    links (heap s') n = links (heap s) n /\
    disk s' = disk s /\ writer s' = writer s /\ position s' = position s.
Proof.
  intros (Hnd & Hseg & Hfirst & Hlast).
  apply dseg_app in Hseg as [Hseg1 [Hn Hseg2]]. simpl in Hseg1.
  assert (Hnd1 : NoDup l1) by (by apply NoDup_app in Hnd as (? & _ & _)).
  assert (Hnd2 : NoDup l2).
  { apply NoDup_app in Hnd as (_ & _ & Hnd). by apply NoDup_cons in Hnd as [_ ?]. }
  assert (Hn1 : n ∉ l1).
  { intros Hin. apply NoDup_app in Hnd as (_ & Hd & _). apply (Hd n Hin). left. }
  assert (Hn2 : n ∉ l2).
  { apply NoDup_app in Hnd as (_ & _ & Hnd). by apply NoDup_cons in Hnd as [? _]. }
  assert (Hdisj : forall x, x ∈ l1 -> x ∉ l2).
  { intros x Hx Hx'. apply NoDup_app in Hnd as (_ & Hd & _). apply (Hd x Hx). by right. }
  unfold unlink, deref. unfold links in Hn.
  destruct (heap s !! n) as [c|] eqn:Hc; [|discriminate]. simpl in Hn.
  assert (Hpv : head_prev c = last_or l1 None) by congruence.
  assert (Hnx : head_next c = hd_or l2 None) by congruence.
  simpl. rewrite Hpv, Hnx. eexists. split; [reflexivity|].
  destruct l1 as [|m l0 _] using rev_ind; destruct l2 as [|y l2].
  - (* the only chunk *)
    simpl. repeat split; done.
  - (* the newest chunk *)
    simpl. unfold last_or; simpl. split.
    + split; [done|]. split.
      * apply dseg_set_prev with (pp := Some n); done.
      * simpl. split; [done|]. rewrite Hlast. simpl. done.
    + repeat split; try done.
      * intros x. apply static_alter_prev.
      * intros x. apply rc_alter_prev.
      * rewrite links_alter_prev, decide_False; [done|]. intros ->. apply Hn2. left.
  - (* the oldest chunk *)
    rewrite last_or_snoc. simpl. rewrite !app_nil_r. split.
    + split; [done|]. split.
      * apply dseg_set_next with (nn := Some n); done.
      * simpl. split.
        -- rewrite Hfirst. rewrite !head_app_cons. by destruct l0.
        -- by rewrite last_snoc.
    + repeat split; try done.
      * intros x. apply static_alter_next.
      * intros x. apply rc_alter_next.
      * rewrite links_alter_next, decide_False; [done|]. intros ->. apply Hn1.
        apply elem_of_app. right. left.
  - (* a chunk in the middle *)
    rewrite last_or_snoc. simpl.
    assert (Hmy : m <> y).
    { intros ->. apply (Hdisj y); [apply elem_of_app; right; left | left]. }
    split.
    + split.
      { apply NoDup_app. split; [done|]. split; [|done].
        intros x Hx Hx'. apply (Hdisj x Hx). done. }
      split.
      * apply dseg_app. simpl. rewrite last_or_snoc. split.
        -- apply dseg_frame with (h := alter (with_next (Some y)) m (heap s)).
           ++ intros x Hx. rewrite links_alter_prev, decide_False; [done|].
              intros Heq. apply (Hdisj x Hx). rewrite <- Heq. left.
           ++ apply dseg_set_next with (nn := Some n); done.
        -- apply dseg_set_prev with (pp := Some n); [done|].
           apply dseg_frame with (h := heap s); [|done].
           intros x Hx. rewrite links_alter_next, decide_False; [done|].
           intros Heq. apply (Hdisj x); [rewrite <- Heq; apply elem_of_app; right; left | done].
      * simpl. split.
        -- rewrite Hfirst. rewrite !head_app_cons. by destruct l0.
        -- rewrite Hlast. rewrite !last_app_or. unfold last_or. simpl.
           change (last (n :: y :: l2)) with (last (y :: l2)). done.
    + repeat split; try done.
      * intros x. by rewrite static_alter_prev, static_alter_next.
      * intros x. by rewrite rc_alter_prev, rc_alter_next.
      * rewrite links_alter_prev, decide_False.
        -- rewrite links_alter_next, decide_False; [done|]. intros ->. apply Hn1.
           apply elem_of_app. right. left.
        -- intros ->. apply Hn2. left.
Qed.

(** ** Survivors of a cascade *)

Lemma survivors_snoc h l m :
  survivors h (l ++ [m])
  = if decide (rc h m = Some 1) then survivors h l else l ++ [m].
Proof.
  induction l as [|p l IH]; simpl.
  - by destruct (decide (rc h m = Some 1)).
  - rewrite IH. destruct (decide (rc h m = Some 1)); [done|].
    by destruct l.
Qed.

Lemma survivors_ext h h' l :
  (forall x, x ∈ l -> rc h' x = rc h x) -> survivors h' l = survivors h l.
Proof.
  induction l as [|p l IH]; intros H; simpl; [done|].
  rewrite IH by (intros x Hx; apply H; by right).
  rewrite (H p) by left. done.
Qed.


(** ** The cascade of [deleteRef] *)

Lemma rc_Some h p r : rc h p = Some r -> exists c, h !! p = Some c /\ refcount c = r.
Proof. unfold rc. destruct (h !! p) as [c|]; [|done]. simpl. intros [= <-]. eauto. Qed.

Lemma path_of_static h h' p : static h' p = static h p -> path_of h' p = path_of h p.
Proof.
  unfold static, path_of. destruct (h' !! p), (h !! p); simpl; congruence.
Qed.

Lemma heap_add_refcount p d s :
  heap (add_refcount p d s)
  = alter (fun c => with_refcount (int32 (refcount c + d)) c) p (heap s).
Proof. reflexivity. Qed.

Lemma dequeue_of_frame h h' q l :
  (forall x, links h' x = links h x) -> dequeue_of h q l -> dequeue_of h' q l.
Proof.
  intros Hfr (Hnd & Hseg & Hq). split; [done|]. split; [|done].
  apply dseg_frame with (h := h); [|done]. intros x _. apply Hfr.
Qed.

Lemma dequeue_of_links h q l1 n l2 :
  dequeue_of h q (l1 ++ n :: l2) -> links h n = Some (last l1, hd_or l2 None).
Proof.
  intros (_ & Hseg & _). apply dseg_app in Hseg as [_ [Hn _]].
  rewrite Hn. f_equal. f_equal. unfold last_or. by destruct (last l1).
Qed.

(** Decrementing a chunk that is referenced more than once. *)
Lemma deleteRef_held fuel p s r :
  rc (heap s) p = Some r -> 2 <= r < 2 ^ 31 ->
  deleteRef (S fuel) p s = Ret (None, false, add_refcount p (-1) s).
Proof.
  intros Hr Hrange. apply rc_Some in Hr as (c & Hc & <-).
  simpl. unfold deref. rewrite Hc. simpl.
  rewrite int32_id by lia.
  destruct (refcount c - 1 =? 0) eqn:E1; [lia|].
  destruct (refcount c - 1 <? 0) eqn:E2; [lia|]. done.
Qed.

(** What is left to do once the decrement that gave zero has been passed on
    to the newer neighbour without error. *)
Lemma deleteRef_finish (s : State) (l1 l2 : list ptr) (n : ptr) (pth : string) :
  dequeue_of (heap s) (chunks s) (l1 ++ n :: l2) ->
  path_of (heap s) n = Some pth -> is_Some (disk s !! pth) ->
  exists s',
    (c2 ← deref s n;
     match os_Remove (Path c2) (disk s) with
     | (Some e, _) => Ret (Some e, false, add_refcount n 1 s)
     | (None, d) => s3 ← unlink n (set_disk d s); Ret (None, true, s3)
     end) = Ret (None, true, s') /\
    dequeue_of (heap s') (chunks s') (l1 ++ l2) /\
    (forall x, static (heap s') x = static (heap s) x) /\
    (forall x, rc (heap s') x = rc (heap s) x) /\
    links (heap s') n = Some (last l1, hd_or l2 None) /\
    disk s' = delete pth (disk s) /\ writer s' = writer s /\ position s' = position s.
Proof.
  intros Hdq Hpth [data Hdata].
  unfold path_of in Hpth. unfold deref.
  destruct (heap s !! n) as [c|] eqn:Hc; [|done]. simpl in Hpth.
  injection Hpth as Hpth. simpl. unfold os_Remove. rewrite Hpth, Hdata.
  destruct (unlink_spec (set_disk (delete pth (disk s)) s) l1 l2 n Hdq)
    as (s' & Hun & Hdq' & Hst & Hrc & Hlk & Hdisk & Hw & Hpos).
  exists s'. rewrite Hun. simpl. split; [done|].
  split; [exact Hdq'|]. split; [exact Hst|]. split; [exact Hrc|].
  split; [|done].
  rewrite Hlk. simpl. by apply dequeue_of_links with (q := chunks s).
Qed.

Lemma survivors_app h l : l = survivors h l ++ reclaimed h l.
Proof.
  unfold reclaimed.
  induction l as [|m l IH] using rev_ind; [done|].
  rewrite survivors_snoc. destruct (decide (rc h m = Some 1)).
  - rewrite drop_app_le.
    + rewrite app_assoc. by rewrite <- IH.
    + rewrite IH at 2. rewrite length_app. lia.
  - by rewrite drop_all, app_nil_r.
Qed.

Lemma reclaimed_snoc h l m :
  reclaimed h (l ++ [m])
  = if decide (rc h m = Some 1) then reclaimed h l ++ [m] else [].
Proof.
  unfold reclaimed. rewrite survivors_snoc.
  destruct (decide (rc h m = Some 1)).
  - rewrite drop_app_le; [done|].
    rewrite (survivors_app h l) at 2. rewrite length_app. lia.
  - by rewrite drop_all.
Qed.

Lemma reclaimed_once h l x : x ∈ reclaimed h l -> rc h x = Some 1.
Proof.
  induction l as [|m l IH] using rev_ind.
  - unfold reclaimed. simpl. intros H. by apply elem_of_nil in H.
  - rewrite reclaimed_snoc. destruct (decide (rc h m = Some 1)) as [Hm|Hm].
    + intros [H| ->%list_elem_of_singleton]%elem_of_app; auto.
    + intros H. by apply elem_of_nil in H.
Qed.

Lemma survivors_last h l k : last (survivors h l) = Some k -> rc h k <> Some 1.
Proof.
  induction l as [|m l IH] using rev_ind; [done|].
  rewrite survivors_snoc. destruct (decide (rc h m = Some 1)) as [Hm|Hm]; [done|].
  rewrite last_snoc. by intros [= <-].
Qed.

Lemma survivors_subset h l x : x ∈ survivors h l -> x ∈ l.
Proof.
  intros H. rewrite (survivors_app h l). apply elem_of_app. by left.
Qed.

Lemma reclaimed_subset h l x : x ∈ reclaimed h l -> x ∈ l.
Proof.
  intros H. rewrite (survivors_app h l). apply elem_of_app. by right.
Qed.

Lemma remove_files_snoc h l x d :
  remove_files h (l ++ [x]) d
  = match path_of h x with
    | Some p => delete p (remove_files h l d)
    | None => remove_files h l d
    end.
Proof. unfold remove_files. by rewrite foldl_app. Qed.

Lemma remove_files_ext h h' l d :
  (forall x, x ∈ l -> path_of h' x = path_of h x) ->
  remove_files h' l d = remove_files h l d.
Proof.
  induction l as [|m l IH] using rev_ind; intros H; [done|].
  rewrite !remove_files_snoc. rewrite H by (apply elem_of_app; right; left).
  rewrite IH; [done|]. intros x Hx. apply H. apply elem_of_app. by left.
Qed.

Lemma lookup_remove_files_None h l d x pth :
  x ∈ l -> path_of h x = Some pth -> remove_files h l d !! pth = None.
Proof.
  induction l as [|m l IH] using rev_ind; intros Hx Hp.
  - by apply elem_of_nil in Hx.
  - rewrite remove_files_snoc.
    apply elem_of_app in Hx as [Hx| ->%list_elem_of_singleton].
    + destruct (path_of h m) as [p|]; [|by apply IH].
      destruct (decide (p = pth)) as [->|Hne].
      * apply lookup_delete_eq.
      * rewrite lookup_delete_ne by done. by apply IH.
    + rewrite Hp. apply lookup_delete_eq.
Qed.

Lemma lookup_remove_files_other h l d pth :
  (forall x, x ∈ l -> path_of h x <> Some pth) ->
  remove_files h l d !! pth = d !! pth.
Proof.
  induction l as [|m l IH] using rev_ind; intros H; [done|].
  rewrite remove_files_snoc.
  assert (Hm : path_of h m <> Some pth) by (apply H, elem_of_app; right; left).
  assert (IH' : remove_files h l d !! pth = d !! pth).
  { apply IH. intros x Hx. apply H, elem_of_app. by left. }
  destruct (path_of h m) as [p|]; [|done].
  rewrite lookup_delete_ne by congruence. done.
Qed.

Lemma deleteRef_zero fuel p s c :
  heap s !! p = Some c -> refcount c = 1 ->
  deleteRef (S fuel) p s =
    '(err, s2) ← match head_prev c with
                  | Some prevChunk =>
                      '(err, _, s2) ← deleteRef fuel prevChunk (add_refcount p (-1) s);
                      Ret (err, s2)
                  | None => Ret (None, add_refcount p (-1) s)
                  end;
    match err with
    | Some e => Ret (Some e, false, add_refcount p 1 s2)
    | None =>
      c2 ← deref s2 p;
      match os_Remove (Path c2) (disk s2) with
      | (Some e, _) => Ret (Some e, false, add_refcount p 1 s2)
      | (None, d) => s3 ← unlink p (set_disk d s2); Ret (None, true, s3)
      end
    end.
Proof.
  intros Hc Hr. simpl. unfold deref. rewrite Hc. simpl. rewrite Hr. reflexivity.
Qed.

(** The cascade: when the last reference to [n] goes, the chunks newer than
    [n] are visited for as long as they are referenced once; they are
    removed, newest first, and [n] after them. *)
Lemma deleteRef_cascade (l1 : list ptr) : forall (fuel : nat) (s : State) (n : ptr)
    (l2 : list ptr),
  dequeue_of (heap s) (chunks s) (l1 ++ n :: l2) ->
  rc (heap s) n = Some 1 ->
  (forall x, x ∈ l1 -> exists r, rc (heap s) x = Some r /\ 1 <= r < 2 ^ 31) ->
  (forall x, x ∈ l1 ++ [n] ->
     exists pth, path_of (heap s) x = Some pth /\ is_Some (disk s !! pth)) ->
  (forall x y, x ∈ l1 ++ [n] -> y ∈ l1 ++ [n] ->
     path_of (heap s) x = path_of (heap s) y -> x = y) ->
  (length l1 < fuel)%nat ->
  exists s', deleteRef fuel n s = Ret (None, true, s') /\
    dequeue_of (heap s') (chunks s') (survivors (heap s) l1 ++ l2) /\
    (forall x, static (heap s') x = static (heap s) x) /\
    (forall x, x ∉ reclaimed (heap s) l1 ++ [n] ->
       rc (heap s') x = if decide (last (survivors (heap s) l1) = Some x)
                        then (fun r => r - 1) <$> rc (heap s) x
                        else rc (heap s) x) /\
    links (heap s') n = Some (last (survivors (heap s) l1), hd_or l2 None) /\
    disk s' = remove_files (heap s) (reclaimed (heap s) l1 ++ [n]) (disk s) /\
    writer s' = writer s /\ position s' = position s.
Proof.
  induction l1 as [|m l0 IH] using rev_ind;
    intros fuel s n l2 Hdq Hn Hrange Hfiles Hinj Hfuel.
  - (* no newer chunk *)
    destruct fuel as [|fuel]; [simpl in Hfuel; lia|].
    destruct (rc_Some _ _ _ Hn) as (c & Hc & Hr).
    rewrite (deleteRef_zero fuel n s c Hc Hr).
    assert (Hpv : head_prev c = None).
    { apply dequeue_of_links in Hdq. unfold links in Hdq. rewrite Hc in Hdq.
      simpl in Hdq. congruence. }
    rewrite Hpv. simpl.
    destruct (Hfiles n) as (pth & Hpth & Hfile); [left|].
    set (s1 := add_refcount n (-1) s).
    assert (Hdq1 : dequeue_of (heap s1) (chunks s1) ([] ++ n :: l2)).
    { apply dequeue_of_frame with (h := heap s); [|done].
      intros x. apply links_alter_refcount. }
    assert (Hpth1 : path_of (heap s1) n = Some pth).
    { rewrite <- Hpth. apply path_of_static, static_alter_refcount. }
    destruct (deleteRef_finish s1 [] l2 n pth Hdq1 Hpth1 Hfile)
      as (s' & Hrun & Hdq' & Hst & Hrc & Hlk & Hdisk & Hw & Hpos).
    exists s'. split; [exact Hrun|]. simpl.
    split; [exact Hdq'|].
    split. { intros x. rewrite Hst. apply static_alter_refcount. }
    split.
    { intros x Hx. rewrite Hrc. unfold s1. rewrite heap_add_refcount, rc_alter_refcount.
      rewrite decide_False; [done|]. intros ->. apply Hx. left. }
    split; [exact Hlk|].
    split; [|done].
    rewrite Hdisk. unfold remove_files. simpl. by rewrite Hpth.
  - (* a newer chunk [m] *)
    destruct fuel as [|fuel]; [simpl in Hfuel; lia|].
    rewrite length_app in Hfuel. simpl in Hfuel.
    destruct (rc_Some _ _ _ Hn) as (c & Hc & Hr).
    rewrite (deleteRef_zero fuel n s c Hc Hr).
    assert (Hpv : head_prev c = Some m).
    { apply dequeue_of_links in Hdq. unfold links in Hdq. rewrite Hc in Hdq.
      simpl in Hdq. rewrite last_snoc in Hdq. congruence. }
    rewrite Hpv.
    assert (Hnd : NoDup ((l0 ++ [m]) ++ n :: l2)) by apply Hdq.
    assert (Hmn : m <> n).
    { intros ->. apply NoDup_app in Hnd as (_ & Hd & _).
      apply (Hd n); [apply elem_of_app; right; left | left]. }
    assert (Hn0 : n ∉ l0).
    { intros Hin. apply NoDup_app in Hnd as (_ & Hd & _).
      apply (Hd n); [apply elem_of_app; by left | left]. }
    set (s1 := add_refcount n (-1) s).
    assert (Hrc1 : forall x, x <> n -> rc (heap s1) x = rc (heap s) x).
    { intros x Hx. unfold s1. rewrite heap_add_refcount, rc_alter_refcount.
      by rewrite decide_False. }
    assert (Hst1 : forall x, static (heap s1) x = static (heap s) x).
    { intros x. apply static_alter_refcount. }
    assert (Hdq1 : dequeue_of (heap s1) (chunks s1) ((l0 ++ [m]) ++ n :: l2)).
    { apply dequeue_of_frame with (h := heap s); [|done].
      intros x. apply links_alter_refcount. }
    destruct (Hrange m) as (r & Hm & Hr1); [apply elem_of_app; right; left|].
    destruct (Hfiles n) as (pth & Hpth & Hfile); [apply elem_of_app; right; left|].
    destruct (decide (r = 1)) as [->|Hheld].
    + (* [m] is referenced once: the cascade goes on *)
      rewrite <- app_assoc in Hdq1. simpl in Hdq1.
      destruct (IH fuel s1 m (n :: l2)) as
        (s2 & Hrun & Hdq2 & Hst2 & Hrc2 & Hlk2 & Hdisk2 & Hw2 & Hpos2).
      * exact Hdq1.
      * rewrite Hrc1; done.
      * intros x Hx. rewrite Hrc1.
        -- apply Hrange. apply elem_of_app. by left.
        -- by intros ->.
      * intros x Hx. destruct (Hfiles x) as (p & Hp & Hf).
        { apply elem_of_app. by left. }
        exists p. split; [|done]. rewrite <- Hp. apply path_of_static, Hst1.
      * intros x y Hx Hy Hxy. apply Hinj.
        -- apply elem_of_app. by left.
        -- apply elem_of_app. by left.
        -- rewrite <- (path_of_static _ _ x (Hst1 x)).
           by rewrite <- (path_of_static _ _ y (Hst1 y)).
      * lia.
      * rewrite Hrun. simpl.
        assert (Hsurv : survivors (heap s1) l0 = survivors (heap s) (l0 ++ [m])).
        { rewrite survivors_snoc, decide_True by done.
          apply survivors_ext. intros x Hx. apply Hrc1. by intros ->. }
        assert (Hrecl : reclaimed (heap s1) l0 ++ [m] = reclaimed (heap s) (l0 ++ [m])).
        { rewrite reclaimed_snoc, decide_True by done. f_equal.
          unfold reclaimed. f_equal. f_equal.
          apply survivors_ext. intros x Hx. apply Hrc1. by intros ->. }
        rewrite Hsurv in *. rewrite Hrecl in *.
        assert (Hpth2 : path_of (heap s2) n = Some pth).
        { rewrite <- Hpth. apply path_of_static. by rewrite Hst2, Hst1. }
        assert (Hfile2 : is_Some (disk s2 !! pth)).
        { rewrite Hdisk2, lookup_remove_files_other; [done|].
          intros x Hx Hpx. assert (x = n); [|subst x].
          - apply Hinj; [apply elem_of_app; left; by apply reclaimed_subset in Hx
                        | apply elem_of_app; right; left |].
            rewrite Hpth, <- Hpx. symmetry. apply path_of_static, Hst1.
          - apply reclaimed_subset in Hx.
            apply elem_of_app in Hx as [Hx|Hx%list_elem_of_singleton]; [|done].
            by apply Hn0. }
        destruct (deleteRef_finish s2 _ l2 n pth Hdq2 Hpth2 Hfile2)
          as (s' & Hrun' & Hdq' & Hst' & Hrc' & Hlk' & Hdisk' & Hw' & Hpos').
        exists s'. split; [exact Hrun'|].
        split; [exact Hdq'|].
        split. { intros x. by rewrite Hst', Hst2, Hst1. }
        split.
        { intros x Hx. rewrite Hrc'. rewrite Hrc2.
          - rewrite Hrc1; [done|]. intros ->. apply Hx. apply elem_of_app. right. left.
          - intros Hx'. apply Hx. apply elem_of_app. by left. }
        split; [exact Hlk'|].
        split; [|by rewrite Hw', Hw2, Hpos', Hpos2].
        rewrite Hdisk', Hdisk2. rewrite remove_files_snoc, Hpth.
        f_equal. apply remove_files_ext. intros x _. apply path_of_static, Hst1.
    + (* [m] is referenced more often: the cascade stops *)
      destruct fuel as [|fuel]; [lia|].
      assert (Hm1' : rc (heap s1) m = Some r) by (rewrite Hrc1; done).
      rewrite (deleteRef_held fuel m s1 r Hm1') by lia.
      simpl.
      set (s2 := add_refcount m (-1) s1).
      assert (Hst2 : forall x, static (heap s2) x = static (heap s) x).
      { intros x. unfold s2. rewrite heap_add_refcount, static_alter_refcount. apply Hst1. }
      assert (Hdq2 : dequeue_of (heap s2) (chunks s2) ((l0 ++ [m]) ++ n :: l2)).
      { apply dequeue_of_frame with (h := heap s1); [|done].
        intros x. apply links_alter_refcount. }
      assert (Hpth2 : path_of (heap s2) n = Some pth).
      { rewrite <- Hpth. apply path_of_static, Hst2. }
      destruct (deleteRef_finish s2 _ l2 n pth Hdq2 Hpth2 Hfile)
        as (s' & Hrun' & Hdq' & Hst' & Hrc' & Hlk' & Hdisk' & Hw' & Hpos').
      exists s'. split; [exact Hrun'|].
      assert (Hm1 : rc (heap s) m <> Some 1) by (rewrite Hm; congruence).
      rewrite survivors_snoc, reclaimed_snoc, !decide_False by done.
      split; [exact Hdq'|].
      split. { intros x. by rewrite Hst', Hst2. }
      split.
      { intros x Hx. rewrite Hrc'. unfold s2. rewrite heap_add_refcount, rc_alter_refcount.
        rewrite last_snoc. destruct (decide (m = x)) as [->|Hne].
        - rewrite decide_True by done.
          destruct (rc_Some _ _ _ Hm1') as (c1 & Hc1 & Hr1').
          rewrite Hc1, Hm. simpl. f_equal. rewrite Hr1'. rewrite int32_id; lia.
        - rewrite decide_False by congruence. apply Hrc1. intros ->. apply Hx. left. }
      split; [exact Hlk'|].
      split; [|done].
      rewrite Hdisk'. unfold remove_files. simpl. by rewrite Hpth.
Qed.

(** ** Journals in order *)

Lemma ok_rc s l x : journal_ok s l -> x ∈ l ->
  exists r, rc (heap s) x = Some r /\ 1 <= r < 2 ^ 31.
Proof.
  intros Hok Hx. destruct (ok_dequeue _ _ Hok) as (_ & Hseg & _).
  destruct (dseg_lookup _ _ _ _ _ Hseg Hx) as [c Hc].
  exists (refcount c). unfold rc. rewrite Hc. split; [done|].
  by apply (ok_refcount _ _ Hok x c).
Qed.

Lemma ok_path s l x : journal_ok s l -> x ∈ l ->
  exists pth, path_of (heap s) x = Some pth /\ is_Some (disk s !! pth).
Proof.
  intros Hok Hx. destruct (ok_dequeue _ _ Hok) as (_ & Hseg & _).
  destruct (dseg_lookup _ _ _ _ _ Hseg Hx) as [c Hc].
  exists (Path c). unfold path_of. rewrite Hc. split; [done|].
  by apply (ok_file _ _ Hok x c).
Qed.

Lemma ok_inj s l x y : journal_ok s l -> x ∈ l -> y ∈ l ->
  path_of (heap s) x = path_of (heap s) y -> x = y.
Proof.
  intros Hok Hx Hy. destruct (ok_dequeue _ _ Hok) as (_ & Hseg & _).
  destruct (dseg_lookup _ _ _ _ _ Hseg Hx) as [c Hc].
  destruct (dseg_lookup _ _ _ _ _ Hseg Hy) as [c' Hc'].
  unfold path_of. rewrite Hc, Hc'. simpl. intros [= Heq].
  by apply (ok_paths _ _ Hok x y c c').
Qed.

Lemma ok_depth s l : journal_ok s l -> (length l < depth s)%nat.
Proof.
  intros Hok. destruct (ok_dequeue _ _ Hok) as (Hnd & Hseg & _).
  unfold depth. apply Nat.lt_succ_r, length_le_size; [done|].
  intros p. by apply dseg_lookup with (1 := Hseg).
Qed.

Lemma chunk_eta c :
  mkChunk (head_next c) (head_prev c) (Path c) (Type_ c) (TSuffix c) (Timestamp c)
          (UniqueId c) (refcount c) = c.
Proof. by destruct c. Qed.

Lemma add_refcount_cancel p r d s :
  rc (heap s) p = Some r -> - 2 ^ 31 <= r < 2 ^ 31 ->
  add_refcount p d (add_refcount p (- d) s) = s.
Proof.
  intros Hr Hrange. destruct (rc_Some _ _ _ Hr) as (c & Hc & Hrc).
  unfold add_refcount, set_heap. simpl. destruct s as [h dk q w pos]. simpl in *.
  f_equal. rewrite alter_alter_eq. apply alter_id. intros c' Hc'.
  assert (c' = c) by congruence. subst c'.
  unfold compose, with_refcount. simpl.
  replace (refcount c + - d) with (refcount c - d) by lia.
  rewrite int32_add_sub. rewrite int32_id by lia. apply chunk_eta.
Qed.

(** [Purge] on a journal whose oldest chunk is referenced more than once
    changes nothing. *)
Lemma Purge_held s k r :
  chunks_last (chunks s) = Some k -> rc (heap s) k = Some r -> 2 <= r < 2 ^ 31 ->
  Purge s = Ret (None, s).
Proof.
  intros Hlast Hr Hrange. unfold Purge. rewrite Hlast.
  unfold depth. rewrite (deleteRef_held _ k s r Hr Hrange). simpl.
  rewrite Hlast. unfold deref. simpl.
  destruct (rc_Some _ _ _ Hr) as (c & Hc & _).
  rewrite lookup_alter_eq, Hc. simpl.
  f_equal. f_equal.
  change (-1) with (- (1)). apply (add_refcount_cancel k r 1 s Hr). lia.
Qed.

Lemma NoDup_survivors_reclaimed h (l1 : list ptr) n x :
  NoDup (l1 ++ [n]) -> x ∈ survivors h l1 -> x ∉ reclaimed h l1 ++ [n].
Proof.
  intros Hnd Hx. rewrite (survivors_app h l1) in Hnd.
  rewrite <- app_assoc in Hnd. apply NoDup_app in Hnd as (_ & Hd & _).
  by apply Hd.
Qed.

(** The cascade started at the oldest chunk of a journal in order, followed
    by the step that references the new oldest chunk again. *)
Lemma cascade_anchor (fuel : nat) (s : State) (l1 : list ptr) (n : ptr) :
  journal_ok s (l1 ++ [n]) -> rc (heap s) n = Some 1 -> (length l1 < fuel)%nat ->
  let K := survivors (heap s) l1 in
  exists s' pn, deleteRef fuel n s = Ret (None, true, s') /\
    path_of (heap s) n = Some pn /\
    chunks_last (chunks s') = last K /\
    links (heap s') n = Some (last K, None) /\
    journal_ok (anchor K s') K /\
    (forall x, x ∈ K -> rc (heap (anchor K s')) x = rc (heap s) x) /\
    (forall x, static (heap (anchor K s')) x = static (heap s) x) /\
    disk (anchor K s') = remove_files (heap s) (reclaimed (heap s) l1 ++ [n]) (disk s) /\
    writer (anchor K s') = writer s /\ position (anchor K s') = position s.
Proof.
  intros Hok Hn Hfuel K.
  assert (Hnd : NoDup (l1 ++ [n])) by apply Hok.
  destruct (deleteRef_cascade l1 fuel s n []) as
    (s' & Hrun & Hdq & Hst & Hrc & Hlk & Hdisk & Hw & Hpos).
  { apply Hok. }
  { done. }
  { intros x Hx. apply (ok_rc s _ x Hok). apply elem_of_app. by left. }
  { intros x Hx. by apply (ok_path s _ x Hok). }
  { intros x y Hx Hy. by apply (ok_inj s _ x y Hok). }
  { done. }
  fold K in Hdq, Hrc, Hlk. rewrite app_nil_r in Hdq.
  destruct (ok_path s _ n Hok) as (pn & Hpn & _); [apply elem_of_app; right; left|].
  exists s', pn. split; [done|]. split; [done|].
  split; [apply Hdq|]. split; [done|].
  assert (Hst3 : forall x, static (heap (anchor K s')) x = static (heap s) x).
  { intros x. unfold anchor. destruct (last K); [|done].
    rewrite heap_add_refcount, static_alter_refcount. done. }
  assert (Hrc3 : forall x, x ∈ K -> rc (heap (anchor K s')) x = rc (heap s) x).
  { intros x Hx.
    assert (Hx' : x ∉ reclaimed (heap s) l1 ++ [n]) by (by apply NoDup_survivors_reclaimed).
    specialize (Hrc x Hx'). unfold anchor.
    destruct (last K) as [k|] eqn:Hk.
    - rewrite heap_add_refcount, rc_alter_refcount.
      destruct (decide (k = x)) as [->|Hne].
      + rewrite decide_True in Hrc by done.
        destruct (ok_rc s _ x Hok) as (r & Hr & Hrange).
        { apply elem_of_app. left. by apply survivors_subset in Hx. }
        rewrite Hr in Hrc. simpl in Hrc. destruct (rc_Some _ _ _ Hrc) as (c & Hc & Hrc').
        rewrite Hc, Hr. simpl. f_equal. rewrite Hrc'. rewrite int32_id; lia.
      + rewrite decide_False in Hrc by congruence. done.
    - rewrite decide_False in Hrc by done. done. }
  assert (Hdisk3 : disk (anchor K s') = disk s').
  { unfold anchor. by destruct (last K). }
  split.
  { split.
    - apply dequeue_of_frame with (h := heap s').
      + intros x. unfold anchor. destruct (last K); [|done].
        rewrite heap_add_refcount. apply links_alter_refcount.
      + unfold anchor. by destruct (last K).
    - intros p c Hp Hc.
      destruct (ok_rc s _ p Hok) as (r & Hr & Hrange).
      { apply elem_of_app. left. by apply survivors_subset in Hp. }
      specialize (Hrc3 p Hp). rewrite Hr in Hrc3. unfold rc in Hrc3.
      rewrite Hc in Hrc3. simpl in Hrc3. congruence.
    - intros p c Hp Hc.
      destruct (ok_path s _ p Hok) as (pth & Hpth & Hfile).
      { apply elem_of_app. left. by apply survivors_subset in Hp. }
      assert (Path c = pth).
      { rewrite <- (path_of_static _ _ p (Hst3 p)) in Hpth. unfold path_of in Hpth.
        rewrite Hc in Hpth. simpl in Hpth. congruence. }
      subst pth. rewrite Hdisk3, Hdisk.
      rewrite lookup_remove_files_other; [done|].
      intros x Hx Hpx. assert (x = p); [|subst x].
      + apply (ok_inj s _ x p Hok).
        * apply elem_of_app in Hx as [Hx|Hx]; [|by apply elem_of_app; right].
          apply elem_of_app. left. by apply reclaimed_subset in Hx.
        * apply elem_of_app. left. by apply survivors_subset in Hp.
        * congruence.
      + by apply (NoDup_survivors_reclaimed (heap s) l1 n p).
    - intros p p' c c' Hp Hp' Hc Hc' Heq.
      apply (ok_inj s _ p p' Hok).
      + apply elem_of_app. left. by apply survivors_subset in Hp.
      + apply elem_of_app. left. by apply survivors_subset in Hp'.
      + rewrite <- (path_of_static _ _ p (Hst3 p)).
        rewrite <- (path_of_static _ _ p' (Hst3 p')).
        unfold path_of. rewrite Hc, Hc'. simpl. by rewrite Heq. }
  split; [done|]. split; [done|].
  split; [by rewrite Hdisk3|].
  unfold anchor. by destruct (last K).
Qed.

(** ** [Purge] twice *)

(** X22.  [Purge] twice on a journal in order.  On a journal in order (its
    chunks are linked, each is referenced at least once and has a file of
    its own), [Purge] returns no error, and a second [Purge] right after it
    leaves the whole state, with the chunk list, every reference count and
    every file, as the first one left it. *)
Theorem Purge_idempotent (s : State) (l : list ptr) :
  journal_ok s l ->
  exists s1, Purge s = Ret (None, s1) /\ Purge s1 = Ret (None, s1).
Proof.
  intros Hok.
  destruct l as [|n l1 _] using rev_ind.
  - (* an empty journal *)
    assert (Hlast : chunks_last (chunks s) = None) by apply Hok.
    exists s. unfold Purge. rewrite Hlast. simpl. by rewrite Hlast.
  - assert (Hlast : chunks_last (chunks s) = Some n).
    { destruct (ok_dequeue _ _ Hok) as (_ & _ & _ & ->). apply last_snoc. }
    destruct (ok_rc s _ n Hok) as (r & Hr & Hrange); [apply elem_of_app; right; left|].
    destruct (decide (r = 1)) as [->|Hne].
    + (* the oldest chunk goes, and the cascade runs *)
      assert (Hfuel : (length l1 < depth s)%nat).
      { pose proof (ok_depth s _ Hok) as H. rewrite length_app in H. simpl in H. lia. }
      destruct (cascade_anchor (depth s) s l1 n Hok Hr Hfuel) as
        (s' & pn & Hrun & _ & Hlast' & Hlk & Hok3 & Hrc3 & _).
      set (K := survivors (heap s) l1) in *.
      exists (anchor K s').
      assert (Hfirst : Purge s = Ret (None, anchor K s')).
      { unfold Purge. rewrite Hlast, Hrun. simpl. rewrite Hlast'. unfold anchor.
        destruct (last K) as [k|] eqn:Hk; [|done].
        destruct (ok_dequeue _ _ Hok3) as (_ & Hseg & _).
        assert (Hin : k ∈ K).
        { apply list_elem_of_lookup. exists (pred (length K)).
          by rewrite <- last_lookup. }
        destruct (dseg_lookup _ _ _ _ _ Hseg Hin) as [c Hc].
        unfold anchor in Hc. rewrite Hk in Hc. simpl in Hc.
        unfold deref.
        destruct (heap s' !! k) as [c'|] eqn:Hc'; [done|].
        by rewrite lookup_alter_eq, Hc' in Hc. }
      split; [done|].
      destruct (last K) as [k|] eqn:Hk.
      * assert (Hin : k ∈ K).
        { apply list_elem_of_lookup. exists (pred (length K)).
          by rewrite <- last_lookup. }
        destruct (ok_rc s _ k Hok) as (rk & Hrk & Hrangek).
        { apply elem_of_app. left. by apply survivors_subset in Hin. }
        apply Purge_held with (k := k) (r := rk).
        -- destruct (ok_dequeue _ _ Hok3) as (_ & _ & _ & ->). done.
        -- by rewrite Hrc3.
        -- pose proof (survivors_last _ _ _ Hk) as Hk1. rewrite Hrk in Hk1.
           assert (rk <> 1) by congruence. lia.
      * unfold Purge.
        assert (Hl3 : chunks_last (chunks (anchor K s')) = None).
        { destruct (ok_dequeue _ _ Hok3) as (_ & _ & _ & ->). done. }
        rewrite Hl3. simpl. by rewrite Hl3.
    + (* the oldest chunk is referenced more than once *)
      exists s. split; apply Purge_held with (k := n) (r := r); auto; lia.
Qed.

(** ** Taking and disposing the oldest chunk *)

(** C2 (amended). In a journal in order whose oldest chunk [a] is referenced
    by the list only, a handle obtained by [GetTailChunk] takes ownership
    ([TakeOwnership] returns [true]) and is disposed without error.
    Afterwards the file of [a] is gone and the journal is in order again on
    the chunks that survive the cascade, with the reference counts they
    had: the chunks newer than [a] are reclaimed with it for as long as they
    are referenced once.  So the second-oldest chunk [b] is the new oldest
    chunk, linked, with its file and its reference count, when something
    else than the list references it (the writer or another handle); when it
    is referenced once it is unlinked and its file is removed too. *)
Theorem take_and_dispose_tail (s : State) (l1 : list ptr) (b a : ptr) :
  journal_ok s (l1 ++ [b; a]) -> rc (heap s) a = Some 1 ->
  let K := survivors (heap s) (l1 ++ [b]) in
  exists w s1 w2 s2 w3 s3 pa,
    GetTailChunk s = Ret (wrapper_ptr (Some w), s1) /\
    TakeOwnership w s1 = Ret (true, w2, s2) /\
    Dispose w2 s2 = Ret (None, w3, s3) /\
    path_of (heap s) a = Some pa /\ disk s3 !! pa = None /\
    journal_ok s3 K /\
    (forall x, x ∈ K -> rc (heap s3) x = rc (heap s) x) /\
    (rc (heap s) b <> Some 1 -> K = l1 ++ [b] /\ chunks_last (chunks s3) = Some b) /\
    (rc (heap s) b = Some 1 ->
       (b ∉ K) /\ exists pb, path_of (heap s) b = Some pb /\ disk s3 !! pb = None).
Proof.
  intros Hok Ha K.
  replace (l1 ++ [b; a]) with ((l1 ++ [b]) ++ [a]) in Hok by (by rewrite <- app_assoc).
  assert (Hlast : chunks_last (chunks s) = Some a).
  { destruct (ok_dequeue _ _ Hok) as (_ & _ & _ & ->). apply last_snoc. }
  destruct (rc_Some _ _ _ Ha) as (ca & Hca & Hra).
  (* the handle *)
  set (s1 := add_refcount a 1 s).
  assert (Hget : GetTailChunk s = Ret (wrapper_ptr (Some (mkWrapper (Some a) 0)), s1)).
  { unfold GetTailChunk, newChunkWrapper, deref. rewrite Hlast, Hca. done. }
  (* taking ownership gives the reference of the handle back *)
  assert (Hrc1 : rc (heap s1) a = Some 2).
  { unfold s1. rewrite heap_add_refcount, rc_alter_refcount, decide_True by done.
    rewrite Hca. simpl. rewrite Hra. done. }
  assert (Hs2 : add_refcount a (-1) s1 = s).
  { unfold s1. change 1 with (- (-1)) at 1.
    apply (add_refcount_cancel a 1 (-1) s Ha). lia. }
  assert (Htake : TakeOwnership (mkWrapper (Some a) 0) s1
                  = Ret (true, mkWrapper (Some a) 1, s)).
  { unfold TakeOwnership. cbn [chunk ownershipTaken]. unfold depth.
    rewrite (deleteRef_held _ a s1 2 Hrc1) by lia. simpl. by rewrite Hs2. }
  (* disposing starts the cascade *)
  assert (Hfuel : (length (l1 ++ [b]) < depth s)%nat).
  { pose proof (ok_depth s _ Hok) as H. rewrite (length_app (l1 ++ [b])) in H.
    simpl in H. lia. }
  destruct (cascade_anchor (depth s) s (l1 ++ [b]) a Hok Ha Hfuel) as
    (s' & pa & Hrun & Hpa & Hlast' & Hlk & Hok3 & Hrc3 & Hst3 & Hdisk3 & _).
  fold K in Hlast', Hlk, Hok3, Hrc3, Hst3, Hdisk3.
  assert (Hdisp : Dispose (mkWrapper (Some a) 1) s
                  = Ret (None, mkWrapper None 1, anchor K s')).
  { unfold Dispose. cbn [chunk ownershipTaken]. rewrite Hrun. simpl. unfold deref.
    unfold links in Hlk. destruct (heap s' !! a) as [c|]; [|done].
    simpl in Hlk. injection Hlk as Hpv Hnx. simpl.
    rewrite bool_decide_eq_true_2 by done. rewrite Hpv.
    unfold anchor. by destruct (last K). }
  exists (mkWrapper (Some a) 0), s1, (mkWrapper (Some a) 1), s,
         (mkWrapper None 1), (anchor K s'), pa.
  split; [done|]. split; [done|]. split; [done|]. split; [done|].
  split.
  { rewrite Hdisk3. apply lookup_remove_files_None with (x := a); [|done].
    apply elem_of_app. right. left. }
  split; [done|]. split; [done|].
  split.
  - intros Hb. assert (HK : K = l1 ++ [b]).
    { unfold K. by rewrite survivors_snoc, decide_False. }
    split; [done|].
    destruct (ok_dequeue _ _ Hok3) as (_ & _ & _ & ->). rewrite HK. apply last_snoc.
  - intros Hb.
    assert (Hrec : b ∈ reclaimed (heap s) (l1 ++ [b])).
    { rewrite reclaimed_snoc, decide_True by done. apply elem_of_app. right. left. }
    assert (Hnd : NoDup ((l1 ++ [b]) ++ [a])) by apply Hok.
    split.
    + intros HbK.
      apply (NoDup_survivors_reclaimed (heap s) (l1 ++ [b]) a b Hnd HbK).
      apply elem_of_app. by left.
    + destruct (ok_path s _ b Hok) as (pb & Hpb & _).
      { apply elem_of_app. left. apply elem_of_app. right. left. }
      exists pb. split; [done|].
      rewrite Hdisk3. apply lookup_remove_files_None with (x := b); [|done].
      apply elem_of_app. by left.
Qed.

(** ** What [deleteRef] leaves alone, whatever it returns *)

Lemma deleteRef_unfold fuel p s :
  deleteRef (S fuel) p s =
    c ← deref s p;
    if int32 (refcount c - 1) =? 0 then
      '(err, s2) ← match head_prev c with
                    | Some prevChunk =>
                        '(err, _, s2) ← deleteRef fuel prevChunk (add_refcount p (-1) s);
                        Ret (err, s2)
                    | None => Ret (None, add_refcount p (-1) s)
                    end;
      match err with
      | Some e => Ret (Some e, false, add_refcount p 1 s2)
      | None =>
        c2 ← deref s2 p;
        match os_Remove (Path c2) (disk s2) with
        | (Some e, _) => Ret (Some e, false, add_refcount p 1 s2)
        | (None, d) => s3 ← unlink p (set_disk d s2); Ret (None, true, s3)
        end
      end
    else if int32 (refcount c - 1) <? 0 then Panic "something went wrong!"
    else Ret (None, false, add_refcount p (-1) s).
Proof. reflexivity. Qed.


Lemma after_newer_untouched (s s2 s' : State) (l1 : list ptr) (n : ptr)
    (l2 : list ptr) (e : option error) (d : bool) :
  (forall x, static (heap s2) x = static (heap s) x) ->
  (forall x, x ∉ l1 ++ [n] -> rc (heap s2) x = rc (heap s) x) ->
  rc (heap s2) n = (fun r => int32 (r + -1)) <$> rc (heap s) n ->
  (exists l1', dequeue_of (heap s2) (chunks s2) (l1' ++ n :: l2)) ->
  (forall pth, (forall x, x ∈ l1 -> path_of (heap s) x <> Some pth) ->
     disk s2 !! pth = disk s !! pth) ->
  writer s2 = writer s /\ position s2 = position s ->
  ((exists err, e = Some err /\ d = false /\ s' = add_refcount n 1 s2) \/
   (c2 ← deref s2 n;
    match os_Remove (Path c2) (disk s2) with
    | (Some e, _) => Ret (Some e, false, add_refcount n 1 s2)
    | (None, d) => s3 ← unlink n (set_disk d s2); Ret (None, true, s3)
    end) = Ret (e, d, s')) ->
  untouched s s' l1 n l2 e d.
Proof.
  intros Hst Hrc Hn (l1' & Hdq) Hdisk Hw Hcases.
  assert (Hundo : untouched s (add_refcount n 1 s2) l1 n l2 e false -> e <> None ->
                  untouched s (add_refcount n 1 s2) l1 n l2 e false) by done.
  assert (Hfail : forall err, untouched s (add_refcount n 1 s2) l1 n l2 (Some err) false).
  { intros err. split.
    - intros x. rewrite heap_add_refcount, static_alter_refcount. apply Hst.
    - intros x Hx. rewrite heap_add_refcount, rc_alter_refcount, decide_False.
      + by apply Hrc.
      + intros ->. apply Hx. apply elem_of_app. right. left.
    - exists l1'. apply dequeue_of_frame with (h := heap s2); [|done].
      intros x. rewrite heap_add_refcount. apply links_alter_refcount.
    - done.
    - intros _ r Hr Hrange. rewrite heap_add_refcount, rc_alter_refcount, decide_True by done.
      rewrite Hr in Hn. simpl in Hn. destruct (rc_Some _ _ _ Hn) as (c & Hc & Hrc').
      rewrite Hc. simpl. f_equal. rewrite Hrc'.
      replace (r + -1) with (r - 1) by lia. rewrite int32_add_sub. apply int32_id. lia.
    - intros pth Hp. simpl. apply Hdisk. intros x Hx. apply Hp. apply elem_of_app. by left.
    - intros _ pth _ Hp. simpl. by apply Hdisk.
    - done. }
  destruct Hcases as [(err & -> & -> & ->)|Hrun]; [apply Hfail|].
  apply bind_Ret_inv in Hrun as (c2 & Hc2 & Hrun).
  unfold deref in Hc2. destruct (heap s2 !! n) as [c2'|] eqn:Hheap; [|done].
  injection Hc2 as ->.
  unfold os_Remove in Hrun. destruct (disk s2 !! Path c2) as [data|] eqn:Hfile.
  - (* the file is removed and the chunk unlinked *)
    apply bind_Ret_inv in Hrun as (s3 & Hun & Hrun). injection Hrun as <- <- <-.
    destruct (unlink_spec (set_disk (delete (Path c2) (disk s2)) s2) l1' l2 n Hdq)
      as (s3' & Hun' & Hdq' & Hst' & Hrc' & _ & Hdisk' & Hw' & Hpos').
    rewrite Hun in Hun'. injection Hun' as <-.
    assert (Hpath : path_of (heap s) n = Some (Path c2)).
    { rewrite <- (path_of_static _ _ n (Hst n)). unfold path_of. by rewrite Hheap. }
    split.
    + intros x. by rewrite Hst', <- Hst.
    + intros x Hx. rewrite Hrc'. by apply Hrc.
    + by exists l1'.
    + done.
    + done.
    + intros pth Hp. rewrite Hdisk'. simpl. rewrite lookup_delete_ne.
      * apply Hdisk. intros x Hx. apply Hp. apply elem_of_app. by left.
      * intros Heq. apply (Hp n); [apply elem_of_app; right; left|]. by rewrite Hpath, Heq.
    + done.
    + by rewrite Hw', Hpos'.
  - injection Hrun as <- <- <-. apply Hfail.
Qed.

(** Whatever [deleteRef] on a linked chunk [n] returns, it has written
    nothing but reference counts and links, it has left the reference
    counts of [n]'s older neighbours and of every chunk outside the list as
    they were, and the list is linked as before, without the chunks that
    were destroyed. *)
Lemma deleteRef_untouched (l1 : list ptr) : forall (fuel : nat) (s : State) (n : ptr)
    (l2 : list ptr) (e : option error) (d : bool) (s' : State),
  dequeue_of (heap s) (chunks s) (l1 ++ n :: l2) ->
  deleteRef fuel n s = Ret (e, d, s') ->
  untouched s s' l1 n l2 e d.
Proof.
  induction l1 as [|m l0 IH] using rev_ind; intros fuel s n l2 e d s' Hdq Hrun.
  - destruct fuel as [|fuel]; [done|]. rewrite deleteRef_unfold in Hrun.
    apply bind_Ret_inv in Hrun as (c & Hc & Hrun).
    unfold deref in Hc. destruct (heap s !! n) as [c'|] eqn:Hheap; [|done].
    injection Hc as ->.
    assert (Hpv : head_prev c = None).
    { apply dequeue_of_links in Hdq. unfold links in Hdq. rewrite Hheap in Hdq.
      simpl in Hdq. congruence. }
    set (s1 := add_refcount n (-1) s) in *.
    assert (Hs1 : untouched s s1 [] n l2 None false).
    { split; try done.
      - intros x. apply static_alter_refcount.
      - intros x Hx. unfold s1. rewrite heap_add_refcount, rc_alter_refcount, decide_False;
          [done|]. intros ->. apply Hx. left.
      - exists []. apply dequeue_of_frame with (h := heap s); [|done].
        intros x. apply links_alter_refcount. }
    destruct (int32 (refcount c - 1) =? 0) eqn:E0.
    + rewrite Hpv in Hrun. simpl in Hrun.
      apply after_newer_untouched with (s2 := s1).
      * apply Hs1.
      * apply Hs1.
      * unfold s1. rewrite heap_add_refcount, rc_alter_refcount, decide_True by done.
        unfold rc. by destruct (heap s !! n).
      * destruct (un_linked _ _ _ _ _ _ _ Hs1) as (l1' & H). by exists l1'.
      * done.
      * done.
      * by right.
    + destruct (int32 (refcount c - 1) <? 0); [done|].
      injection Hrun as <- <- <-. done.
  - destruct fuel as [|fuel]; [done|]. rewrite deleteRef_unfold in Hrun.
    apply bind_Ret_inv in Hrun as (c & Hc & Hrun).
    unfold deref in Hc. destruct (heap s !! n) as [c'|] eqn:Hheap; [|done].
    injection Hc as ->.
    assert (Hpv : head_prev c = Some m).
    { apply dequeue_of_links in Hdq. unfold links in Hdq. rewrite Hheap in Hdq.
      simpl in Hdq. rewrite last_snoc in Hdq. congruence. }
    assert (Hnd : NoDup ((l0 ++ [m]) ++ n :: l2)) by apply Hdq.
    assert (Hn0 : n ∉ l0 ++ [m]).
    { intros Hin. apply NoDup_app in Hnd as (_ & Hd & _). apply (Hd n Hin). left. }
    set (s1 := add_refcount n (-1) s) in *.
    assert (Hst1 : forall x, static (heap s1) x = static (heap s) x).
    { intros x. apply static_alter_refcount. }
    assert (Hrc1 : forall x, x <> n -> rc (heap s1) x = rc (heap s) x).
    { intros x Hx. unfold s1. rewrite heap_add_refcount, rc_alter_refcount.
      by rewrite decide_False. }
    assert (Hrcn : rc (heap s1) n = (fun r => int32 (r + -1)) <$> rc (heap s) n).
    { unfold s1. rewrite heap_add_refcount, rc_alter_refcount, decide_True by done.
      unfold rc. by destruct (heap s !! n). }
    assert (Hdq1 : dequeue_of (heap s1) (chunks s1) (l0 ++ m :: n :: l2)).
    { rewrite <- app_assoc in Hdq. apply dequeue_of_frame with (h := heap s); [|done].
      intros x. apply links_alter_refcount. }
    destruct (int32 (refcount c - 1) =? 0) eqn:E0.
    + rewrite Hpv in Hrun.
      apply bind_Ret_inv in Hrun as ([err s2] & Hrec & Hrun).
      apply bind_Ret_inv in Hrec as ([[err' d'] s2'] & Hrec & Heq).
      injection Heq as -> ->.
      pose proof (IH fuel s1 m (n :: l2) err d' s2 Hdq1 Hrec) as Hun.
      apply after_newer_untouched with (s2 := s2).
      * intros x. by rewrite (un_static _ _ _ _ _ _ _ Hun).
      * intros x Hx. rewrite (un_rc _ _ _ _ _ _ _ Hun).
        -- apply Hrc1. intros ->. apply Hx. apply elem_of_app. right. left.
        -- intros Hx'. apply Hx. apply elem_of_app. by left.
      * rewrite (un_rc _ _ _ _ _ _ _ Hun); done.
      * destruct (un_linked _ _ _ _ _ _ _ Hun) as (l1' & H).
        exists (l1' ++ (if d' then [] else [m])). by rewrite <- app_assoc.
      * intros pth Hp. rewrite (un_disk _ _ _ _ _ _ _ Hun); [done|].
        intros x Hx. rewrite (path_of_static _ _ x (Hst1 x)). by apply Hp.
      * by destruct (un_writer _ _ _ _ _ _ _ Hun).
      * destruct err as [err|]; [left|by right].
        injection Hrun as <- <- <-. by exists err.
    + destruct (int32 (refcount c - 1) <? 0); [done|].
      injection Hrun as <- <- <-. split; try done.
      * intros x Hx. apply Hrc1. intros ->. apply Hx. apply elem_of_app. right. left.
      * exists (l0 ++ [m]). simpl. rewrite <- app_assoc. done.
Qed.
(** ** The direction of the cascade *)

(** C3 (amended). When [deleteRef] takes the reference count of a linked
    chunk [n] from one to zero, it first calls itself on the neighbour in
    the direction of [head.prev], the newer chunk, if there is one.  If that
    call returns an error, [deleteRef] returns the same error with
    [destroyed = false], the reference count of [n] is one again, [n] is
    linked, and its file is as before (when no newer chunk has its path).
    If that call returns no error, or there is no newer chunk, [deleteRef]
    goes on with [n] in the list that the call has left: when the file of
    [n] is there, it removes the file, unlinks [n] and returns
    [destroyed = true]; when the file is not there, it returns the error of
    [os.Remove] with the reference count of [n] at one again.  The older
    neighbours of [n] are not visited in any of these cases: they stay
    linked with their reference counts, fields and files, so that [n] is
    reclaimed whether or not older chunks remain. *)
Theorem deleteRef_passes_zero_to_newer (s : State) (l1 l2 : list ptr) (n : ptr)
    (c : FileJournalChunk) (fuel : nat) :
  dequeue_of (heap s) (chunks s) (l1 ++ n :: l2) ->
  heap s !! n = Some c -> refcount c = 1 ->
  let newer : outcome (option error * State) :=
    match last l1 with
    | Some m => '(err, _, s2) ← deleteRef fuel m (add_refcount n (-1) s); Ret (err, s2)
    | None => Ret (None, add_refcount n (-1) s)
    end in
  let older_kept (s' : State) : Prop :=
    (forall x, x ∈ l2 ->
       rc (heap s') x = rc (heap s) x /\ static (heap s') x = static (heap s) x) /\
    (forall pth, (forall y, y ∈ l1 ++ [n] -> path_of (heap s) y <> Some pth) ->
       disk s' !! pth = disk s !! pth) in
  (forall e s2, newer = Ret (Some e, s2) ->
     let s' := add_refcount n 1 s2 in
     deleteRef (S fuel) n s = Ret (Some e, false, s') /\
     rc (heap s') n = Some 1 /\
     (exists l1', dequeue_of (heap s') (chunks s') (l1' ++ n :: l2)) /\
     ((forall x, x ∈ l1 -> path_of (heap s) x <> Some (Path c)) ->
        disk s' !! Path c = disk s !! Path c) /\
     older_kept s') /\
  (forall s2, newer = Ret (None, s2) ->
     exists l1',
       dequeue_of (heap s2) (chunks s2) (l1' ++ n :: l2) /\
       (is_Some (disk s2 !! Path c) ->
          exists s',
            deleteRef (S fuel) n s = Ret (None, true, s') /\
            dequeue_of (heap s') (chunks s') (l1' ++ l2) /\
            disk s' = delete (Path c) (disk s2) /\
            (forall x, rc (heap s') x = rc (heap s2) x) /\
            older_kept s') /\
       (disk s2 !! Path c = None ->
          let s' := add_refcount n 1 s2 in
          exists e,
            deleteRef (S fuel) n s = Ret (Some e, false, s') /\
            rc (heap s') n = Some 1 /\
            dequeue_of (heap s') (chunks s') (l1' ++ n :: l2) /\
            older_kept s')).
Proof.
  intros Hdq Hc Hr newer older_kept.
  set (s1 := add_refcount n (-1) s) in *.
  assert (Hrc : rc (heap s) n = Some 1) by (unfold rc; rewrite Hc; simpl; by rewrite Hr).
  assert (Hpth : path_of (heap s) n = Some (Path c)) by (unfold path_of; by rewrite Hc).
  assert (Hpv : head_prev c = last l1).
  { pose proof (dequeue_of_links _ _ _ _ _ Hdq) as Hl. unfold links in Hl.
    rewrite Hc in Hl. simpl in Hl. congruence. }
  assert (Hrun : deleteRef (S fuel) n s =
                 '(err, s2) ← newer;
                 match err with
                 | Some e => Ret (Some e, false, add_refcount n 1 s2)
                 | None =>
                   c2 ← deref s2 n;
                   match os_Remove (Path c2) (disk s2) with
                   | (Some e, _) => Ret (Some e, false, add_refcount n 1 s2)
                   | (None, d) => s3 ← unlink n (set_disk d s2); Ret (None, true, s3)
                   end
                 end).
  { rewrite (deleteRef_zero fuel n s c Hc Hr), Hpv. done. }
  assert (Hkept : forall e d s', deleteRef (S fuel) n s = Ret (e, d, s') ->
            untouched s s' l1 n l2 e d /\ older_kept s').
  { intros e d s' Hret.
    pose proof (deleteRef_untouched l1 (S fuel) s n l2 e d s' Hdq Hret) as Hun.
    split; [done|]. split.
    - intros x Hx. split; [|apply Hun].
      apply (un_rc _ _ _ _ _ _ _ Hun).
      assert (Hnd : NoDup (l1 ++ n :: l2)) by apply Hdq.
      intros Hin. apply elem_of_app in Hin as [Hin|Hin%list_elem_of_singleton].
      + apply NoDup_app in Hnd as (_ & Hd & _). apply (Hd x Hin). by right.
      + subst x. apply NoDup_app in Hnd as (_ & _ & Hnd).
        by apply NoDup_cons in Hnd as [? _].
    - intros pth Hp. by apply (un_disk _ _ _ _ _ _ _ Hun). }
  split.
  - intros e s2 Hnewer s'.
    assert (Hret : deleteRef (S fuel) n s = Ret (Some e, false, s')).
    { rewrite Hrun, Hnewer. done. }
    destruct (Hkept _ _ _ Hret) as [Hun Hold].
    split_and!; [done| | | |done].
    + apply (un_undo _ _ _ _ _ _ _ Hun); [done|done|lia].
    + destruct (un_linked _ _ _ _ _ _ _ Hun) as (l1' & H). by exists l1'.
    + intros Hother. by apply (un_file _ _ _ _ _ _ _ Hun).
  - intros s2 Hnewer.
    assert (Hs2 : exists l1', dequeue_of (heap s2) (chunks s2) (l1' ++ n :: l2) /\
                    path_of (heap s2) n = Some (Path c)).
    { unfold newer in Hnewer. destruct (last l1) as [m|] eqn:Hlast.
      - apply bind_Ret_inv in Hnewer as ([[err d'] s2'] & Hrec & Heq).
        injection Heq as -> ->.
        apply last_Some in Hlast as (l0 & ->).
        assert (Hdq1 : dequeue_of (heap s1) (chunks s1) (l0 ++ m :: n :: l2)).
        { rewrite <- app_assoc in Hdq. apply dequeue_of_frame with (h := heap s); [|done].
          intros x. apply links_alter_refcount. }
        pose proof (deleteRef_untouched l0 fuel s1 m (n :: l2) None d' s2 Hdq1 Hrec) as Hun.
        destruct (un_linked _ _ _ _ _ _ _ Hun) as (l1' & H).
        exists (l1' ++ (if d' then [] else [m])). split.
        + by rewrite <- app_assoc.
        + rewrite (path_of_static (heap s1) (heap s2) n) by apply Hun.
          by rewrite (path_of_static (heap s) (heap s1) n) by apply static_alter_refcount.
      - injection Hnewer as <-. apply last_None in Hlast as ->.
        exists []. split; [|by rewrite (path_of_static (heap s) (heap s1) n)
                               by apply static_alter_refcount].
        apply dequeue_of_frame with (h := heap s); [|done].
        intros x. apply links_alter_refcount. }
    destruct Hs2 as (l1' & Hdq2 & Hpth2).
    exists l1'. split; [done|]. split.
    + intros Hfile.
      destruct (deleteRef_finish s2 l1' l2 n (Path c) Hdq2 Hpth2 Hfile)
        as (s' & Hfin & Hdq' & _ & Hrc' & _ & Hdisk' & _).
      assert (Hret : deleteRef (S fuel) n s = Ret (None, true, s')).
      { rewrite Hrun, Hnewer, bind_Ret. exact Hfin. }
      destruct (Hkept _ _ _ Hret) as [_ Hold].
      exists s'. split_and!; done.
    + intros Hnone s'.
      unfold path_of in Hpth2.
      destruct (heap s2 !! n) as [c2|] eqn:Hc2; [|done]. injection Hpth2 as Hp2.
      set (e := ("remove " +:+ Path c +:+ ": no such file or directory")%string).
      assert (Hret : deleteRef (S fuel) n s = Ret (Some e, false, s')).
      { rewrite Hrun, Hnewer, bind_Ret. unfold deref. rewrite Hc2, bind_Ret.
        unfold os_Remove. rewrite Hp2, Hnone. done. }
      destruct (Hkept _ _ _ Hret) as [Hun Hold].
      exists e. split_and!; [done| | |done].
      * apply (un_undo _ _ _ _ _ _ _ Hun); [done|done|lia].
      * apply dequeue_of_frame with (h := heap s2); [|done].
        intros x. unfold s'. rewrite heap_add_refcount. apply links_alter_refcount.
Qed.


(** ** The journal with three chunks *)

Lemma three_chunks_written :
  let W := Write (codec := SampleCodec.codec) example_cfg no_listeners in
  exists s1 s2,
    W AAA 1 5 empty_journal = Ret (None, s1) /\
    W BBB 2 7 s1 = Ret (None, s2) /\
    W CCC 3 9 s2 = Ret (None, three_chunks).
Proof.
  eexists. eexists. split; [vm_compute; reflexivity|].
  split; [vm_compute; reflexivity | vm_compute; reflexivity].
Qed.

Ltac in_list H :=
  repeat (apply elem_of_cons in H as [->|H]); [..|by apply elem_of_nil in H].

Lemma three_chunks_ok : journal_ok three_chunks [2; 1; 0]%nat.
Proof.
  split.
  - split; [|by vm_compute].
    repeat (apply NoDup_cons_2;
            [rewrite ?elem_of_cons, elem_of_nil; lia|]).
    apply NoDup_nil_2.
  - intros p c Hp Hc. in_list Hp; vm_compute in Hc; injection Hc as <-; simpl; lia.
  - intros p c Hp Hc. in_list Hp; vm_compute in Hc; injection Hc as <-;
      vm_compute; eexists; reflexivity.
  - intros p p' c c' Hp Hp' Hc Hc'.
    in_list Hp; in_list Hp'; vm_compute in Hc, Hc';
      injection Hc as <-; injection Hc' as <-; simpl; congruence.
Qed.

(** C2, as stated, fails on the journal with three chunks: after
    [TakeOwnership] has returned [true] and [Dispose] no error on the handle
    of the oldest chunk, the second-oldest chunk (at address 1) is not the
    oldest chunk; it has been unlinked and its file removed with the oldest
    one, and the head chunk (at address 2) is the only chunk left. *)
Lemma tail_dispose_takes_second_oldest :
  exists w s1 w2 s2 w3 s3,
    GetTailChunk three_chunks = Ret (wrapper_ptr (Some w), s1) /\
    TakeOwnership w s1 = Ret (true, w2, s2) /\
    Dispose w2 s2 = Ret (None, w3, s3) /\
    chunks s3 = mkDequeue (Some 2%nat) (Some 2%nat) 1 /\
    disk s3 !! "/tmp/j.s.q4101.log"%string = None /\
    disk s3 !! "/tmp/j.s.q8199.log"%string = None /\
    rc (heap s3) 1%nat = Some 0.
Proof.
  do 6 eexists.
  split; [vm_compute; reflexivity|].
  split; [vm_compute; reflexivity|].
  split; [vm_compute; reflexivity|].
  by vm_compute.
Qed.

Lemma take_and_dispose_tail_witness :
  journal_ok three_chunks ([2%nat] ++ [1; 0]%nat) /\
  rc (heap three_chunks) 0%nat = Some 1 /\
  exists w s1 w2 s2 w3 s3 pa,
    GetTailChunk three_chunks = Ret (wrapper_ptr (Some w), s1) /\
    TakeOwnership w s1 = Ret (true, w2, s2) /\
    Dispose w2 s2 = Ret (None, w3, s3) /\
    path_of (heap three_chunks) 0%nat = Some pa /\ disk s3 !! pa = None /\
    journal_ok s3 (survivors (heap three_chunks) ([2%nat] ++ [1%nat])).
Proof.
  split; [apply three_chunks_ok|]. split; [reflexivity|].
  destruct (take_and_dispose_tail three_chunks [2%nat] 1%nat 0%nat three_chunks_ok
              eq_refl)
    as (w & s1 & w2 & s2 & w3 & s3 & pa & H1 & H2 & H3 & H4 & H5 & H6 & _).
  exists w, s1, w2, s2, w3, s3, pa. split_and!; assumption.
Defined.

(** C3, as stated, fails on the journal with three chunks: the reference
    count of the chunk at address 1 goes to zero, the chunk has an older
    neighbour (at address 0), and [deleteRef] destroys the chunk without
    calling itself on that neighbour, whose reference count stays 1 and
    which stays linked with its file; it is the newer neighbour (at address
    2) whose reference count is decremented. *)
Lemma deleteRef_leaves_older_neighbour :
  head_next <$> heap three_chunks !! 1%nat = Some (Some 0%nat) /\
  rc (heap three_chunks) 0%nat = Some 1 /\
  rc (heap three_chunks) 2%nat = Some 2 /\
  exists s',
    deleteRef (depth three_chunks) 1%nat three_chunks = Ret (None, true, s') /\
    rc (heap s') 0%nat = Some 1 /\
    rc (heap s') 2%nat = Some 1 /\
    chunks s' = mkDequeue (Some 2%nat) (Some 0%nat) 2 /\
    disk s' !! "/tmp/j.s.q4101.log"%string = Some AAA /\
    disk s' !! "/tmp/j.s.q8199.log"%string = None.
Proof.
  split; [reflexivity|]. split; [reflexivity|]. split; [reflexivity|].
  eexists. split; [vm_compute; reflexivity|]. by vm_compute.
Qed.

Lemma deleteRef_passes_zero_to_newer_witness :
  (exists s' l1',
     deleteRef 4 1%nat three_chunks = Ret (None, true, s') /\
     dequeue_of (heap s') (chunks s') (l1' ++ [0%nat]) /\
     disk s' !! "/tmp/j.s.q8199.log"%string = None /\
     rc (heap s') 0%nat = rc (heap three_chunks) 0%nat) /\
  (exists e s',
     deleteRef 4 0%nat lost_file = Ret (Some e, false, s') /\
     rc (heap s') 0%nat = Some 1 /\
     disk s' !! "/tmp/j.s.q4101.log"%string = Some AAA).
Proof.
  split.
  - set (c := mkChunk (Some 0%nat) (Some 2%nat) "/tmp/j.s.q8199.log" Rest "8199" 0
                      (list_byte_of_string "8199") 1).
    set (s2 := state_of (deleteRef 3 2%nat (add_refcount 1%nat (-1) three_chunks))).
    destruct (deleteRef_passes_zero_to_newer three_chunks [2%nat] [0%nat] 1%nat c 3) as [_ Hs].
    + apply three_chunks_ok.
    + reflexivity.
    + reflexivity.
    + destruct (Hs s2) as (l1' & _ & Hthere & _).
      * vm_compute. reflexivity.
      * destruct Hthere as (s' & Hret & Hdq & Hdisk & _ & Hold & _).
        -- vm_compute. eexists. reflexivity.
        -- exists s', l1'. split_and!; [exact Hret|exact Hdq| |].
           ++ rewrite Hdisk. apply lookup_delete_eq.
           ++ apply Hold. left.
  - set (c := mkChunk None (Some 1%nat) "/tmp/j.s.q4101.log" Rest "4101" 0
                      (list_byte_of_string "4101") 1).
    set (s2 := state_of (deleteRef 3 1%nat (add_refcount 0%nat (-1) lost_file))).
    destruct (deleteRef_passes_zero_to_newer lost_file [2; 1]%nat [] 0%nat c 3) as [He _].
    + apply three_chunks_ok.
    + reflexivity.
    + reflexivity.
    + destruct (He "remove /tmp/j.s.q8199.log: no such file or directory"%string s2)
        as (Hret & Hrc & _ & Hdisk & _).
      * vm_compute. reflexivity.
      * eexists _, _. split_and!; [exact Hret|exact Hrc|].
        etrans; [apply Hdisk|vm_compute; reflexivity].
        intros x Hx. apply elem_of_cons in Hx as [->|Hx]; [vm_compute; discriminate|].
        apply list_elem_of_singleton in Hx. subst x. vm_compute. discriminate.
Defined.

Lemma Purge_idempotent_witness :
  journal_ok three_chunks [2; 1; 0]%nat /\
  exists s1, Purge three_chunks = Ret (None, s1) /\ Purge s1 = Ret (None, s1).
Proof.
  split; [apply three_chunks_ok|].
  apply (Purge_idempotent three_chunks [2; 1; 0]%nat three_chunks_ok).
Defined.

Lemma disposed_handle_next_is_not_nil_witness :
  let w := mkWrapper (Some 2%nat) 0 in
  let w' := mkWrapper None 0 in
  let s' := state_of (Dispose w three_chunks) in
  Dispose w three_chunks = Ret (None, w', s') /\
  exists j : JournalChunk,
    GetNextChunk w' s' = Ret (j, s') /\ is_nil j = false /\
    call GetReader j s' = Panic nil_dereference.
Proof.
  intros w w' s'.
  assert (H : Dispose w three_chunks = Ret (None, w', s')) by (vm_compute; reflexivity).
  split; [exact H|].
  destruct (disposed_handle_next_is_not_nil w w' three_chunks s' H) as [_ Hall].
  destruct (Hall s') as (_ & _ & _ & j & Hnext & _ & Hnil & Hread & _).
  exists j. split_and!; assumption.
Defined.

Lemma Write_without_writer_panics_witness :
  let w := mkFile "/tmp/j.s.b12297.log" false in
  writer three_chunks = Some w /\ f_closed w = false /\
  chunks_first (chunks three_chunks) <> None /\
  Write (codec := SampleCodec.codec) example_cfg no_listeners AAA 4 1
        (snd (Journal_Dispose three_chunks))
  = Panic "invalid memory address or nil pointer dereference".
Proof.
  intros w.
  assert (Hf : chunks_first (chunks three_chunks) <> None) by discriminate.
  split; [reflexivity|]. split; [reflexivity|]. split; [exact Hf|].
  apply (Write_without_writer_panics (codec := SampleCodec.codec) example_cfg
           no_listeners AAA 4 1 three_chunks w eq_refl eq_refl Hf).
Defined.

(** ** Files of the directory that are not chunks of the journal *)

Section ForeignFiles.

Context {codec : PathCodec}.

(** A file that ends with the suffix and is shorter than the file part of
    the prefix and the suffix together makes the slice expression of the
    scan run out of bounds. *)
Lemma scan_file_short_name_panics (pathPrefix pathSuffix basename file : string)
    (sc : Scan) :
  HasSuffix file pathSuffix = true ->
  (len file < len basename + len pathSuffix)%nat ->
  scan_file pathPrefix pathSuffix basename file sc = Panic "slice bounds out of range".
Proof.
  intros Hsuf Hlen. unfold scan_file. rewrite Hsuf. simpl.
  unfold slice. rewrite bool_decide_eq_false_2; [done|]. lia.
Qed.

(** C5. The scan is not total on directory entries: under the pattern
    [/tmp/journal.*.log] the entry [a.log] ends with the suffix, is not
    tested against the prefix, and is sliced from index 8 to index 1, which
    panics. *)
Theorem scanJournals_short_name_panics (h : gmap ptr FileJournalChunk) :
  scanJournals h (Directory ["a.log"%string]) "/tmp/journal." ".log"
  = Panic "slice bounds out of range".
Proof.
  unfold scanJournals.
  change (path_Split "/tmp/journal.") with ("/tmp/"%string, "journal."%string).
  cbn [scan_files].
  rewrite scan_file_short_name_panics; [done | done |].
  vm_compute. lia.
Qed.

End ForeignFiles.

(** C4. A state reached by the startup scan and the construction of the
    group in which a linked chunk has no file: in the directory with a
    foreign file, [GetJournalGroup] returns the journal of [s] with two
    linked chunks, and the path of the older one, [/tmp/j.s.q4101.log], is
    built from the configured prefix although the file it was read from is
    [/tmp/xxs.q4101.log]; nothing is on the disk at the path of the chunk. *)
Theorem scan_links_chunk_without_file :
  opened_journal
    (GetJournalGroup (codec := SampleCodec.codec) (NewFileJournalGroupFactory ".log" 4)
       "/tmp/j.*.log" 7%nat ∅ (Directory foreign_names) foreign_disk)
    "s" foreign_disk = Some foreign_journal /\
  dequeue_of (heap foreign_journal) (chunks foreign_journal) [1; 0]%nat /\
  path_of (heap foreign_journal) 0%nat = Some "/tmp/j.s.q4101.log"%string /\
  disk foreign_journal !! "/tmp/j.s.q4101.log"%string = None.
Proof.
  split; [vm_compute; reflexivity|].
  split; [|split; reflexivity].
  split; [|by vm_compute].
  repeat (apply NoDup_cons_2; [rewrite ?elem_of_cons, elem_of_nil; lia|]).
  apply NoDup_nil_2.
Qed.

(** The same defect of [newChunk]: when the rename of the old head fails
    after the new chunk has been linked, the file of the new chunk is
    removed and the chunk stays linked.  From the journal above two calls of
    [Purge] (both return the error of the missing file) and a [Write] that
    rolls over reach it. *)
Lemma failed_rollover_links_chunk_without_file :
  exists e1 s1 e2 s2 e3 s3,
    Purge foreign_journal = Ret (Some e1, s1) /\
    Purge s1 = Ret (Some e2, s2) /\
    Write (codec := SampleCodec.codec) example_cfg no_listeners CCC 3 9 s2
      = Ret (Some e3, s3) /\
    e3 = "rename /tmp/j.s.q4101.log: no such file or directory"%string /\
    chunks_first (chunks s3) = Some 2%nat /\
    path_of (heap s3) 2%nat = Some "/tmp/j.s.b12297.log"%string /\
    disk s3 !! "/tmp/j.s.b12297.log"%string = None.
Proof.
  do 6 eexists.
  split; [vm_compute; reflexivity|].
  split; [vm_compute; reflexivity|].
  split; [vm_compute; reflexivity|].
  by vm_compute.
Qed.

(** ** Roll-over *)

Lemma new_ptr_fresh (h : gmap ptr FileJournalChunk) : h !! new_ptr h = None.
Proof.
  apply not_elem_of_dom. intros Hin.
  assert (Hle : (S (new_ptr h) <= new_ptr h)%nat); [|lia].
  unfold new_ptr at 2. apply max_list_elem_of_le.
  apply list_elem_of_fmap. exists (new_ptr h). split; [done|].
  by apply elem_of_elements.
Qed.

Lemma close_writer_open (s : State) :
  (forall w, writer s = Some w -> f_closed w = false) ->
  fst (close_writer s) = None /\
  heap (snd (close_writer s)) = heap s /\ disk (snd (close_writer s)) = disk s /\
  chunks (snd (close_writer s)) = chunks s /\
  position (snd (close_writer s)) = position s.
Proof.
  intros Hw. unfold close_writer. destruct (writer s) as [w|]; [|done].
  unfold file_Close. by rewrite (Hw w eq_refl).
Qed.

Lemma state_ext (s t : State) :
  heap s = heap t -> disk s = disk t -> chunks s = chunks t ->
  writer s = writer t -> position s = position t -> s = t.
Proof. destruct s, t. simpl. by intros -> -> -> -> ->. Qed.

Lemma link_newest_fields (p : ptr) (s : State) :
  heap (link_newest p s)
  = alter (with_next (chunks_first (chunks s))) p
      match chunks_first (chunks s) with
      | Some oh => alter (with_prev (Some p)) oh (heap s)
      | None => heap s
      end /\
  chunks (link_newest p s)
  = mkDequeue (Some p)
      match chunks_first (chunks s) with
      | Some _ => chunks_last (chunks s)
      | None => Some p
      end
      (int64 (chunks_count (chunks s) + 1)) /\
  disk (link_newest p s) = disk s.
Proof.
  unfold link_newest. destruct (chunks_first (chunks s)) as [oh|] eqn:E; simpl;
    rewrite ?E; done.
Qed.

Section RollOver.

Context {codec : PathCodec}.
Variable cfg : Config.

Lemma newChunk_rolls (now rnd : Z) (s : State) (oh : ptr) (c : FileJournalChunk)
    (old : list Byte.byte) :
  (forall w, writer s = Some w -> f_closed w = false) ->
  chunks_first (chunks s) = Some oh -> heap s !! oh = Some c ->
  2 <= refcount c < 2 ^ 31 ->
  disk s !! Path c = Some old ->
  disk s !! head_path cfg now rnd = None ->
  newChunk cfg no_listeners now rnd s
  = Ret (inr (new_ptr (heap s)), rolled cfg now rnd s oh c old).
Proof.
  intros Hw Hfirst Hc Hrc Hold Hnew.
  pose proof (new_ptr_fresh (heap s)) as Hfresh.
  assert (Hp : oh <> new_ptr (heap s)) by congruence.
  unfold newChunk. cbv zeta. fold (head_path cfg now rnd).
  cbn [Path]. unfold os_Create. cbn [disk set_heap]. rewrite Hnew.
  match goal with |- context [close_writer ?s0] =>
    destruct (close_writer_open s0) as (Hcl & Hh & Hd & Hq & Hpos); [exact Hw|];
    destruct (close_writer s0) as [err s1] end.
  simpl in Hcl, Hh, Hd, Hq, Hpos. subst err.
  rewrite Hq, Hfirst.
  set (p := new_ptr (heap s)) in *.
  destruct (link_newest_fields p s1) as (Hlh & Hlq & Hld).
  rewrite Hq, Hfirst, Hh in Hlh. rewrite Hq, Hfirst in Hlq. rewrite Hd in Hld.
  set (s2 := add_refcount p 1 (link_newest p s1)).
  assert (Hh2 : heap s2 = alter (fun c => with_refcount (int32 (refcount c + 1)) c) p
                            (heap (link_newest p s1))) by done.
  assert (Hoh2 : heap s2 !! oh = Some (with_prev (Some p) c)).
  { rewrite Hh2, Hlh. by simplify_map_eq. }
  assert (Hd2 : disk s2 = <[head_path cfg now rnd := []]> (disk s)) by done.
  assert (Hpc : Path c <> head_path cfg now rnd) by congruence.
  unfold seal, finalizeChunk, deref. rewrite Hoh2. rewrite !bind_Ret.
  cbn [Path TSuffix with_prev]. fold (rest_path cfg c).
  unfold os_Rename. rewrite Hd2. rewrite lookup_insert_ne by congruence. rewrite Hold.
  cbn [notifyListeners flushListeners no_listeners]. rewrite !bind_Ret.
  match goal with |- context [deleteRef (depth ?t) oh ?t] => set (s3 := t) end.
  assert (Hh3 : heap s3 = alter (with_path Rest (rest_path cfg c)) oh (heap s2)) by done.
  assert (Hrc3 : rc (heap s3) oh = Some (refcount c)).
  { unfold rc. rewrite Hh3, lookup_alter_eq, Hoh2. done. }
  unfold depth. rewrite (deleteRef_held _ oh s3 _ Hrc3 Hrc).
  rewrite !bind_Ret. cbn [notifyListeners newChunkListeners no_listeners].
  rewrite !bind_Ret.
  f_equal. f_equal. apply state_ext; try done.
  - (* the heap *)
    change (alter (fun c => with_refcount (int32 (refcount c + -1)) c) oh (heap s3)
            = heap (rolled cfg now rnd s oh c old)).
    rewrite Hh3, Hh2, Hlh. unfold rolled. cbn [heap]. fold p.
    apply map_eq. intros x.
    destruct (decide (x = p)) as [->|Hxp]; [|destruct (decide (x = oh)) as [->|Hxo]].
    + simplify_map_eq. done.
    + simplify_map_eq. unfold sealed, with_refcount, with_path, with_prev. cbn.
      f_equal. f_equal. rewrite int32_id; lia.
    + by simplify_map_eq.
Qed.

Lemma newChunk_starts (now rnd : Z) (s : State) :
  (forall w, writer s = Some w -> f_closed w = false) ->
  chunks_first (chunks s) = None ->
  disk s !! head_path cfg now rnd = None ->
  newChunk cfg no_listeners now rnd s
  = Ret (inr (new_ptr (heap s)), started cfg now rnd s).
Proof.
  intros Hw Hfirst Hnew.
  pose proof (new_ptr_fresh (heap s)) as Hfresh.
  unfold newChunk. cbv zeta. fold (head_path cfg now rnd).
  cbn [Path]. unfold os_Create. cbn [disk set_heap]. rewrite Hnew.
  match goal with |- context [close_writer ?s0] =>
    destruct (close_writer_open s0) as (Hcl & Hh & Hd & Hq & Hpos); [exact Hw|];
    destruct (close_writer s0) as [err s1] end.
  simpl in Hcl, Hh, Hd, Hq, Hpos. subst err.
  rewrite Hq, Hfirst.
  set (p := new_ptr (heap s)) in *.
  destruct (link_newest_fields p s1) as (Hlh & Hlq & Hld).
  rewrite Hq, Hfirst, Hh in Hlh. rewrite Hq, Hfirst in Hlq. rewrite Hd in Hld.
  cbn [seal notifyListeners newChunkListeners no_listeners]. rewrite !bind_Ret.
  f_equal. f_equal. apply state_ext; try done.
  - change (alter (fun c => with_refcount (int32 (refcount c + 1)) c) p
              (heap (link_newest p s1)) = heap (started cfg now rnd s)).
    rewrite Hlh. unfold started. cbn [heap]. fold p.
    apply map_eq. intros x. destruct (decide (x = p)) as [->|Hxp].
    + simplify_map_eq. done.
    + by simplify_map_eq.
Qed.


(** A write into the chunk the writer is on. *)
Lemma Write_appends (data : list Byte.byte) (now rnd : Z) (s : State) (w : File) :
  writer s = Some w -> f_closed w = false ->
  0 <= position s -> 0 <= maxSize cfg < 2 ^ 63 ->
  position s + Z.of_nat (length data) <= maxSize cfg ->
  Write cfg no_listeners data now rnd s
  = Ret (None,
         set_position (position s + Z.of_nat (length data))
           (set_disk match disk s !! f_path w with
                     | Some old => <[f_path w := old ++ data]> (disk s)
                     | None => disk s
                     end s)).
Proof.
  intros Hw Hopen Hpos Hmax Hfit. unfold Write. rewrite Hw.
  rewrite (int64_id (maxSize cfg - position s)) by lia.
  destruct (maxSize cfg - position s <? Z.of_nat (length data)) eqn:E; [lia|].
  simpl. rewrite Hw. unfold file_Write. rewrite Hopen.
  destruct (disk s !! f_path w); simpl; rewrite Z.eqb_refl; simpl;
    rewrite int64_id by lia; done.
Qed.

(** What [Write] does with the bytes once [newChunk] has given the state
    [s1] with a new head file. *)
Lemma write_into_new_head (data : list Byte.byte) (now rnd : Z) (s1 : State) :
  writer s1 = Some (mkFile (head_path cfg now rnd) false) -> position s1 = 0 ->
  disk s1 !! head_path cfg now rnd = Some [] ->
  Z.of_nat (length data) < 2 ^ 63 ->
  match writer s1 with
  | None => Panic "invalid memory address or nil pointer dereference"
  | Some w =>
    match file_Write w data (disk s1) with
    | (_, Some e, d) => Ret (Some e, set_disk d s1)
    | (n, None, d) =>
      if negb (n =? Z.of_nat (length data))
      then Ret (Some "not all data could be written"%string, set_disk d s1)
      else Ret (None, set_position (int64 (position s1 + n)) (set_disk d s1))
    end
  end
  = Ret (None, set_position (Z.of_nat (length data))
                 (set_disk (<[head_path cfg now rnd := data]> (disk s1)) s1)).
Proof.
  intros Hw Hpos Hfile Hlen. rewrite Hw. unfold file_Write. cbn [f_closed f_path].
  rewrite Hfile. rewrite Z.eqb_refl. cbn [negb app]. rewrite Hpos.
  rewrite int64_id by lia. done.
Qed.

(** A write that rolls over. *)
Lemma Write_rolls (data : list Byte.byte) (now rnd : Z) (s : State) (w : File)
    (oh : ptr) (c : FileJournalChunk) (old : list Byte.byte) :
  writer s = Some w -> f_closed w = false ->
  0 <= position s < 2 ^ 63 -> 0 <= maxSize cfg < 2 ^ 63 ->
  Z.of_nat (length data) < 2 ^ 63 ->
  position s + Z.of_nat (length data) > maxSize cfg ->
  chunks_first (chunks s) = Some oh -> heap s !! oh = Some c ->
  2 <= refcount c < 2 ^ 31 ->
  disk s !! Path c = Some old ->
  disk s !! head_path cfg now rnd = None ->
  rest_path cfg c <> head_path cfg now rnd ->
  Write cfg no_listeners data now rnd s
  = Ret (None,
         set_position (Z.of_nat (length data))
           (set_disk (<[head_path cfg now rnd := data]>
                        (disk (rolled cfg now rnd s oh c old)))
                     (rolled cfg now rnd s oh c old))).
Proof.
  intros Hw Hopen Hpos Hmax Hlen Hgrow Hfirst Hc Hrc Hold Hnew Hne.
  unfold Write. rewrite Hw.
  rewrite (int64_id (maxSize cfg - position s)) by lia.
  destruct (maxSize cfg - position s <? Z.of_nat (length data)) eqn:E; [|lia].
  rewrite (newChunk_rolls now rnd s oh c old); try done.
  - rewrite !bind_Ret. apply write_into_new_head; try done.
    unfold rolled. cbn [disk].
    assert (Path c <> head_path cfg now rnd) by congruence.
    by simplify_map_eq.
  - intros w' Hw'. congruence.
Qed.

(** The first write of a journal. *)
Lemma Write_starts (data : list Byte.byte) (now rnd : Z) (s : State) :
  writer s = None -> chunks_first (chunks s) = None ->
  Z.of_nat (length data) < 2 ^ 63 ->
  disk s !! head_path cfg now rnd = None ->
  Write cfg no_listeners data now rnd s
  = Ret (None,
         set_position (Z.of_nat (length data))
           (set_disk (<[head_path cfg now rnd := data]> (disk (started cfg now rnd s)))
                     (started cfg now rnd s))).
Proof.
  intros Hw Hfirst Hlen Hnew.
  unfold Write. rewrite Hw, Hfirst.
  rewrite (newChunk_starts now rnd s); try done.
  - rewrite !bind_Ret. apply write_into_new_head; try done.
    unfold started. cbn [disk]. by simplify_map_eq.
  - intros w' Hw'. congruence.
Qed.

(** ** The size check of [Write] *)

(** X23.  The size check of [Write] on a journal without listeners.  With a
    writer open, [Write] checks the size before it writes.  When the bytes
    fit ([position + len(data) <= maxSize]) they are appended, whole, to the
    file the writer is on, and no chunk is made.  When they do not fit and
    the old head has its file and a reference count of two or more (the
    list's reference and the writer's), and the name of the new head file
    is free and is not the sealed name of the old head, [newChunk] runs
    first: the old head is sealed under its [Rest]
    name with the contents it had, a new head chunk is linked in front of
    it, and the bytes are written, whole, into the new file, which holds
    nothing else; no other file changes.  A record longer than [maxSize]
    never fits, so it goes whole into a chunk of its own. *)
Theorem Write_checks_size_first (data : list Byte.byte) (now rnd : Z) (s : State)
    (w : File) :
  writer s = Some w -> f_closed w = false ->
  0 <= position s < 2 ^ 63 -> 0 <= maxSize cfg < 2 ^ 63 ->
  Z.of_nat (length data) < 2 ^ 63 ->
  let n := Z.of_nat (length data) in
  let p := new_ptr (heap s) in
  let new := head_path cfg now rnd in
  (position s + n <= maxSize cfg ->
     exists s', Write cfg no_listeners data now rnd s = Ret (None, s') /\
       heap s' = heap s /\ chunks s' = chunks s /\ writer s' = writer s /\
       position s' = position s + n /\
       (forall old, disk s !! f_path w = Some old ->
          disk s' = <[f_path w := old ++ data]> (disk s))) /\
  (position s + n > maxSize cfg ->
     forall oh c old,
       chunks_first (chunks s) = Some oh -> heap s !! oh = Some c ->
       2 <= refcount c < 2 ^ 31 -> disk s !! Path c = Some old ->
       disk s !! new = None -> rest_path cfg c <> new ->
       exists s', Write cfg no_listeners data now rnd s = Ret (None, s') /\
         heap s !! p = None /\ chunks_first (chunks s') = Some p /\
         heap s' !! p = Some (new_head cfg now rnd (Some oh)) /\
         heap s' !! oh = Some (sealed cfg p c) /\
         writer s' = Some (mkFile new false) /\ position s' = n /\
         disk s' !! new = Some data /\
         disk s' !! rest_path cfg c = Some old /\
         (forall pth, pth <> new -> pth <> rest_path cfg c -> pth <> Path c ->
            disk s' !! pth = disk s !! pth)) /\
  (n > maxSize cfg -> position s + n > maxSize cfg).
Proof.
  intros Hw Hopen Hpos Hmax Hlen n p new. split; [|split].
  - intros Hfit. eexists.
    split; [apply (Write_appends data now rnd s w Hw Hopen (proj1 Hpos) Hmax Hfit)|].
    split; [done|]. split; [done|]. split; [done|]. split; [done|].
    intros old Hold. cbn [disk set_position set_disk]. by rewrite Hold.
  - intros Hgrow oh c old Hfirst Hc Hrc Hold Hnew Hne.
    eexists.
    split; [apply (Write_rolls data now rnd s w oh c old Hw Hopen Hpos Hmax Hlen Hgrow
                     Hfirst Hc Hrc Hold Hnew Hne)|].
    assert (Hpc : Path c <> new) by congruence.
    assert (Hp : oh <> p).
    { unfold p. pose proof (new_ptr_fresh (heap s)). congruence. }
    split; [apply new_ptr_fresh|]. split; [done|].
    unfold rolled. cbn [heap disk writer position set_position set_disk]. fold p. fold new.
    split; [by simplify_map_eq|]. split; [by simplify_map_eq|].
    split; [done|]. split; [done|].
    split; [by simplify_map_eq|]. split; [by simplify_map_eq|].
    intros pth H1 H2 H3. by simplify_map_eq.
  - lia.
Qed.

End RollOver.

Lemma Write_checks_size_first_witness :
  let s := three_chunks in
  let w := mkFile "/tmp/j.s.b12297.log" false in
  writer s = Some w /\ f_closed w = false /\
  0 <= position s < 2 ^ 63 /\ 0 <= maxSize example_cfg < 2 ^ 63 /\
  Z.of_nat (length AAA) < 2 ^ 63 /\
  exists s', Write (codec := SampleCodec.codec) example_cfg no_listeners AAA 4 1 s
             = Ret (None, s') /\
    disk s' !! "/tmp/j.s.b16385.log"%string = Some AAA /\
    disk s' !! "/tmp/j.s.q12297.log"%string = Some CCC.
Proof.
  intros s w.
  assert (H1 : writer s = Some w) by reflexivity.
  assert (H2 : f_closed w = false) by reflexivity.
  assert (H3 : 0 <= position s < 2 ^ 63) by (vm_compute; split; congruence).
  assert (H4 : 0 <= maxSize example_cfg < 2 ^ 63) by (vm_compute; split; congruence).
  assert (H5 : Z.of_nat (length AAA) < 2 ^ 63) by reflexivity.
  split; [exact H1|]. split; [exact H2|]. split; [exact H3|]. split; [exact H4|].
  split; [exact H5|].
  destruct (Write_checks_size_first (codec := SampleCodec.codec) example_cfg AAA 4 1 s w
              H1 H2 H3 H4 H5) as (_ & Hroll & _).
  destruct (Hroll ltac:(vm_compute; reflexivity) 2%nat
              (mkChunk (Some 1%nat) None "/tmp/j.s.b12297.log" Head "12297" 0
                       (list_byte_of_string "12297") 2)
              CCC eq_refl eq_refl ltac:(vm_compute; split; congruence) eq_refl eq_refl
              ltac:(vm_compute; discriminate))
    as (s' & Hrun & _ & _ & _ & _ & _ & _ & Hnew & Hold & _).
  exists s'. split; [exact Hrun|]. split; [exact Hnew|exact Hold].
Defined.
(** ** A roll-over after a consumed chunk *)

(** C7. A [Write] that has to roll over and panics instead.  The journal has
    one flush listener, which takes the ownership of the chunk it is told
    about and disposes its handle.  The first write makes the head chunk;
    the second does not fit, rolls over and is written whole into the new
    head file.  That roll-over leaves the new head chunk, which the list
    and the writer hold, with the reference count 1: the old head, given
    back by the listener, goes to zero when [newChunk] releases the
    reference of the writer, and [deleteRef] passes the decrement on to the
    new head.  The third write does not fit either; its roll-over panics in
    [deleteRef] before a byte is written. *)
Theorem Write_after_consumed_rollover_panics :
  exists s1 s2 : State,
    Write (codec := SampleCodec.codec) example_cfg consuming AAA 1 5 empty_journal
    = Ret (None, s1) /\
    Write (codec := SampleCodec.codec) example_cfg consuming BBB 2 5 s1 = Ret (None, s2) /\
    chunks s2 = mkDequeue (Some 1%nat) (Some 1%nat) 1 /\
    writer s2 = Some (mkFile "/tmp/j.s.b8197.log" false) /\
    disk s2 !! "/tmp/j.s.b8197.log"%string = Some BBB /\
    rc (heap s2) 1%nat = Some 1 /\
    maxSize example_cfg < position s2 + Z.of_nat (length CCC) /\
    Write (codec := SampleCodec.codec) example_cfg consuming CCC 3 5 s2
    = Panic "something went wrong!".
Proof.
  set (s1 := state_of (Write (codec := SampleCodec.codec) example_cfg consuming AAA 1 5
                             empty_journal)).
  set (s2 := state_of (Write (codec := SampleCodec.codec) example_cfg consuming BBB 2 5 s1)).
  exists s1, s2.
  split; [vm_compute; reflexivity|].
  split; [vm_compute; reflexivity|].
  split; [vm_compute; reflexivity|].
  split; [vm_compute; reflexivity|].
  split; [vm_compute; reflexivity|].
  split; [vm_compute; reflexivity|].
  split; [vm_compute; reflexivity|].
  vm_compute. reflexivity.
Qed.
(** ** [Purge] twice on a journal with a missing file *)

(** C8. [Purge] twice is not [Purge] once on the journal that
    [GetJournalGroup] recovers from the directory with a foreign file.  Both
    calls return the error of the file that is missing.  The first one leaves
    the chunk list and the disk as they are, and the head chunk, which the
    list and the writer hold, with the reference count 1: the undo in
    [deleteRef] gives back the decrement of the chunk itself, not the one
    that was passed on to the newer chunk.  The second one takes the head
    chunk to zero, removes its file, which is the file the writer is on, and
    unlinks it. *)
Theorem Purge_twice_unlinks_head :
  opened_journal
    (GetJournalGroup (codec := SampleCodec.codec) (NewFileJournalGroupFactory ".log" 4)
       "/tmp/j.*.log" 7%nat ∅ (Directory foreign_names) foreign_disk)
    "s" foreign_disk = Some foreign_journal /\
  exists (e : error) (s1 s2 : State),
    Purge foreign_journal = Ret (Some e, s1) /\
    Purge s1 = Ret (Some e, s2) /\
    chunks s1 = mkDequeue (Some 1%nat) (Some 0%nat) 2 /\
    chunks s2 = mkDequeue (Some 0%nat) (Some 0%nat) 1 /\
    rc (heap foreign_journal) 1%nat = Some 2 /\
    rc (heap s1) 1%nat = Some 1 /\
    rc (heap s2) 1%nat = Some 0 /\
    disk s1 = disk foreign_journal /\
    disk s1 !! "/tmp/j.s.b8199.log"%string = Some BBB /\
    disk s2 !! "/tmp/j.s.b8199.log"%string = None /\
    writer s2 = Some (mkFile "/tmp/j.s.b8199.log" false).
Proof.
  split; [vm_compute; reflexivity|].
  set (s1 := state_of (Purge foreign_journal)).
  set (s2 := state_of (Purge s1)).
  exists "remove /tmp/j.s.q4101.log: no such file or directory"%string, s1, s2.
  split; [vm_compute; reflexivity|].
  split; [vm_compute; reflexivity|].
  split; [vm_compute; reflexivity|].
  split; [vm_compute; reflexivity|].
  split; [vm_compute; reflexivity|].
  split; [vm_compute; reflexivity|].
  split; [vm_compute; reflexivity|].
  split; [vm_compute; reflexivity|].
  split; [vm_compute; reflexivity|].
  split; [vm_compute; reflexivity|].
  vm_compute. reflexivity.
Qed.

(** ** Moving a chunk from the list to the result *)

Lemma sort_move_spec (h : gmap ptr FileJournalChunk) (result : FileJournalChunkDequeue)
    (R S1 S2 : list ptr) (x : ptr) :
  NoDup (R ++ S1 ++ x :: S2) ->
  dseg h None (S1 ++ x :: S2) None ->
  dseg h None R None ->
  chunks_first result = head R -> chunks_last result = last R ->
  exists h',
    sort_move x h result
    = Ret (h', mkDequeue (head (R ++ [x])) (Some x) (chunks_count result)) /\
    dseg h' None (S1 ++ S2) None /\
    dseg h' None (R ++ [x]) None /\
    (forall y, static h' y = static h y) /\
    (forall y, rc h' y = rc h y).
Proof.
  intros Hnd Hseg HR Hfirst Hlast.
  apply NoDup_app in Hnd as (HndR & Hdisj & HndS).
  assert (HxR : x ∉ R).
  { intros Hin. apply (Hdisj x Hin). apply elem_of_app. right. left. }
  pose proof HndS as HndS'.
  apply NoDup_app in HndS' as (Hnd1 & Hd12 & Hnd2').
  apply NoDup_cons in Hnd2' as (Hx2 & Hnd2).
  assert (Hx1 : x ∉ S1).
  { intros Hin. apply (Hd12 x Hin). left. }
  pose proof Hseg as Hseg'.
  apply dseg_app in Hseg' as [Hseg1 [Hx Hseg2]]. simpl in Hseg1.
  unfold sort_move. unfold links in Hx.
  destruct (h !! x) as [c|] eqn:Hc; [|done]. simpl in Hx.
  assert (Hpv : head_prev c = last_or S1 None) by congruence.
  assert (Hnx : head_next c = hd_or S2 None) by congruence.
  rewrite Hpv, Hnx, Hlast.
  (* the heap after the chunk has been taken out of its list *)
  set (h1 := match last_or S1 None with
             | Some pp => alter (with_next (hd_or S2 None)) pp h
             | None => h
             end).
  set (h2 := match hd_or S2 None with
             | Some nn => alter (with_prev (last_or S1 None)) nn h1
             | None => h1
             end).
  assert (Hst2 : forall y, static h2 y = static h y).
  { intros y. unfold h2, h1.
    destruct (hd_or S2 None), (last_or S1 None);
      rewrite ?static_alter_prev, ?static_alter_next; done. }
  assert (Hrc2 : forall y, rc h2 y = rc h y).
  { intros y. unfold h2, h1.
    destruct (hd_or S2 None), (last_or S1 None);
      rewrite ?rc_alter_prev, ?rc_alter_next; done. }
  assert (Hl2 : forall y, y ∉ S1 -> y ∉ S2 -> links h2 y = links h y).
  { intros y Hy1 Hy2. unfold h2, h1.
    destruct S2 as [|n2 S2']; destruct S1 as [|m0 S1' _] using rev_ind; simpl;
      rewrite ?last_or_snoc; try done.
    - rewrite links_alter_next, decide_False; [done|]. intros ->. apply Hy1.
      apply elem_of_app. right. left.
    - rewrite links_alter_prev, decide_False; [done|]. intros ->. apply Hy2. left.
    - rewrite links_alter_prev, decide_False.
      + rewrite links_alter_next, decide_False; [done|]. intros ->. apply Hy1.
        apply elem_of_app. right. left.
      + intros ->. apply Hy2. left. }
  assert (Hseg12 : dseg h2 None (S1 ++ S2) None).
  { unfold h2, h1.
    destruct S2 as [|n2 S2']; destruct S1 as [|m0 S1' _] using rev_ind; simpl;
      rewrite ?last_or_snoc, ?app_nil_r.
    - done.
    - apply dseg_set_next with (nn := Some x); done.
    - apply (dseg_set_prev h S2' n2 None (Some x) None); done.
    - assert (Hmn : m0 <> n2).
      { intros ->. apply (Hd12 n2); [apply elem_of_app; right; left|]. right. left. }
      apply dseg_app. simpl. rewrite last_or_snoc. split.
      + apply dseg_frame with (h := alter (with_next (Some n2)) m0 h).
        * intros y Hy. rewrite links_alter_prev, decide_False; [done|].
          intros Heq. apply (Hd12 y Hy). rewrite <- Heq. right. left.
        * apply dseg_set_next with (nn := Some x); done.
      + apply (dseg_set_prev _ S2' n2 (Some m0) (Some x) None); [done|].
        apply dseg_frame with (h := h); [|done].
        intros y Hy. rewrite links_alter_next, decide_False; [done|].
        intros Heq. apply (Hd12 y); [rewrite <- Heq; apply elem_of_app; right; left|].
        by right. }
  assert (HR2 : dseg h2 None R None).
  { apply dseg_frame with (h := h); [|done]. intros y Hy. apply Hl2.
    - intros Hy1. apply (Hdisj y Hy). apply elem_of_app. by left.
    - intros Hy2. apply (Hdisj y Hy). apply elem_of_app. right. by right. }
  assert (Hx2' : links h2 x = links h x) by (by apply Hl2).
  fold h1. fold h2.
  destruct R as [|l R0 _] using rev_ind.
  - (* the result is empty *)
    simpl. eexists. split; [reflexivity|].
    split.
    { apply dseg_frame with (h := h2); [|done].
      intros y Hy. rewrite links_alter_next, links_alter_prev.
      rewrite !decide_False; [done| |]; intros ->;
        apply elem_of_app in Hy as [Hy|Hy]; done. }
    split.
    { simpl. split; [|done].
      rewrite links_alter_next, decide_True by done.
      rewrite links_alter_prev, decide_True by done.
      rewrite Hx2'. unfold links. rewrite Hc. done. }
    split.
    { intros y. by rewrite static_alter_next, static_alter_prev. }
    { intros y. by rewrite rc_alter_next, rc_alter_prev. }
  - (* the result ends with [l] *)
    rewrite last_snoc. simpl.
    assert (Hlx : l <> x).
    { intros ->. apply HxR. apply elem_of_app. right. left. }
    assert (Hhead : chunks_first result = head ((R0 ++ [l]) ++ [x])).
    { rewrite Hfirst. by destruct R0. }
    rewrite Hhead.
    eexists. split; [reflexivity|].
    split.
    { apply dseg_frame with (h := h2); [|done].
      intros y Hy. rewrite links_alter_next, links_alter_prev, links_alter_next.
      assert (Hyx : x <> y).
      { intros ->. apply elem_of_app in Hy as [Hy|Hy]; done. }
      assert (Hyl : l <> y).
      { intros ->. apply (Hdisj y); [apply elem_of_app; right; left|].
        apply elem_of_app in Hy as [Hy|Hy]; apply elem_of_app; [by left|].
        right. by right. }
      by rewrite !decide_False. }
    split.
    { apply dseg_app. simpl. rewrite last_or_snoc. split.
      - apply dseg_frame with (h := alter (with_next (Some x)) l h2).
        + intros y Hy. rewrite links_alter_next, links_alter_prev.
          rewrite !decide_False; [done| |]; intros ->; done.
        + apply dseg_set_next with (nn := None); done.
      - split; [|done].
        rewrite links_alter_next, decide_True by done.
        rewrite links_alter_prev, decide_True by done.
        rewrite links_alter_next, decide_False by done.
        rewrite Hx2'. unfold links. rewrite Hc. done. }
    split.
    { intros y. by rewrite static_alter_next, static_alter_prev, static_alter_next. }
    { intros y. by rewrite rc_alter_next, rc_alter_prev, rc_alter_next. }
Qed.

(** ** The merge loop *)

Lemma ts_of_static h h' y : static h' y = static h y -> ts_of h' y = ts_of h y.
Proof.
  unfold static, ts_of. destruct (h' !! y), (h !! y); simpl; congruence.
Qed.

Lemma merge_abs_cons (f : ptr -> Z) a l1 b l2 :
  merge_abs f (a :: l1) (b :: l2)
  = if bool_decide (f a < f b) then b :: merge_abs f (a :: l1) l2
    else a :: merge_abs f l1 (b :: l2).
Proof. reflexivity. Qed.

Lemma merge_abs_ext (f g : ptr -> Z) l1 : forall l2,
  (forall y, f y = g y) -> merge_abs f l1 l2 = merge_abs g l1 l2.
Proof.
  induction l1 as [|a l1 IH]; intros l2 H; [by destruct l2|].
  induction l2 as [|b l2 IH2]; [done|].
  rewrite !merge_abs_cons. rewrite (H a), (H b).
  destruct (bool_decide (g a < g b)).
  - f_equal. apply IH2.
  - f_equal. by apply IH.
Qed.

Lemma merge_abs_nil_r f l : merge_abs f l [] = l.
Proof. by destruct l. Qed.

Lemma merge_abs_nil_l f l : merge_abs f [] l = l.
Proof. by destruct l. Qed.

Lemma dseg_head_links h pp x l nn :
  dseg h pp (x :: l) nn -> exists c, h !! x = Some c /\ head_next c = hd_or l nn.
Proof.
  intros [Hl _]. unfold links in Hl. destruct (h !! x) as [c|]; [|done].
  exists c. split; [done|]. simpl in Hl. congruence.
Qed.

Lemma dseg_next_of h (l1 l2 : list ptr) x :
  dseg h None (l1 ++ x :: l2) None -> next_of h x = Ret (head l2).
Proof.
  intros H. apply dseg_app in H as [_ H].
  destruct (dseg_head_links _ _ _ _ _ H) as (c & Hc & Hn).
  unfold next_of. rewrite Hc, Hn. by destruct l2.
Qed.

Lemma dequeue_eta (q : FileJournalChunkDequeue) :
  mkDequeue (chunks_first q) (chunks_last q) (chunks_count q) = q.
Proof. by destruct q. Qed.

Lemma sort_merge_spec (fuel : nat) : forall (h : gmap ptr FileJournalChunk)
    (result : FileJournalChunkDequeue) (lhs : option ptr) (L T : list ptr) (r : nat)
    (R : list ptr),
  NoDup (R ++ L ++ T) -> dseg h None (L ++ T) None -> dseg h None R None ->
  chunks_first result = head R -> chunks_last result = last R ->
  (L <> [] -> lhs = head L) ->
  (length L + r < fuel)%nat ->
  exists m', sort_merge fuel (mkMerge h result lhs (head T) (length L) r) = Ret m' /\
    let M := merge_abs (ts_of h) L (take r T) in
    m_rhs m' = head (drop r T) /\
    chunks_first (m_result m') = head (R ++ M) /\
    chunks_last (m_result m') = last (R ++ M) /\
    chunks_count (m_result m') = chunks_count result /\
    dseg (m_heap m') None (drop r T) None /\
    dseg (m_heap m') None (R ++ M) None /\
    (forall y, static (m_heap m') y = static h y) /\
    (forall y, rc (m_heap m') y = rc h y).
Proof.
  induction fuel as [|fuel IH]; intros h result lhs L T r R Hnd Hseg HR Hfirst Hlast
    Hlhs Hfuel; [lia|].
  (* one step: the chunk [x] goes from the list [S1 ++ x :: S2] to the result *)
  assert (Hstep : forall x from_rhs S1 S2 L' T' r' lhs',
    L ++ T = S1 ++ x :: S2 -> L' ++ T' = S1 ++ S2 ->
    (L' <> [] -> lhs' = head L') ->
    (length L' + r' < fuel)%nat ->
    (forall n, next_of h x = Ret n ->
       (if from_rhs : bool
        then mkMerge h result lhs n (length L) (r - 1)
        else mkMerge h result n (head T) (length L - 1) r)
       = mkMerge h result lhs' (head T') (length L') r') ->
    exists m', (m1 ← sort_pick x from_rhs (mkMerge h result lhs (head T) (length L) r);
                sort_merge fuel m1) = Ret m' /\
      let M := x :: merge_abs (ts_of h) L' (take r' T') in
      m_rhs m' = head (drop r' T') /\
      chunks_first (m_result m') = head (R ++ M) /\
      chunks_last (m_result m') = last (R ++ M) /\
      chunks_count (m_result m') = chunks_count result /\
      dseg (m_heap m') None (drop r' T') None /\
      dseg (m_heap m') None (R ++ M) None /\
      (forall y, static (m_heap m') y = static h y) /\
      (forall y, rc (m_heap m') y = rc h y)).
  { intros x from_rhs S1 S2 L' T' r' lhs' HS HS' Hlhs' Hfuel' Hstate.
    rewrite HS in Hnd, Hseg.
    destruct (sort_move_spec h result R S1 S2 x Hnd Hseg HR Hfirst Hlast)
      as (h' & Hmove & Hseg' & HR' & Hst & Hrc).
    unfold sort_pick. cbn [m_heap m_result m_lhs m_rhs m_lhsSize m_rhsSize].
    rewrite (dseg_next_of h S1 S2 x Hseg). rewrite bind_Ret. rewrite Hmove, bind_Ret.
    rewrite bind_Ret.
    specialize (Hstate _ (dseg_next_of h S1 S2 x Hseg)).
    assert (Hm1 : (if from_rhs
                   then mkMerge h' (mkDequeue (head (R ++ [x])) (Some x)
                                              (chunks_count result))
                                lhs (head S2) (length L) (r - 1)
                   else mkMerge h' (mkDequeue (head (R ++ [x])) (Some x)
                                              (chunks_count result))
                                (head S2) (head T) (length L - 1) r)
                  = mkMerge h' (mkDequeue (head (R ++ [x])) (Some x)
                                          (chunks_count result))
                            lhs' (head T') (length L') r').
    { destruct from_rhs; injection Hstate as -> -> -> ->; done. }
    rewrite Hm1.
    destruct (IH h' (mkDequeue (head (R ++ [x])) (Some x) (chunks_count result))
                lhs' L' T' r' (R ++ [x])) as (m' & Hrun & H1 & H2 & H3 & H4 & H5 & H6 & H7 & H8).
    - rewrite <- app_assoc. rewrite HS'.
      apply NoDup_app in Hnd as (HndR & Hdisj & HndS).
      apply NoDup_app. split; [done|]. split.
      + intros y Hy Hy'. apply elem_of_cons in Hy' as [->|Hy'].
        * apply (Hdisj x Hy). apply elem_of_app. right. left.
        * apply (Hdisj y Hy). apply elem_of_app in Hy' as [?|?]; apply elem_of_app;
            [by left | right; by right].
      + apply NoDup_cons. split.
        * apply NoDup_app in HndS as (_ & Hd & Hx2). apply NoDup_cons in Hx2 as [Hx2 _].
          intros Hin. apply elem_of_app in Hin as [Hin|Hin]; [|done].
          apply (Hd x Hin). left.
        * apply NoDup_app in HndS as (Hn1 & Hd & Hx2). apply NoDup_cons in Hx2 as [_ Hn2].
          apply NoDup_app. split; [done|]. split; [|done].
          intros y Hy Hy'. apply (Hd y Hy). by right.
    - by rewrite HS'.
    - done.
    - simpl. by destruct R.
    - simpl. by rewrite last_snoc.
    - done.
    - done.
    - exists m'. split; [exact Hrun|].
      assert (Hts : merge_abs (ts_of h') L' (take r' T') = merge_abs (ts_of h) L' (take r' T')).
      { apply merge_abs_ext. intros y. apply ts_of_static, Hst. }
      rewrite Hts in *. cbn zeta.
      rewrite <- app_assoc in H2, H3, H6. simpl in H2, H3, H6.
      split; [done|]. split; [done|]. split; [done|]. split; [done|]. split; [done|].
      split; [done|]. split.
      + intros y. by rewrite H7.
      + intros y. by rewrite H8. }
  cbn [sort_merge]. unfold sort_choose.
  cbn [m_heap m_result m_lhs m_rhs m_lhsSize m_rhsSize].
  destruct L as [|a L'].
  - (* the left run is used up *)
    simpl length. cbn [Nat.eqb negb].
    destruct T as [|b T'].
    + (* nothing is left *)
      cbn [head]. rewrite bind_Ret. eexists. split; [reflexivity|].
      cbn [m_rhs m_heap m_result]. rewrite drop_nil, take_nil, merge_abs_nil_l, app_nil_r.
      split_and!; done.
    + cbn [head]. destruct r as [|r'].
      * cbn [Nat.eqb negb]. rewrite bind_Ret. eexists. split; [reflexivity|].
        cbn [m_rhs m_heap m_result]. rewrite drop_0, take_0, merge_abs_nil_l, app_nil_r.
        split_and!; done.
      * cbn [Nat.eqb negb]. rewrite bind_Ret.
        destruct (Hstep b true [] T' [] T' r' lhs) as (m' & Hrun & Hrest); try done.
        { simpl in Hfuel. simpl. lia. }
        { intros n Hn. simpl. rewrite Nat.sub_0_r.
          rewrite (dseg_next_of h [] T' b Hseg) in Hn. by injection Hn as <-. }
        exists m'. split; [exact Hrun|]. simpl take. simpl drop.
        rewrite merge_abs_nil_l in *. exact Hrest.
  - (* the left run starts with [a] *)
    simpl length. cbn [Nat.eqb negb]. rewrite (Hlhs ltac:(done)). cbn [head].
    assert (Hpick_lhs : exists m',
      (m1 ← sort_pick a false (mkMerge h result (Some a) (head T) (S (length L')) r);
       sort_merge fuel m1) = Ret m' /\
      let M := a :: merge_abs (ts_of h) L' (take r T) in
      m_rhs m' = head (drop r T) /\
      chunks_first (m_result m') = head (R ++ M) /\
      chunks_last (m_result m') = last (R ++ M) /\
      chunks_count (m_result m') = chunks_count result /\
      dseg (m_heap m') None (drop r T) None /\
      dseg (m_heap m') None (R ++ M) None /\
      (forall y, static (m_heap m') y = static h y) /\
      (forall y, rc (m_heap m') y = rc h y)).
    { rewrite (Hlhs ltac:(done)) in Hstep. simpl in Hstep.
      apply (Hstep a false [] (L' ++ T) L' T r (head (L' ++ T))); try done.
      - intros HL'. by destruct L'.
      - simpl in Hfuel. lia.
      - intros n Hn. simpl. rewrite Nat.sub_0_r.
        rewrite (dseg_next_of h [] (L' ++ T) a Hseg) in Hn. by injection Hn as <-. }
    destruct T as [|b T'].
    + cbn [head] in *. rewrite bind_Ret. destruct Hpick_lhs as (m' & Hrun & Hrest).
      exists m'. split; [exact Hrun|]. rewrite take_nil, ?drop_nil in *.
      rewrite merge_abs_nil_r in *. exact Hrest.
    + cbn [head]. destruct r as [|r'].
      * cbn [Nat.eqb negb]. rewrite bind_Ret.
        destruct Hpick_lhs as (m' & Hrun & Hrest).
        exists m'. split; [exact Hrun|]. simpl take in *.
        rewrite merge_abs_nil_r in *. exact Hrest.
      * cbn [Nat.eqb negb].
        assert (Ha : is_Some (h !! a)).
        { apply (dseg_lookup _ _ _ _ a Hseg). left. }
        assert (Hb : is_Some (h !! b)).
        { apply (dseg_lookup _ _ _ _ b Hseg). apply elem_of_app. right. left. }
        destruct Ha as [ca Hca]. destruct Hb as [cb Hcb].
        unfold timestamp_lt. rewrite Hca, Hcb. rewrite !bind_Ret.
        simpl take. rewrite merge_abs_cons.
        assert (Hta : ts_of h a = Timestamp ca) by (unfold ts_of; by rewrite Hca).
        assert (Htb : ts_of h b = Timestamp cb) by (unfold ts_of; by rewrite Hcb).
        rewrite Hta, Htb.
        destruct (bool_decide (Timestamp ca < Timestamp cb)).
        -- rewrite (Hlhs ltac:(done)) in Hstep. simpl in Hstep.
           destruct (Hstep b true (a :: L') T' (a :: L') T' r' (Some a))
             as (m' & Hrun & Hrest); try done.
           { simpl in Hfuel. simpl. lia. }
           { intros n Hn. simpl. rewrite Nat.sub_0_r.
             rewrite (dseg_next_of h (a :: L') T' b Hseg) in Hn. by injection Hn as <-. }
           exists m'. split; [exact Hrun|]. exact Hrest.
        -- exact Hpick_lhs.
Qed.

(** ** The merge sort on lists *)

Section SortPure.

Variable ts : ptr -> Z.

#[local] Instance newest_first_dec : RelDecision (newest_first ts).
Proof. intros a b. unfold newest_first. apply _. Defined.

#[local] Instance newest_first_total : Total (newest_first ts).
Proof. intros a b. unfold newest_first. lia. Qed.

#[local] Instance newest_first_trans : Transitive (newest_first ts).
Proof. intros a b c. unfold newest_first. lia. Qed.

Lemma merge_abs_list_merge (l1 l2 : list ptr) :
  merge_abs ts l1 l2 = list_merge (newest_first ts) l1 l2.
Proof.
  revert l2. induction l1 as [|a l1 IH1]; intros l2; [by destruct l2|].
  induction l2 as [|b l2 IH2]; [done|].
  rewrite merge_abs_cons, list_merge_cons.
  unfold newest_first at 1.
  destruct (decide (ts b <= ts a)) as [Hle|Hgt].
  - rewrite bool_decide_eq_false_2 by lia. by rewrite IH1.
  - rewrite bool_decide_eq_true_2 by lia. by rewrite IH2.
Qed.

Lemma merge_abs_perm (l1 l2 : list ptr) : merge_abs ts l1 l2 ≡ₚ l1 ++ l2.
Proof. rewrite merge_abs_list_merge. apply merge_Permutation. Qed.

Lemma merge_abs_sorted (l1 l2 : list ptr) :
  StronglySorted (newest_first ts) l1 -> StronglySorted (newest_first ts) l2 ->
  StronglySorted (newest_first ts) (merge_abs ts l1 l2).
Proof.
  intros H1 H2. rewrite merge_abs_list_merge.
  apply Sorted_StronglySorted; [apply _|].
  apply Sorted_list_merge; [apply _| |]; by apply StronglySorted_Sorted.
Qed.

Lemma merge_abs_length (l1 l2 : list ptr) :
  length (merge_abs ts l1 l2) = (length l1 + length l2)%nat.
Proof. rewrite (Permutation_length (merge_abs_perm l1 l2)). apply length_app. Qed.

Lemma left_run_lt (k : nat) (l : list ptr) : l <> [] -> (left_run k l < length l)%nat.
Proof. destruct l; [done|]. unfold left_run. simpl. lia. Qed.

Lemma pass_abs_nil (f k : nat) : pass_abs ts f k [] = [].
Proof. by destruct f. Qed.

Lemma pass_abs_fuel (k : nat) : (1 <= k)%nat -> forall (f1 f2 : nat) (l : list ptr),
  (length l <= f1)%nat -> (length l <= f2)%nat ->
  pass_abs ts f1 k l = pass_abs ts f2 k l.
Proof.
  intros Hk. induction f1 as [|f1 IH]; intros f2 l H1 H2.
  - destruct l; [|simpl in H1; lia]. by rewrite !pass_abs_nil.
  - destruct l as [|x l]; [by rewrite !pass_abs_nil|].
    destruct f2 as [|f2]; [simpl in H2; lia|].
    cbn [pass_abs]. f_equal.
    pose proof (left_run_lt k (x :: l) ltac:(done)) as Hlt.
    apply IH; rewrite !length_drop; simpl in *; lia.
Qed.

Lemma pass_abs_perm (k : nat) : forall (f : nat) (l : list ptr),
  (1 <= k)%nat -> (length l <= f)%nat -> pass_abs ts f k l ≡ₚ l.
Proof.
  induction f as [|f IH]; intros l Hk Hf.
  - destruct l; [done | simpl in Hf; lia].
  - destruct l as [|x l]; [done|].
    cbn [pass_abs].
    pose proof (left_run_lt k (x :: l) ltac:(done)) as Hlt.
    rewrite merge_abs_perm, IH.
    + rewrite <- app_assoc, take_drop, take_drop. done.
    + done.
    + rewrite !length_drop. simpl in *. lia.
Qed.

Lemma runs_short (k : nat) (l : list ptr) :
  runs ts k l -> (length l <= k)%nat -> StronglySorted (newest_first ts) l.
Proof.
  intros H. induction H as [l Hl Hs|b l Hb Hs Hr IH]; [done|].
  intros Hlen. rewrite length_app in Hlen.
  assert (l = []) as -> by (apply nil_length_inv; lia).
  by rewrite app_nil_r.
Qed.

Lemma pass_abs_short (k f : nat) (l : list ptr) :
  (1 <= k)%nat -> (length l <= k)%nat -> (length l <= S f)%nat -> l <> [] ->
  pass_abs ts (S f) k l
  = merge_abs ts (take (length l - 1) l) (drop (length l - 1) l).
Proof.
  intros Hk Hl Hf Hne. destruct l as [|x l]; [done|].
  cbn [pass_abs].
  assert (Hrun : left_run k (x :: l) = (length (x :: l) - 1)%nat).
  { unfold left_run. simpl in *. lia. }
  rewrite Hrun.
  rewrite (take_ge (drop _ _)) by (rewrite length_drop; simpl; lia).
  rewrite (drop_ge (drop _ _)) by (rewrite length_drop; simpl; lia).
  by rewrite pass_abs_nil, app_nil_r.
Qed.

Lemma pass_abs_runs (k : nat) : (1 <= k)%nat -> forall (f : nat) (l : list ptr),
  runs ts k l -> (length l <= f)%nat -> runs ts (k * 2) (pass_abs ts f k l).
Proof.
  intros Hk. induction f as [|f IH]; intros l Hr Hf.
  - destruct l; [|simpl in Hf; lia]. simpl. apply runs_last; [simpl; lia|constructor].
  - destruct (decide (l = [])) as [->|Hne].
    { simpl. apply runs_last; [simpl; lia|constructor]. }
    destruct (decide (length l <= k)%nat) as [Hshort|Hlong].
    + (* one run: its last chunk is merged into the others *)
      rewrite pass_abs_short by done.
      pose proof (runs_short k l Hr Hshort) as Hs.
      rewrite <- (take_drop (length l - 1) l) in Hs.
      apply runs_last.
      * rewrite merge_abs_length, <- length_app, take_drop. lia.
      * apply merge_abs_sorted.
        -- by apply StronglySorted_app_1_l in Hs.
        -- by apply StronglySorted_app_1_r in Hs.
    + (* a whole run on the left *)
      inversion Hr as [l0 Hl0 Hs0 | b l1 Hb Hsb Hr1]; subst; [lia|].
      rewrite length_app in Hlong, Hf.
      destruct l1 as [|y l1]; [simpl in Hlong; lia|].
      assert (Hrun : left_run (length b) (b ++ y :: l1) = length b).
      { unfold left_run. rewrite length_app. simpl. lia. }
      destruct b as [|x b]; [simpl in Hk; lia|].
      cbn [pass_abs app]. change (x :: b ++ y :: l1) with ((x :: b) ++ y :: l1).
      rewrite Hrun. rewrite take_app_length, drop_app_length.
      inversion Hr1 as [l0 Hl0 Hs0 | b' l2 Hb' Hsb' Hr2]; subst.
      * rewrite take_ge, drop_ge by done. rewrite pass_abs_nil, app_nil_r.
        apply runs_last; [rewrite merge_abs_length; lia|].
        by apply merge_abs_sorted.
      * rewrite <- Hb'. rewrite take_app_length, drop_app_length.
        apply runs_block.
        -- rewrite merge_abs_length. lia.
        -- by apply merge_abs_sorted.
        -- rewrite Hb'. apply IH; [done|].
           rewrite <- H in Hf. rewrite length_app in Hf. simpl in *. lia.
Qed.

Lemma runs_one (l : list ptr) : runs ts 1 l.
Proof.
  induction l as [|x l IH].
  - apply runs_last; [simpl; lia | constructor].
  - change (x :: l) with ([x] ++ l). apply runs_block; [done| |done].
    repeat constructor.
Qed.

Lemma loop_abs_sorted : forall (f k : nat) (l : list ptr),
  (1 <= k)%nat -> runs ts k l -> (1 <= f)%nat -> (length l <= (f - 1) + k * 2)%nat ->
  StronglySorted (newest_first ts) (loop_abs ts f k l) /\ loop_abs ts f k l ≡ₚ l.
Proof.
  induction f as [|f IH]; intros k l Hk Hr Hf Hlen; [lia|].
  cbn [loop_abs].
  pose proof (pass_abs_perm k (length l) l Hk ltac:(done)) as Hperm.
  pose proof (pass_abs_runs k Hk (length l) l Hr ltac:(done)) as Hruns.
  destruct (decide (length l <= left_run k l + k)%nat) as [Hone|Hmore].
  - split; [|done]. apply (runs_short (k * 2)); [done|].
    rewrite (Permutation_length Hperm). unfold left_run in Hone. lia.
  - assert (Hlong : (k * 2 < length l)%nat) by (unfold left_run in Hmore; lia).
    destruct (IH (k * 2)%nat (pass_abs ts (length l) k l)) as [Hs Hp]; try done; try lia.
    + rewrite (Permutation_length Hperm). lia.
    + split; [done|]. by rewrite Hp.
Qed.

Lemma pass_abs_ext (g : ptr -> Z) (k : nat) : forall (f : nat) (l : list ptr),
  (forall y, ts y = g y) -> pass_abs ts f k l = pass_abs g f k l.
Proof.
  induction f as [|f IH]; intros l H; [done|].
  destruct l as [|x l]; [done|]. cbn [pass_abs].
  rewrite (merge_abs_ext ts g) by done. f_equal. by apply IH.
Qed.

Lemma loop_abs_ext (g : ptr -> Z) : forall (f k : nat) (l : list ptr),
  (forall y, ts y = g y) -> loop_abs ts f k l = loop_abs g f k l.
Proof.
  induction f as [|f IH]; intros k l H; [done|].
  cbn [loop_abs]. rewrite (pass_abs_ext g) by done.
  destruct (decide _); [done|]. by apply IH.
Qed.

End SortPure.

(** ** The passes of [sortChunksByTimestamp] *)

Lemma left_run_cons (k : nat) (x y : ptr) (l : list ptr) :
  left_run (S k) (x :: y :: l) = S (left_run k (y :: l)).
Proof. unfold left_run. simpl. lia. Qed.

Lemma sort_advance_spec (h : gmap ptr FileJournalChunk) : forall (k : nat)
    (pp : option ptr) (x : ptr) (l : list ptr),
  dseg h pp (x :: l) None ->
  exists rhs, head (drop (left_run k (x :: l)) (x :: l)) = Some rhs /\
    sort_advance h k x = Ret ((k - left_run k (x :: l))%nat, rhs).
Proof.
  induction k as [|k IH]; intros pp x l Hseg.
  - exists x. split; [done|]. done.
  - destruct (dseg_head_links _ _ _ _ _ Hseg) as (c & Hc & Hn).
    cbn [sort_advance]. rewrite Hc, Hn.
    destruct l as [|y l].
    + exists x. split; [done|]. done.
    + cbn [hd_or]. destruct Hseg as [_ Hseg].
      destruct (IH (Some x) y l Hseg) as (rhs & Hrhs & Hrun).
      exists rhs. rewrite left_run_cons. split; [done|].
      rewrite Hrun. done.
Qed.

Lemma NoDup_perm_mid (R L1 L2 M : list ptr) :
  M ≡ₚ L1 -> NoDup (R ++ L1 ++ L2) -> NoDup ((R ++ M) ++ L2).
Proof. intros HM H. by rewrite <- app_assoc, HM. Qed.

Lemma sort_pass_spec (k : nat) : (1 <= k)%nat -> forall (fuel : nat)
    (h : gmap ptr FileJournalChunk) (result : FileJournalChunkDequeue)
    (R l : list ptr) (x : ptr) (first : bool),
  NoDup (R ++ l) -> head l = Some x ->
  dseg h None l None -> dseg h None R None ->
  chunks_first result = head R -> chunks_last result = last R ->
  (length l <= fuel)%nat ->
  exists h' result',
    sort_pass fuel k h result x first
    = Ret (h', result',
           if decide (length l <= left_run k l + k)%nat then first else false) /\
    let P := pass_abs (ts_of h) (length l) k l in
    chunks_first result' = head (R ++ P) /\
    chunks_last result' = last (R ++ P) /\
    chunks_count result' = chunks_count result /\
    dseg h' None (R ++ P) None /\
    (forall y, static h' y = static h y) /\
    (forall y, rc h' y = rc h y).
Proof.
  intros Hk. induction fuel as [|fuel IH];
    intros h result R l x first Hnd Hx Hseg HR Hfirst Hlast Hfuel.
  { destruct l; [done | simpl in Hfuel; lia]. }
  destruct l as [|x' l0]; [done|]. simpl in Hx. injection Hx as ->.
  set (l := x :: l0) in *.
  pose proof (left_run_lt k l ltac:(done)) as Hlt.
  assert (Hle : (left_run k l <= k)%nat) by (unfold left_run; lia).
  destruct (sort_advance_spec h k None x l0 Hseg) as (rhs & Hrhs & Hadv).
  fold l in Hrhs, Hadv.
  cbn [sort_pass]. rewrite Hadv, bind_Ret.
  replace (k - (k - left_run k l))%nat with (left_run k l) by lia.
  set (L := take (left_run k l) l). set (T := drop (left_run k l) l).
  assert (HLT : L ++ T = l) by apply take_drop.
  assert (HlenL : length L = left_run k l).
  { unfold L. rewrite length_take. lia. }
  destruct (sort_merge_spec (S (left_run k l + k)) h result (Some x) L T k R)
    as (m & Hm & Hrest); try done.
  - by rewrite HLT.
  - by rewrite HLT.
  - intros HL. unfold L, l in *. destruct (left_run k (x :: l0)); done.
  - lia.
  - fold T in Hrhs. rewrite Hrhs, HlenL in Hm. rewrite Hm, bind_Ret.
    cbn zeta in Hrest.
    destruct Hrest as (Hmr & Hmf & Hml & Hmc & HsegT & HsegR & Hst & Hrc).
    assert (HlenT : (length T = length l - left_run k l)%nat).
    { unfold T. by rewrite length_drop. }
    assert (Hpass : pass_abs (ts_of h) (length l) k l
                    = merge_abs (ts_of h) L (take k T)
                      ++ pass_abs (ts_of h) (length l - 1) k (drop k T)).
    { unfold l at 1 2. cbn [length pass_abs]. fold l.
      replace (length l - 1)%nat with (length l0) by (unfold l; simpl; lia). done. }
    rewrite Hmr. destruct (drop k T) as [|z T'] eqn:HT'.
    + (* the pass ends with this merge *)
      cbn [head].
      assert (Hend : (length l <= left_run k l + k)%nat).
      { apply (f_equal length) in HT'. rewrite length_drop in HT'. simpl in HT'. lia. }
      rewrite decide_True by done.
      eexists _, _. split; [reflexivity|]. cbn zeta.
      rewrite Hpass, pass_abs_nil, app_nil_r. done.
    + (* another merge follows *)
      cbn [head].
      assert (Hmore : ~ (length l <= left_run k l + k)%nat).
      { apply (f_equal length) in HT'. rewrite length_drop in HT'. simpl in HT'. lia. }
      rewrite decide_False by done.
      set (M := merge_abs (ts_of h) L (take k T)) in *.
      assert (HM : M ≡ₚ L ++ take k T) by apply merge_abs_perm.
      assert (HlenT' : (length (z :: T') < length l)%nat).
      { rewrite <- HT', length_drop. lia. }
      destruct (IH (m_heap m) (m_result m) (R ++ M) (z :: T') z false)
        as (h' & result' & Hrun & Hrest); try done.
      * rewrite <- app_assoc, HM, <- app_assoc, <- HT', take_drop, HLT. done.
      * lia.
      * exists h', result'. split.
        { rewrite Hrun. by destruct (decide _). }
        cbn zeta in *.
        assert (Hts : pass_abs (ts_of (m_heap m)) (length (z :: T')) k (z :: T')
                      = pass_abs (ts_of h) (length l - 1) k (z :: T')).
        { rewrite (pass_abs_ext _ (ts_of h)).
          - apply pass_abs_fuel; [done|lia|lia].
          - intros y. apply ts_of_static, Hst. }
        rewrite Hts in Hrest. rewrite Hpass. rewrite <- app_assoc in Hrest.
        destruct Hrest as (H1 & H2 & H3 & H4 & H5 & H6).
        split_and!; try done.
        -- congruence.
        -- intros y. by rewrite H5.
        -- intros y. by rewrite H6.
Qed.

Lemma sort_loop_spec : forall (fuel k : nat) (h : gmap ptr FileJournalChunk)
    (count : Z) (l : list ptr) (x : ptr),
  (1 <= k)%nat -> NoDup l -> head l = Some x -> dseg h None l None ->
  (1 <= fuel)%nat -> (length l <= (fuel - 1) + k * 2)%nat ->
  exists h' q',
    sort_loop fuel k h count x = Ret (h', q') /\
    dequeue_of h' q' (loop_abs (ts_of h) fuel k l) /\
    chunks_count q' = count /\
    (forall y, static h' y = static h y) /\
    (forall y, rc h' y = rc h y).
Proof.
  induction fuel as [|fuel IH]; intros k h count l x Hk Hnd Hx Hseg Hf Hlen; [lia|].
  assert (Hsize : (length l <= S (size h))%nat).
  { etrans; [apply (length_le_size h l Hnd)|lia].
    intros p Hp. by apply (dseg_lookup h None l None). }
  destruct (sort_pass_spec k Hk (S (size h)) h (mkDequeue None None count) [] l x true)
    as (h' & result' & Hrun & Hrest); try done.
  cbn zeta in Hrest. cbn [app] in Hrest.
  destruct Hrest as (H1 & H2 & H3 & H4 & H5 & H6).
  pose proof (pass_abs_perm (ts_of h) k (length l) l Hk ltac:(done)) as Hperm.
  cbn [sort_loop loop_abs]. rewrite Hrun, bind_Ret.
  destruct (decide (length l <= left_run k l + k)%nat) as [Hone|Hmore].
  - exists h', result'. split; [done|]. split_and!; try done.
    split; [by rewrite Hperm | done].
  - rewrite H1.
    destruct (pass_abs (ts_of h) (length l) k l) as [|x' P] eqn:HP.
    { apply Permutation_nil in Hperm. by subst l. }
    cbn [head].
    assert (Hlong : (k * 2 < length l)%nat) by (unfold left_run in Hmore; lia).
    destruct (IH (k * 2)%nat h' count (x' :: P) x') as (h2 & q2 & Hrun2 & Hq2 & Hc2 & Hs2 & Hr2);
      try done; try lia.
    + by rewrite Hperm.
    + rewrite (Permutation_length Hperm). lia.
    + exists h2, q2. split; [done|]. split_and!; try done.
      * rewrite <- (loop_abs_ext (ts_of h')); [done|].
        intros y. apply ts_of_static, H5.
      * intros y. by rewrite Hs2.
      * intros y. by rewrite Hr2.
Qed.

(** [sortChunksByTimestamp] returns, with the chunks from the newest
    timestamp to the oldest; it touches nothing but the links. *)
Lemma sortChunksByTimestamp_spec (h : gmap ptr FileJournalChunk)
    (q : FileJournalChunkDequeue) (l : list ptr) :
  dequeue_of h q l ->
  exists h' q' l',
    sortChunksByTimestamp h q = Ret (h', q') /\
    dequeue_of h' q' l' /\
    l' ≡ₚ l /\
    StronglySorted (newest_first (ts_of h)) l' /\
    chunks_count q' = chunks_count q /\
    (forall y, static h' y = static h y) /\
    (forall y, rc h' y = rc h y).
Proof.
  intros (Hnd & Hseg & Hfirst & Hlast).
  unfold sortChunksByTimestamp. rewrite Hfirst.
  destruct l as [|x l0].
  - exists h, q, []. cbn [head]. split; [done|]. split_and!; try done.
    constructor.
  - cbn [head]. set (l := x :: l0) in *.
    assert (Hsize : (length l <= size h)%nat).
    { apply (length_le_size h l Hnd). intros p Hp. by apply (dseg_lookup h None l None). }
    destruct (sort_loop_spec (S (size h)) 1 h (chunks_count q) l x)
      as (h' & q' & Hrun & Hq' & Hc & Hs & Hr); try done; try lia.
    destruct (loop_abs_sorted (ts_of h) (S (size h)) 1 l) as [Hsorted Hperm];
      try done; try lia.
    { apply runs_one. }
    exists h', q', (loop_abs (ts_of h) (S (size h)) 1 l). done.
Qed.

(** ** Strings *)

Lemma chars_app (a b : string) : chars (a +:+ b) = chars a ++ chars b.
Proof. unfold chars. induction a as [|c a IH]; simpl; [done|]. by rewrite IH. Qed.

Lemma str_chars (s : string) : str (chars s) = s.
Proof. apply string_of_list_ascii_of_string. Qed.

Lemma chars_str (l : list ascii) : chars (str l) = l.
Proof. apply list_ascii_of_string_of_list_ascii. Qed.

Lemma chars_inj (a b : string) : chars a = chars b -> a = b.
Proof. intros H. rewrite <- (str_chars a), <- (str_chars b). by rewrite H. Qed.

Lemma len_chars (s : string) : len s = length (chars s).
Proof. unfold len, chars. induction s as [|c s IH]; simpl; [done|]. by rewrite IH. Qed.

Lemma append_assoc (a b c : string) : ((a +:+ b) +:+ c = a +:+ (b +:+ c))%string.
Proof. apply chars_inj. rewrite !chars_app. by rewrite app_assoc. Qed.

Lemma append_inv_head (a b c : string) : (a +:+ b = a +:+ c)%string -> b = c.
Proof.
  intros H. apply chars_inj. apply (f_equal chars) in H. rewrite !chars_app in H.
  by apply app_inv_head in H.
Qed.

Lemma append_inv_tail (a b c : string) : (a +:+ c = b +:+ c)%string -> a = b.
Proof.
  intros H. apply chars_inj. apply (f_equal chars) in H. rewrite !chars_app in H.
  by apply app_inv_tail in H.
Qed.

Lemma HasSuffix_append (a b : string) : HasSuffix (a +:+ b) b = true.
Proof.
  unfold HasSuffix. rewrite !len_chars, chars_app, length_app.
  apply andb_true_intro. split; apply bool_decide_eq_true_2; [lia|].
  replace (length (chars a) + length (chars b) - length (chars b))%nat
    with (length (chars a)) by lia.
  by rewrite drop_app_length.
Qed.

Lemma slice_middle (a v b : string) :
  slice (a +:+ v +:+ b) (Z.of_nat (len a))
        (Z.of_nat (len (a +:+ v +:+ b)) - Z.of_nat (len b)) = Ret v.
Proof.
  unfold slice. rewrite !len_chars, !chars_app, !length_app.
  rewrite bool_decide_eq_true_2 by lia. f_equal.
  rewrite Nat2Z.id, drop_app_length.
  replace (Z.to_nat _) with (length (chars v)) by lia.
  rewrite take_app_length. apply str_chars.
Qed.

Lemma last_index_of_None (c : ascii) (l : list ascii) :
  last_index_of c l = None -> c ∉ l.
Proof.
  induction l as [|x l IH]; simpl; [intros _; apply not_elem_of_nil|].
  destruct (last_index_of c l); [done|].
  destruct (decide (x = c)); [done|]. intros _.
  apply not_elem_of_cons. split; [done | by apply IH].
Qed.

Lemma last_index_of_Some (c : ascii) (l : list ascii) (i : nat) :
  last_index_of c l = Some i -> c ∉ drop (S i) l.
Proof.
  revert i. induction l as [|x l IH]; simpl; intros i; [done|].
  destruct (last_index_of c l) as [j|] eqn:E.
  - intros [= <-]. simpl. by apply IH.
  - destruct (decide (x = c)); [|done]. intros [= <-]. simpl. rewrite drop_0.
    by apply last_index_of_None.
Qed.

Lemma path_Split_spec (p dirname basename : string) :
  path_Split p = (dirname, basename) ->
  p = (dirname +:+ basename)%string /\ slash ∉ chars basename.
Proof.
  unfold path_Split. destruct (last_index_of slash (chars p)) as [i|] eqn:E.
  - intros [= <- <-]. split.
    + apply chars_inj. by rewrite chars_app, !chars_str, take_drop.
    + rewrite chars_str. by apply last_index_of_Some.
  - intros [= <- <-]. split; [done|]. by apply last_index_of_None.
Qed.

(** ** The files of a journal that is being written *)

Section Names.

Context {codec : PathCodec}.
Variable cfg : Config.
Variable clock : nat -> Z * Z.
Variable tau : nat -> Z.
Variable M : nat.
Variables dirname basename : string.
Variable d0 : gmap string (list Byte.byte).

Hypothesis Hstamps : stamps_ok cfg clock tau M.
Hypothesis Hsuffix : slash ∉ chars (pathSuffix cfg).
Hypothesis Hsplit : path_Split (pathPrefix cfg) = (dirname, basename).
Hypothesis Hempty : forall name, (slash ∉ chars name) ->
  d0 !! (dirname +:+ name)%string = None.

Lemma file_of_inj (a b : string) : file_of cfg a = file_of cfg b -> a = b.
Proof.
  unfold file_of. intros H. apply append_inv_head in H. by apply append_inv_tail in H.
Qed.

Lemma file_of_name (vp : string) :
  file_of cfg vp = (dirname +:+ name_of cfg basename vp)%string.
Proof.
  unfold file_of, name_of. destruct (path_Split_spec _ _ _ Hsplit) as [-> _].
  by rewrite append_assoc.
Qed.

Lemma name_of_no_slash (vp : string) :
  (slash ∉ chars vp) -> slash ∉ chars (name_of cfg basename vp).
Proof.
  intros Hvp. unfold name_of. rewrite !chars_app.
  destruct (path_Split_spec _ _ _ Hsplit) as [_ Hb].
  rewrite !not_elem_of_app. done.
Qed.

Lemma tau_inj (n n' : nat) : (n < M)%nat -> (n' < M)%nat -> tau n = tau n' -> n = n'.
Proof.
  intros Hn Hn' Heq. destruct (lt_eq_lt_dec n n') as [[Hlt|Heq']|Hgt]; [|done|].
  - pose proof (so_mono _ _ _ _ Hstamps n n' Hlt Hn'). lia.
  - pose proof (so_mono _ _ _ _ Hstamps n' n Hgt Hn). lia.
Qed.

Lemma decodes_fun (vp : string) (t t' : JournalFileType) (ts ts' : Z) :
  decodes cfg vp t ts -> decodes cfg vp t' ts' -> t = t' /\ ts = ts'.
Proof.
  intros (i & Hi & _ & <- & _ & <-) (i' & Hi' & _ & <- & _ & <-).
  rewrite Hi in Hi'. by injection Hi' as <-.
Qed.

Lemma head_rest_ne (n n' : nat) :
  (n < M)%nat -> (n' < M)%nat -> head_name cfg clock n <> rest_name cfg clock n'.
Proof.
  intros Hn Hn' Heq.
  pose proof (so_head _ _ _ _ Hstamps n Hn) as H1.
  pose proof (so_rest _ _ _ _ Hstamps n' Hn') as H2.
  rewrite Heq in H1. by destruct (decodes_fun _ _ _ _ _ H1 H2).
Qed.

Lemma head_name_inj (n n' : nat) :
  (n < M)%nat -> (n' < M)%nat -> head_name cfg clock n = head_name cfg clock n' -> n = n'.
Proof.
  intros Hn Hn' Heq.
  pose proof (so_head _ _ _ _ Hstamps n Hn) as H1.
  pose proof (so_head _ _ _ _ Hstamps n' Hn') as H2.
  rewrite Heq in H1. destruct (decodes_fun _ _ _ _ _ H1 H2) as [_ Ht].
  by apply tau_inj.
Qed.

Lemma rest_name_inj (n n' : nat) :
  (n < M)%nat -> (n' < M)%nat -> rest_name cfg clock n = rest_name cfg clock n' -> n = n'.
Proof.
  intros Hn Hn' Heq.
  pose proof (so_rest _ _ _ _ Hstamps n Hn) as H1.
  pose proof (so_rest _ _ _ _ Hstamps n' Hn') as H2.
  rewrite Heq in H1. destruct (decodes_fun _ _ _ _ _ H1 H2) as [_ Ht].
  by apply tau_inj.
Qed.

Lemma head_file_fresh (n : nat) :
  (n < M)%nat -> d0 !! file_of cfg (head_name cfg clock n) = None.
Proof.
  intros Hn. rewrite file_of_name. apply Hempty, name_of_no_slash.
  by apply (so_head_slash _ _ _ _ Hstamps).
Qed.

Lemma rest_file_fresh (n : nat) :
  (n < M)%nat -> d0 !! file_of cfg (rest_name cfg clock n) = None.
Proof.
  intros Hn. rewrite file_of_name. apply Hempty, name_of_no_slash.
  by apply (so_rest_slash _ _ _ _ Hstamps).
Qed.

(** The first write makes the first chunk. *)
Lemma Write_first (data : list Byte.byte) (s : State) :
  (0 < M)%nat ->
  writer s = None -> chunks_first (chunks s) = None -> disk s = d0 ->
  Z.of_nat (length data) < 2 ^ 63 ->
  exists s',
    Write cfg no_listeners data (clock 0%nat).1 (clock 0%nat).2 s = Ret (None, s') /\
    calls_newChunk cfg data s = true /\
    writing cfg clock d0 0 [] data s'.
Proof.
  intros HM Hw Hfirst Hd Hlen.
  eexists. split; [|split].
  - apply Write_starts; try done. rewrite Hd. by apply head_file_fresh.
  - unfold calls_newChunk. rewrite Hw, Hfirst. done.
  - split; cbn [writer set_position set_disk started heap chunks disk position
                chunks_first]; try done.
    + eexists _, _. split; [reflexivity|]. split; [by simplify_map_eq|].
      split; [done|]. split; done.
    + by simplify_map_eq.
    + intros p Hp _. rewrite Hd.
      rewrite lookup_insert_ne by done. rewrite lookup_insert_ne by done. done.
Qed.

(** Every further write appends to the head chunk or rolls over. *)
Lemma Write_next (m : nat) (past : list (list Byte.byte)) (cur data : list Byte.byte)
    (s : State) :
  (S m < M)%nat ->
  0 <= maxSize cfg < 2 ^ 63 -> Z.of_nat (length data) < 2 ^ 63 ->
  writing cfg clock d0 m past cur s ->
  exists s',
    Write cfg no_listeners data (clock (S m)).1 (clock (S m)).2 s = Ret (None, s') /\
    if calls_newChunk cfg data s
    then writing cfg clock d0 (S m) (past ++ [cur]) data s'
    else writing cfg clock d0 m past (cur ++ data) s'.
Proof.
  intros HM Hmax Hlen [Hcount Hw (oh & c & Hfirst & Hc & Hpath & Hrest & Hrc)
                        Hpos Hbound Hcur Hpast Hother].
  unfold calls_newChunk. rewrite Hw.
  rewrite (int64_id (maxSize cfg - position s)) by lia.
  destruct (maxSize cfg - position s <? Z.of_nat (length data)) eqn:E.
  - (* the record does not fit: roll over *)
    apply Z.ltb_lt in E.
    assert (Hne1 : file_of cfg (head_name cfg clock (S m))
                   <> file_of cfg (head_name cfg clock m)).
    { intros Heq. apply file_of_inj, head_name_inj in Heq; lia. }
    assert (Hne2 : forall i, (i < M)%nat ->
              file_of cfg (head_name cfg clock (S m)) <> file_of cfg (rest_name cfg clock i)).
    { intros i Hi Heq. apply file_of_inj in Heq. by apply head_rest_ne in Heq; [|lia|]. }
    assert (Hne3 : file_of cfg (head_name cfg clock m)
                   <> file_of cfg (rest_name cfg clock m)).
    { intros Heq. apply file_of_inj in Heq. apply head_rest_ne in Heq; [done|lia|lia]. }
    assert (Hnew : disk s !! file_of cfg (head_name cfg clock (S m)) = None).
    { rewrite Hother; [apply head_file_fresh; lia|done|]. intros i Hi. apply Hne2. lia. }
    eexists. split.
    + eapply (Write_rolls cfg data _ _ s _ oh c cur); try done.
      * lia.
      * lia.
      * lia.
      * by rewrite Hpath.
      * unfold rest_path. fold (file_of cfg (BuildJournalPathWithTSuffix (key cfg) Rest
                                                (TSuffix c))).
        rewrite Hrest. intros Heq. by apply (Hne2 m ltac:(lia)).
    + unfold rolled, rest_path.
      fold (file_of cfg (BuildJournalPathWithTSuffix (key cfg) Rest (TSuffix c))).
      rewrite Hrest, Hpath.
      change (head_path cfg (clock (S m)).1 (clock (S m)).2)
        with (file_of cfg (head_name cfg clock (S m))).
      split; cbn [writer set_position set_disk heap chunks disk position chunks_first].
      * rewrite length_app. simpl. lia.
      * done.
      * eexists _, _. split; [reflexivity|]. split; [by rewrite lookup_insert_eq|].
        split; [done|]. split; done.
      * done.
      * done.
      * by rewrite lookup_insert_eq.
      * intros i x Hi. apply lookup_app_Some in Hi as [Hi|[Hge Hi]].
        -- assert (Him : (i < m)%nat) by (rewrite <- Hcount; by eapply lookup_lt_Some).
           rewrite lookup_insert_ne by (apply Hne2; lia).
           rewrite lookup_insert_ne by
             (intros Heq; apply file_of_inj, rest_name_inj in Heq; lia).
           rewrite lookup_delete_ne by
             (intros Heq; apply file_of_inj in Heq; apply head_rest_ne in Heq; [done|lia|lia]).
           rewrite lookup_insert_ne by (apply Hne2; lia).
           by apply Hpast.
        -- apply list_lookup_singleton_Some in Hi as [Hi <-].
           assert (i = m) as -> by lia.
           rewrite lookup_insert_ne by (apply Hne2; lia).
           by rewrite lookup_insert_eq.
      * intros p Hp Hrests.
        rewrite lookup_insert_ne by done.
        rewrite lookup_insert_ne by (apply not_eq_sym, Hrests; lia).
        destruct (decide (p = file_of cfg (head_name cfg clock m))) as [->|Hpm].
        -- rewrite lookup_delete_eq. symmetry. apply head_file_fresh. lia.
        -- rewrite lookup_delete_ne by done. rewrite lookup_insert_ne by done.
           apply Hother; [done|]. intros i Hi. apply Hrests. lia.
  - (* the record fits: append *)
    apply Z.ltb_ge in E.
    eexists. split.
    + eapply (Write_appends cfg data _ _ s); try done; lia.
    + cbn [f_path]. rewrite Hcur.
      split; cbn [writer set_position set_disk heap chunks disk position chunks_first].
      * done.
      * done.
      * eexists _, _. done.
      * rewrite length_app. lia.
      * rewrite length_app. lia.
      * by rewrite lookup_insert_eq.
      * intros i x Hi.
        rewrite lookup_insert_ne; [by apply Hpast|].
        assert (Him : (i < m)%nat) by (rewrite <- Hcount; by eapply lookup_lt_Some).
        intros Heq. apply file_of_inj in Heq. apply head_rest_ne in Heq; [done|lia|lia].
      * intros p Hp Hrests. rewrite lookup_insert_ne by done. by apply Hother.
Qed.

Lemma write_all_spec (records : list (list Byte.byte)) : forall (m : nat)
    (past : list (list Byte.byte)) (cur : list Byte.byte) (s : State),
  (S m + length records <= M)%nat ->
  0 <= maxSize cfg < 2 ^ 63 ->
  (forall data, data ∈ records -> Z.of_nat (length data) < 2 ^ 63) ->
  writing cfg clock d0 m past cur s ->
  exists s' m' past' cur',
    write_all cfg clock (S m) records s = Ret (None, s') /\
    writing cfg clock d0 m' past' cur' s' /\ (m' < M)%nat /\
    concat (past' ++ [cur']) = concat (past ++ [cur]) ++ concat records.
Proof.
  induction records as [|data records IH]; intros m past cur s HM Hmax Hlen Hwr.
  - exists s, m, past, cur. simpl in HM. split_and!; try done; [lia|].
    by rewrite app_nil_r.
  - cbn [length] in HM.
    destruct (Write_next m past cur data s) as (s1 & Hrun & Hs1); try done; try lia.
    { apply Hlen. left. }
    cbn [write_all]. rewrite Hrun, bind_Ret. cbn iota beta.
    destruct (calls_newChunk cfg data s).
    + destruct (IH (S m) (past ++ [cur]) data s1) as (s' & m' & past' & cur' & H1 & H2 & H3 & H4);
        try done; try lia.
      { intros x Hx. apply Hlen. by right. }
      exists s', m', past', cur'. split_and!; try done.
      rewrite H4. rewrite !concat_app. simpl. rewrite !app_nil_r. by rewrite <- !app_assoc.
    + destruct (IH m past (cur ++ data) s1) as (s' & m' & past' & cur' & H1 & H2 & H3 & H4);
        try done; try lia.
      { intros x Hx. apply Hlen. by right. }
      exists s', m', past', cur'. split_and!; try done.
      rewrite H4. rewrite !concat_app. simpl. rewrite !app_nil_r. by rewrite <- !app_assoc.
Qed.

(** Writing records to a journal without chunks: every write succeeds, and
    the files of the chunks hold the records in the order of the writes. *)
Lemma write_all_fresh (records : list (list Byte.byte)) (data : list Byte.byte)
    (s : State) :
  (length (data :: records) <= M)%nat ->
  0 <= maxSize cfg < 2 ^ 63 ->
  (forall x, x ∈ data :: records -> Z.of_nat (length x) < 2 ^ 63) ->
  writer s = None -> chunks_first (chunks s) = None -> disk s = d0 ->
  exists s' m past cur,
    write_all cfg clock 0 (data :: records) s = Ret (None, s') /\
    writing cfg clock d0 m past cur s' /\ (m < M)%nat /\
    concat (past ++ [cur]) = concat (data :: records).
Proof.
  intros HM Hmax Hlen Hw Hfirst Hd. cbn [length] in HM.
  destruct (Write_first data s) as (s1 & Hrun & Hcalls & Hs1); try done; try lia.
  { apply Hlen. left. }
  destruct (write_all_spec records 0 [] data s1) as (s' & m & past & cur & H1 & H2 & H3 & H4);
    try done.
  { intros x Hx. apply Hlen. by right. }
  exists s', m, past, cur. split_and!; try done.
  - cbn [write_all]. rewrite Hrun, bind_Ret. cbn iota beta. by rewrite Hcalls.
  - rewrite H4. simpl. by rewrite app_nil_r.
Qed.

End Names.

(** ** The scan of the files of one journal *)

Lemma summary_static h h' x : static h' x = static h x -> summary h' x = summary h x.
Proof.
  unfold static, summary. destruct (h' !! x), (h !! x); simpl; congruence.
Qed.

Lemma summary_insert_ne h p c x : x <> p -> summary (<[p := c]> h) x = summary h x.
Proof. intros Hne. unfold summary. by rewrite lookup_insert_ne. Qed.

Lemma links_insert_ne h p c x : x <> p -> links (<[p := c]> h) x = links h x.
Proof. intros Hne. unfold links. by rewrite lookup_insert_ne. Qed.

Lemma snoc_not_nil {A} (l : list A) (x : A) : l ++ [x] <> [].
Proof. by destruct l. Qed.

Section ScanFiles.

Context {codec : PathCodec}.
Variable cfg : Config.
Variable basename : string.

Lemma scan_file_step (sc : Scan) (l : list ptr) (V : list (string * JournalFileType * Z))
    (vp : string) (t : JournalFileType) (ts : Z) :
  decodes cfg vp t ts -> scanned cfg sc l V ->
  exists sc',
    scan_file (pathPrefix cfg) (pathSuffix cfg) basename (name_of cfg basename vp) sc
    = Ret sc' /\
    scanned cfg sc' (l ++ [new_ptr (sc_heap sc)]) (V ++ [(vp, t, ts)]).
Proof.
  intros (info & Hdec & Hkey & Htype & Hvp & Hts) (q & Hq & Hq0 & Hjs & Hsum & Hrc1).
  destruct Hq as (Hnd & Hseg & Hfirst & Hlast).
  pose proof (new_ptr_fresh (sc_heap sc)) as Hfresh.
  set (p := new_ptr (sc_heap sc)) in *.
  assert (Hpl : p ∉ l).
  { intros Hin. destruct (dseg_lookup _ _ _ _ p Hseg Hin) as [c Hc]. congruence. }
  assert (Hproto : match sc_journals sc !! key cfg with
                   | Some j => j
                   | None => mkJournal (mkDequeue None None 0) None 0
                   end = mkJournal q None 0).
  { rewrite Hjs. destruct (decide (l = [])) as [Hl|Hl].
    - rewrite lookup_empty. by rewrite Hq0.
    - by rewrite lookup_singleton_eq. }
  unfold scan_file.
  assert (Hsfx : HasSuffix (name_of cfg basename vp) (pathSuffix cfg) = true).
  { unfold name_of. rewrite <- append_assoc. apply HasSuffix_append. }
  rewrite Hsfx. cbn [negb]. unfold name_of at 1 2. rewrite slice_middle, bind_Ret.
  rewrite Hdec. rewrite Hkey, Hproto. cbn [j_chunks j_writer j_position]. fold p.
  rewrite Hlast, Htype, Hvp, Hts.
  set (c := mkChunk None (last l) _ t (info_TSuffix info) ts (info_UniqueId info) 1).
  assert (Hsummary : forall h', h' !! p = Some c ->
            (forall x, x ∈ l -> summary h' x = summary (sc_heap sc) x) ->
            summary h' <$> l ++ [p] = recovered cfg <$> V ++ [(vp, t, ts)]).
  { intros h' Hp Hold. rewrite !fmap_app. f_equal.
    - rewrite <- Hsum. apply list_fmap_ext. intros i x Hx. apply Hold.
      by eapply list_elem_of_lookup_2.
    - simpl. unfold summary. rewrite Hp. done. }
  destruct l as [|m l0 _] using rev_ind.
  - (* the first file of the journal *)
    cbn [last]. eexists. split; [reflexivity|].
    exists (mkDequeue (Some p) (Some p) (int64 (chunks_count q + 1))).
    cbn [sc_heap sc_journals app]. split_and!.
    + split_and!; try done.
      * apply NoDup_singleton.
      * split; [|done]. unfold links. rewrite lookup_insert_eq. done.
    + done.
    + rewrite decide_False by done. rewrite Hjs, decide_True by done.
      by rewrite insert_empty.
    + apply (Hsummary (<[p := c]> (sc_heap sc))); [by rewrite lookup_insert_eq|].
      intros x Hx. by apply elem_of_nil in Hx.
    + intros x Hx. apply list_elem_of_singleton in Hx. subst x.
      unfold rc. by rewrite lookup_insert_eq.
  - (* a further file: its chunk is linked behind the last one *)
    rewrite last_snoc in *. eexists. split; [reflexivity|].
    exists (mkDequeue (chunks_first q) (Some p) (int64 (chunks_count q + 1))).
    cbn [sc_heap sc_journals].
    assert (Hmp : m <> p).
    { intros ->. apply Hpl. apply elem_of_app. right. left. }
    assert (Hp' : alter (with_next (Some p)) m (<[p := c]> (sc_heap sc)) !! p = Some c).
    { rewrite lookup_alter_ne by done. by rewrite lookup_insert_eq. }
    split_and!.
    + split_and!.
      * apply NoDup_app. split; [done|]. split; [|apply NoDup_singleton].
        intros x Hx Hx'. apply list_elem_of_singleton in Hx'. by subst.
      * apply dseg_app. split.
        -- cbn [hd_or]. apply dseg_set_next with (nn := None); [done|].
           apply dseg_frame with (h := sc_heap sc); [|done].
           intros x Hx. apply links_insert_ne. intros ->. done.
        -- rewrite last_or_snoc. split; [|done]. unfold links. rewrite Hp'.
           unfold c. cbn. by rewrite last_snoc.
      * cbn [chunks_first]. rewrite Hfirst. by destruct l0.
      * cbn [chunks_last]. by rewrite last_snoc.
    + intros H. by apply snoc_not_nil in H.
    + rewrite decide_False by apply snoc_not_nil.
      rewrite Hjs, decide_False by apply snoc_not_nil.
      by rewrite insert_singleton_eq.
    + apply Hsummary; [done|]. intros x Hx.
      apply summary_static. rewrite static_alter_next.
      unfold static. rewrite lookup_insert_ne; [done|]. intros ->. done.
    + intros x Hx. rewrite rc_alter_next. apply elem_of_app in Hx as [Hx|Hx].
      * unfold rc. rewrite lookup_insert_ne by (intros ->; done). by apply Hrc1.
      * apply list_elem_of_singleton in Hx. subst x. unfold rc.
        by rewrite lookup_insert_eq.
Qed.

Lemma scan_files_spec (E : list (string * JournalFileType * Z)) : forall (sc : Scan)
    (l : list ptr) (V : list (string * JournalFileType * Z)),
  (forall vp t ts, (vp, t, ts) ∈ E -> decodes cfg vp t ts) ->
  scanned cfg sc l V ->
  exists sc' l',
    scan_files (pathPrefix cfg) (pathSuffix cfg) basename
               ((fun e => name_of cfg basename e.1.1) <$> E) sc = Ret sc' /\
    scanned cfg sc' l' (V ++ E) /\ (E <> [] -> l' <> []).
Proof.
  induction E as [|[[vp t] ts] E IH]; intros sc l V Hdec Hsc.
  - exists sc, l. rewrite app_nil_r. done.
  - destruct (scan_file_step sc l V vp t ts) as (sc1 & Hrun & Hsc1); [|done|].
    { apply Hdec. left. }
    destruct (IH sc1 (l ++ [new_ptr (sc_heap sc)]) (V ++ [(vp, t, ts)]))
      as (sc' & l' & Hrun' & Hsc' & Hne); [|done|].
    { intros vp' t' ts' Hin. apply Hdec. by right. }
    exists sc', l'. cbn [fmap list_fmap scan_files]. cbn [fst].
    rewrite Hrun, bind_Ret. rewrite <- app_assoc in Hsc'. split_and!; try done.
    intros _. destruct Hsc' as (q & (Hnd & _) & _ & _ & Hsum & _).
    intros ->. simpl in Hsum. symmetry in Hsum. apply fmap_nil_inv in Hsum.
    by apply app_nil in Hsum as [_ ?].
Qed.

End ScanFiles.

(** ** The recovered chunk list *)

Lemma StronglySorted_reverse {A} (R : relation A) (l : list A) :
  StronglySorted R l -> StronglySorted (flip R) (reverse l).
Proof.
  induction 1 as [|x l Hs IH Hx]; [constructor|].
  rewrite reverse_cons. apply StronglySorted_app_2; [|done|repeat constructor].
  intros x1 x2 H1 H2. apply list_elem_of_singleton in H2. subst x2.
  rewrite elem_of_reverse in H1. unfold flip.
  by apply (proj1 (Forall_forall _ _) Hx).
Qed.

Lemma stamp_sorted_inj (B : list (option (string * JournalFileType * Z))) x y :
  StronglySorted (fun a b => stamp_of a < stamp_of b) B ->
  x ∈ B -> y ∈ B -> stamp_of x = stamp_of y -> x = y.
Proof.
  induction 1 as [|z B Hs IH Hz]; intros Hx Hy Heq; [by apply elem_of_nil in Hx|].
  rewrite Forall_forall in Hz.
  apply elem_of_cons in Hx as [->|Hx]; apply elem_of_cons in Hy as [->|Hy]; auto.
  - specialize (Hz _ Hy). lia.
  - specialize (Hz _ Hx). lia.
Qed.

(** A list of summaries in the order of the timestamps is the list of the
    files in the order in which they were made. *)
Lemma summaries_unique (A B : list (option (string * JournalFileType * Z))) :
  A ≡ₚ B -> StronglySorted older A ->
  StronglySorted (fun a b => stamp_of a < stamp_of b) B -> A = B.
Proof.
  intros Hperm HA HB.
  apply (StronglySorted_unique_strong older); [|done| |done].
  - intros x1 x2 H1 H2 H12 H21. unfold older in *.
    apply (stamp_sorted_inj B); [done| |done|lia]. by rewrite <- Hperm.
  - clear -HB. induction HB as [|x B Hs IH Hx]; constructor; [done|].
    eapply Forall_impl; [done|]. intros y Hy. unfold older. simpl in Hy. lia.
Qed.

Lemma stamp_of_summary h p : stamp_of (summary h p) = ts_of h p.
Proof. unfold summary, ts_of. destruct (h !! p); done. Qed.

Lemma is_head_summary h p pth t ts :
  summary h p = Some (pth, t, ts) -> is_head h p <-> t = Head.
Proof.
  unfold summary, is_head. destruct (h !! p) as [c|]; [|done]. simpl.
  intros [= <- <- <-]. split; congruence.
Qed.

Lemma validateChunks_head_first (h : gmap ptr FileJournalChunk)
    (q : FileJournalChunkDequeue) (p : ptr) (l : list ptr) :
  dequeue_of h q (p :: l) -> is_head h p -> (forall r, r ∈ l -> ~ is_head h r) ->
  validateChunks h q = Ret None.
Proof.
  intros (Hnd & Hseg & Hfirst & _) Hp Hrest.
  assert (Hlen : (length (p :: l) < S (size h))%nat).
  { apply Nat.lt_succ_r, length_le_size; [done|].
    intros x. by apply dseg_lookup with (1 := Hseg). }
  assert (Hhd : chunks_first q = hd_or (p :: l) None) by (by rewrite Hfirst).
  unfold validateChunks. rewrite Hhd.
  rewrite (validate_loop_spec h (p :: l) None _ None Hseg Hlen). simpl.
  rewrite filter_cons, decide_True by done.
  rewrite (proj2 (filter_is_head_nil h l)) by done. simpl.
  by rewrite decide_True.
Qed.

Lemma chain_prev_spec (h : gmap ptr FileJournalChunk) (l : list ptr) :
  forall (nn : option ptr) (fuel : nat),
  dseg h None l nn -> (length l <= fuel)%nat ->
  chain_prev fuel h (last l) = Some (reverse l).
Proof.
  induction l as [|m l IH] using rev_ind; intros nn fuel Hseg Hfuel.
  - by destruct fuel.
  - rewrite last_snoc, reverse_snoc.
    rewrite length_app in Hfuel. simpl in Hfuel.
    destruct fuel as [|fuel]; [lia|].
    apply dseg_app in Hseg as [Hl [Hm _]]. cbn [hd_or] in Hl.
    unfold links in Hm. destruct (h !! m) as [c|] eqn:Hc; [|done]. simpl in Hm.
    cbn [chain_prev]. rewrite Hc. simpl.
    assert (Hprev : head_prev c = last l).
    { injection Hm as Hpv _. rewrite Hpv. unfold last_or. by destruct (last l). }
    rewrite Hprev. rewrite (IH (Some m) fuel Hl) by lia. done.
Qed.

Lemma NoDup_fmap_inj_on {A B} (f : A -> B) (l : list A) (x y : A) :
  NoDup (f <$> l) -> x ∈ l -> y ∈ l -> f x = f y -> x = y.
Proof.
  induction l as [|a l IH]; intros Hnd Hx Hy Heq; [by apply elem_of_nil in Hx|].
  rewrite fmap_cons in Hnd. apply NoDup_cons in Hnd as [Ha Hnd].
  apply elem_of_cons in Hx as [->|Hx]; apply elem_of_cons in Hy as [->|Hy]; auto.
  - exfalso. apply Ha. rewrite Heq. by apply list_elem_of_fmap_2.
  - exfalso. apply Ha. rewrite <- Heq. by apply list_elem_of_fmap_2.
Qed.

Lemma stamps_sorted_NoDup (E : list (string * JournalFileType * Z)) :
  StronglySorted (fun a b => a.2 < b.2) E -> NoDup E.
Proof.
  induction 1 as [|e E Hs IH He]; constructor; [|done].
  intros Hin. rewrite Forall_forall in He. specialize (He e Hin). lia.
Qed.

Section Reopen.

Context {codec : PathCodec}.
Variable cfg : Config.
Variables dirname basename : string.

(** The scan of a directory that holds the files [E0] of sealed chunks and
    the file of a head chunk, with timestamps that grow from file to file:
    whatever the order of the listing, the journal comes back with its
    chunks in the order of [E]. *)
Lemma scanJournals_recovers (h : gmap ptr FileJournalChunk) (names : list string)
    (E0 : list (string * JournalFileType * Z)) (vp : string) (ts : Z) :
  path_Split (pathPrefix cfg) = (dirname, basename) ->
  names ≡ₚ (fun e => name_of cfg basename e.1.1) <$> (E0 ++ [(vp, Head, ts)]) ->
  (forall vp' t' ts', (vp', t', ts') ∈ E0 ++ [(vp, Head, ts)] -> decodes cfg vp' t' ts') ->
  StronglySorted (fun a b => a.2 < b.2) (E0 ++ [(vp, Head, ts)]) ->
  (forall e, e ∈ E0 -> e.1.2 = Rest) ->
  exists sc q x l,
    scanJournals h (Directory names) (pathPrefix cfg) (pathSuffix cfg) = Ret (inr sc) /\
    sc_journals sc = {[ key cfg := mkJournal q None 0 ]} /\
    dequeue_of (sc_heap sc) q (x :: l) /\
    summary (sc_heap sc) <$> reverse (x :: l) = recovered cfg <$> (E0 ++ [(vp, Head, ts)]) /\
    forall y, y ∈ x :: l -> rc (sc_heap sc) y = Some 1.
Proof.
  set (E := E0 ++ [(vp, Head, ts)]).
  intros Hsplit Hnames Hdec Hsorted Hrest.
  apply Permutation_map_inv in Hnames as (V & HnV & HV).
  change (names = (fun e => name_of cfg basename e.1.1) <$> V) in HnV. subst names.
  destruct (scan_files_spec cfg basename V (mkScan h ∅ []) [] [])
    as (sc1 & l1 & Hrun & (q1 & Hq1 & _ & Hjs & Hsum & Hrc1) & Hne).
  { intros vp' t' ts' Hin. apply Hdec. by rewrite HV. }
  { exists (mkDequeue None None 0). split_and!; try done.
    - split_and!; try done. apply NoDup_nil_2.
    - intros x Hx. by apply elem_of_nil in Hx. }
  assert (HVne : V <> []).
  { intros ->. apply Permutation_nil_r in HV. by apply snoc_not_nil in HV. }
  rewrite decide_False in Hjs by auto. simpl in Hsum.
  destruct (sortChunksByTimestamp_spec (sc_heap sc1) q1 l1 Hq1)
    as (h2 & q2 & l2 & Hsort & Hq2 & Hperm & Hs2 & _ & Hst & Hrc2).
  (* the sorted list, from the oldest chunk on, is [E] *)
  assert (Hsum2 : summary h2 <$> reverse l2 = recovered cfg <$> E).
  { apply summaries_unique.
    - rewrite reverse_Permutation, Hperm.
      rewrite (list_fmap_ext (summary h2) (summary (sc_heap sc1)) l1)
        by (intros i y _; apply summary_static, Hst).
      rewrite Hsum. by rewrite HV.
    - apply StronglySorted_fmap with (R1 := flip (newest_first (ts_of (sc_heap sc1)))).
      + intros a b. unfold flip, newest_first, older. rewrite !stamp_of_summary.
        rewrite !(ts_of_static (sc_heap sc1) h2) by apply Hst. done.
      + by apply StronglySorted_reverse.
    - by apply StronglySorted_fmap with (R1 := fun a b => a.2 < b.2). }
  pose proof Hsum2 as Hsplit2. unfold E in Hsplit2. rewrite fmap_app in Hsplit2.
  apply fmap_app_inv in Hsplit2 as (r0 & r1 & Hr0 & Hr1 & Hrev).
  destruct r1 as [|x [|? ?]]; try done. simpl in Hr1. injection Hr1 as Hx.
  symmetry in Hx, Hr0.
  assert (Hl2 : l2 = x :: reverse r0).
  { rewrite <- (reverse_involutive l2), Hrev. by rewrite reverse_snoc. }
  assert (Hval : validateChunks h2 q2 = Ret None).
  { apply (validateChunks_head_first h2 q2 x (reverse r0)).
    - by rewrite <- Hl2.
    - by apply (is_head_summary h2 x _ _ _ Hx).
    - intros r Hr. rewrite elem_of_reverse in Hr.
      assert (Hin : summary h2 r ∈ recovered cfg <$> E0).
      { rewrite <- Hr0. by apply list_elem_of_fmap_2. }
      apply list_elem_of_fmap in Hin as (e & He & HeE).
      pose proof (Hrest e HeE) as Ht. unfold recovered in He.
      rewrite (is_head_summary h2 r _ _ _ He). congruence. }
  eexists _, q2, x, (reverse r0).
  split; [|split; [|split; [|split]]].
  - unfold scanJournals. rewrite Hsplit. cbn iota beta.
    rewrite Hrun, bind_Ret. rewrite Hjs, map_to_list_singleton.
    cbn [scan_finish j_chunks j_writer j_position].
    rewrite Hsort, bind_Ret. cbn iota beta. rewrite Hval, bind_Ret.
    cbn iota beta. rewrite bind_Ret. reflexivity.
  - cbn [sc_journals]. rewrite Hjs. by rewrite insert_singleton_eq.
  - cbn [sc_heap]. by rewrite <- Hl2.
  - cbn [sc_heap]. by rewrite <- Hl2.
  - cbn [sc_heap]. rewrite <- Hl2. intros y Hy. rewrite Hrc2. apply Hrc1.
    by rewrite <- Hperm.
Qed.

(** Re-opening the group on such a directory: the journal is recovered, the
    writer is on the file of the head chunk, and reading the chunks from
    the tail on gives the contents of the files in the order of [E]. *)
Lemma GetJournalGroup_recovers (path dsuf : string) (plugin : nat)
    (h : gmap ptr FileJournalChunk) (d : gmap string (list Byte.byte))
    (names : list string) (E0 : list (string * JournalFileType * Z)) (vp : string)
    (ts : Z) (contents : list (list Byte.byte)) :
  split_pattern dsuf path = (pathPrefix cfg, pathSuffix cfg) ->
  path_Split (pathPrefix cfg) = (dirname, basename) ->
  names ≡ₚ (fun e => name_of cfg basename e.1.1) <$> (E0 ++ [(vp, Head, ts)]) ->
  (forall vp' t' ts', (vp', t', ts') ∈ E0 ++ [(vp, Head, ts)] -> decodes cfg vp' t' ts') ->
  StronglySorted (fun a b => a.2 < b.2) (E0 ++ [(vp, Head, ts)]) ->
  (forall e, e ∈ E0 -> e.1.2 = Rest) ->
  Forall2 (fun e c => d !! file_of cfg e.1.1 = Some c) (E0 ++ [(vp, Head, ts)]) contents ->
  exists h' f' g,
    GetJournalGroup (NewFileJournalGroupFactory dsuf (maxSize cfg)) path plugin h
                    (Directory names) d = Ret (h', f', inr g) /\
    is_Some (journals g !! key cfg) /\
    read_back h' d (GetFileJournal (key cfg) g).1 = Some (concat contents) /\
    exists j x l c data,
      journals g !! key cfg = Some j /\ journal_ok (load h' d j) (x :: l) /\
      h' !! x = Some c /\ Path c = file_of cfg vp /\ refcount c = 2 /\
      d !! file_of cfg vp = Some data /\
      j_writer j = Some (mkFile (file_of cfg vp) false) /\
      j_position j = Z.of_nat (length data) /\
      length (x :: l) = length (E0 ++ [(vp, Head, ts)]) /\
      (forall y, y ∈ l -> rc h' y = Some 1) /\
      summary h' <$> reverse (x :: l) = recovered cfg <$> (E0 ++ [(vp, Head, ts)]).
Proof.
  intros Hpat Hsplit Hnames Hdec Hsorted Hrest Hfiles.
  destruct (scanJournals_recovers h names E0 vp ts Hsplit Hnames Hdec Hsorted Hrest)
    as (sc & q & x & l & Hscan & Hjs & Hq & Hsum & Hrc1).
  destruct Hq as (Hnd & Hseg & Hfirst & Hlast).
  (* the head chunk and its file *)
  assert (Hx : summary (sc_heap sc) x = Some (file_of cfg vp, Head, ts)).
  { rewrite reverse_cons, !fmap_app in Hsum. apply app_inj_tail in Hsum as [_ Hsum].
    done. }
  unfold summary in Hx. destruct (sc_heap sc !! x) as [c|] eqn:Hc; [|done].
  simpl in Hx. injection Hx as Hpath Htype Hts.
  assert (Hfile : is_Some (d !! file_of cfg vp)).
  { apply Forall2_app_inv_l in Hfiles as (c1 & c2 & _ & Hlast' & _).
    apply Forall2_cons_inv_l in Hlast' as (y & ? & Hy & _ & _). by exists y. }
  destruct Hfile as [data Hdata].
  set (c' := with_refcount (int32 (refcount c + 1)) c).
  set (h3 := <[x := c']> (sc_heap sc)).
  set (file := mkFile (Path c) false).
  set (j := mkJournal q (Some file) (file_size file d)).
  exists h3, (mkFactory {[ path := mkGroup plugin (pathPrefix cfg) (pathSuffix cfg)
                                           (maxSize cfg) {[ key cfg := j ]} ]}
                        dsuf (maxSize cfg)),
         (mkGroup plugin (pathPrefix cfg) (pathSuffix cfg) (maxSize cfg) {[ key cfg := j ]}).
  assert (Hlinks : forall y, links h3 y = links (sc_heap sc) y).
  { intros y. unfold links, h3. destruct (decide (y = x)) as [->|Hy].
    - rewrite lookup_insert_eq, Hc. done.
    - by rewrite lookup_insert_ne. }
  assert (Hsummary : forall y, summary h3 y = summary (sc_heap sc) y).
  { intros y. unfold summary, h3. destruct (decide (y = x)) as [->|Hy].
    - rewrite lookup_insert_eq, Hc. done.
    - by rewrite lookup_insert_ne. }
  assert (Hseg3 : dseg h3 None (x :: l) None).
  { apply dseg_frame with (h := sc_heap sc); [|done]. intros y _. apply Hlinks. }
  split; [|split; [|split]].
  - unfold GetJournalGroup, NewFileJournalGroupFactory. cbn [paths defaultPathSuffix f_maxSize].
    rewrite lookup_empty, Hpat. rewrite Hscan, bind_Ret. cbn iota beta.
    rewrite Hjs, map_to_list_singleton. cbn [open_writers j_chunks].
    rewrite Hfirst. cbn [head]. rewrite Hc. unfold os_OpenAppend. rewrite Hpath, Hdata.
    rewrite bind_Ret. cbn iota beta. rewrite insert_singleton_eq, insert_empty.
    unfold h3, c', j, file. rewrite Hpath. reflexivity.
  - cbn [journals]. rewrite lookup_singleton_eq. by eexists.
  - unfold GetFileJournal. cbn [journals]. rewrite lookup_singleton_eq. cbn [fst].
    unfold read_back. cbn [j_chunks j].
    rewrite Hlast.
    rewrite (chain_prev_spec h3 (x :: l) None (S (size h3)) Hseg3).
    2:{ etrans; [apply (length_le_size h3 (x :: l) Hnd)|lia].
        intros y Hy. by apply (dseg_lookup h3 None (x :: l) None). }
    cbn [mbind option_bind].
    assert (Hread : mapM (fun p => c0 ← h3 !! p; d !! Path c0) (reverse (x :: l))
                    = Some contents).
    { apply mapM_Some.
      assert (Hsum3 : Forall2 (fun p e => summary h3 p = recovered cfg e)
                              (reverse (x :: l)) (E0 ++ [(vp, Head, ts)])).
      { apply (Forall2_fmap (summary h3) (recovered cfg) eq).
        apply list_eq_Forall2. rewrite <- Hsum.
        apply list_fmap_ext. intros i y _. apply Hsummary. }
      eapply Forall2_trans; [|exact Hsum3|exact Hfiles].
      intros p e data' Hp He. unfold summary, recovered in Hp.
      destruct (h3 !! p) as [cp|]; [|done]. simpl in Hp. injection Hp as Hpp _ _.
      simpl. by rewrite Hpp. }
    rewrite Hread. done.
  - (* the recovered journal is in order *)
    assert (Hrcx : refcount c = 1).
    { pose proof (Hrc1 x ltac:(left)) as H. unfold rc in H. rewrite Hc in H.
      simpl in H. congruence. }
    assert (Hdescr : forall y cy, y ∈ x :: l -> h3 !! y = Some cy ->
              exists e, e ∈ E0 ++ [(vp, Head, ts)] /\
                summary h3 y = recovered cfg e /\ Path cy = file_of cfg e.1.1).
    { intros y cy Hy Hcy.
      assert (Hin : summary h3 y ∈ recovered cfg <$> (E0 ++ [(vp, Head, ts)])).
      { rewrite <- Hsum.
        rewrite <- (list_fmap_ext (summary h3) (summary (sc_heap sc)) (reverse (x :: l)))
          by (intros i z _; apply Hsummary).
        apply list_elem_of_fmap_2. by rewrite elem_of_reverse. }
      apply list_elem_of_fmap in Hin as (e & He & HeE). exists e. split; [done|].
      split; [done|]. unfold summary, recovered in He. rewrite Hcy in He. simpl in He.
      by injection He as -> _ _. }
    exists j, x, l, c', data. unfold load. cbn [journals j_chunks j_writer j_position j].
    split_and!.
    + by rewrite lookup_singleton_eq.
    + split; cbn [heap disk chunks].
      * done.
      * intros y cy Hy Hcy. destruct (decide (y = x)) as [->|Hyx].
        -- unfold h3 in Hcy. rewrite lookup_insert_eq in Hcy. injection Hcy as <-.
           unfold c'. simpl. rewrite Hrcx. rewrite int32_id; lia.
        -- unfold h3 in Hcy. rewrite lookup_insert_ne in Hcy by done.
           pose proof (Hrc1 y Hy) as H. unfold rc in H. rewrite Hcy in H. simpl in H.
           injection H as ->. lia.
      * intros y cy Hy Hcy. destruct (Hdescr y cy Hy Hcy) as (e & HeE & _ & ->).
        apply list_elem_of_lookup in HeE as [i Hi].
        destruct (Forall2_lookup_l _ _ _ _ _ Hfiles Hi) as (content & _ & Hcontent).
        by exists content.
      * intros y y' cy cy' Hy Hy' Hcy Hcy' Heq.
        destruct (Hdescr y cy Hy Hcy) as (e & HeE & Hse & Hpe).
        destruct (Hdescr y' cy' Hy' Hcy') as (e' & HeE' & Hse' & Hpe').
        assert (Hee : e = e').
        { rewrite Hpe, Hpe' in Heq. apply file_of_inj in Heq.
          destruct e as [[v t] tt], e' as [[v' t'] tt']. simpl in Heq. subst v'.
          destruct (decodes_fun cfg v t t' tt tt' (Hdec _ _ _ HeE) (Hdec _ _ _ HeE'))
            as [-> ->]. done. }
        apply (NoDup_fmap_inj_on (summary h3) (reverse (x :: l))).
        -- rewrite (list_fmap_ext (summary h3) (summary (sc_heap sc)) (reverse (x :: l)))
             by (intros i z _; apply Hsummary).
           rewrite Hsum. apply NoDup_fmap_2_strong; [|by apply stamps_sorted_NoDup].
           intros a b _ _ Hab. unfold recovered in Hab.
           destruct a as [[va ta] tta], b as [[vb tb] ttb]. simpl in Hab.
           injection Hab as Hf -> ->. apply file_of_inj in Hf. by subst.
        -- by rewrite elem_of_reverse.
        -- by rewrite elem_of_reverse.
        -- rewrite Hse, Hse'. by rewrite Hee.
    + unfold h3. by rewrite lookup_insert_eq.
    + done.
    + unfold c'. simpl. rewrite Hrcx. rewrite int32_id; lia.
    + done.
    + unfold file. by rewrite Hpath.
    + unfold file_size, file. cbn [f_path]. by rewrite Hpath, Hdata.
    + apply (f_equal length) in Hsum. rewrite !length_fmap, length_reverse in Hsum. done.
    + intros y Hy. unfold rc, h3. rewrite lookup_insert_ne.
      * apply (Hrc1 y). by right.
      * intros ->. by apply NoDup_cons in Hnd as [? _].
    + rewrite <- Hsum. apply list_fmap_ext. intros i z _. apply Hsummary.
Qed.

End Reopen.

(** ** The directory of a journal that has been written *)

Lemma seq_sorted_below (M : nat) : forall (n s : nat), (s + n <= M)%nat ->
  StronglySorted (fun a b => a < b /\ b < M)%nat (seq s n).
Proof.
  induction n as [|n IH]; intros s Hle; [constructor|].
  cbn [seq]. constructor; [apply IH; lia|].
  apply Forall_forall. intros y Hy. apply elem_of_seq in Hy. lia.
Qed.

Section Listing.

Context {codec : PathCodec}.
Variable cfg : Config.
Variable clock : nat -> Z * Z.
Variable tau : nat -> Z.
Variable M : nat.
Variables dirname basename : string.
Variable d0 : gmap string (list Byte.byte).

Hypothesis Hstamps : stamps_ok cfg clock tau M.
Hypothesis Hsuffix : slash ∉ chars (pathSuffix cfg).
Hypothesis Hsplit : path_Split (pathPrefix cfg) = (dirname, basename).
Hypothesis Hempty : forall name, (slash ∉ chars name) ->
  d0 !! (dirname +:+ name)%string = None.

Lemma entries_decodes (m : nat) (vp : string) (t : JournalFileType) (ts : Z) :
  (m < M)%nat -> (vp, t, ts) ∈ entries cfg clock tau m -> decodes cfg vp t ts.
Proof.
  intros Hm Hin. unfold entries in Hin. apply elem_of_app in Hin as [Hin|Hin].
  - apply list_elem_of_fmap in Hin as (n & [= -> -> ->] & Hn). apply elem_of_seq in Hn.
    apply (so_rest _ _ _ _ Hstamps). lia.
  - apply list_elem_of_singleton in Hin as [= -> -> ->].
    by apply (so_head _ _ _ _ Hstamps).
Qed.

Lemma entries_sorted (m : nat) :
  (m < M)%nat -> StronglySorted (fun a b => a.2 < b.2) (entries cfg clock tau m).
Proof.
  intros Hm. unfold entries. apply StronglySorted_app_2.
  - intros x1 x2 H1 H2. apply list_elem_of_fmap in H1 as (n & -> & Hn).
    apply elem_of_seq in Hn. apply list_elem_of_singleton in H2 as ->. simpl.
    apply (so_mono _ _ _ _ Hstamps); lia.
  - apply StronglySorted_fmap with (R1 := fun a b => (a < b /\ b < M)%nat).
    + intros a b [Hab Hb]. simpl. by apply (so_mono _ _ _ _ Hstamps).
    + apply seq_sorted_below. lia.
  - repeat constructor.
Qed.

Lemma entries_files (m : nat) (past : list (list Byte.byte)) (cur : list Byte.byte)
    (s : State) :
  writing cfg clock d0 m past cur s ->
  Forall2 (fun e c => disk s !! file_of cfg e.1.1 = Some c)
          (entries cfg clock tau m) (past ++ [cur]).
Proof.
  intros Hwr. unfold entries. apply Forall2_app.
  - apply Forall2_same_length_lookup_2.
    + rewrite length_fmap, length_seq. symmetry. apply (wr_count _ _ _ _ _ _ _ Hwr).
    + intros i e c He Hc. rewrite list_lookup_fmap in He.
      destruct (seq 0 m !! i) as [n|] eqn:Hn; [|done].
      apply lookup_seq in Hn as [-> _]. simpl in He. injection He as <-. simpl.
      by apply (wr_done _ _ _ _ _ _ _ Hwr).
  - constructor; [|constructor]. simpl. apply (wr_cur _ _ _ _ _ _ _ Hwr).
Qed.

(** The directory lists the files of the chunks and nothing else. *)
Lemma entries_listed (m : nat) (past : list (list Byte.byte)) (cur : list Byte.byte)
    (s : State) (names : list string) :
  (m < M)%nat -> writing cfg clock d0 m past cur s ->
  dir_lists (disk s) dirname names ->
  names ≡ₚ (fun e => name_of cfg basename e.1.1) <$> entries cfg clock tau m.
Proof.
  intros Hm Hwr [Hnd Hnames].
  pose proof (wr_count _ _ _ _ _ _ _ Hwr) as Hcount.
  assert (Hname_inj : forall a b, name_of cfg basename a = name_of cfg basename b -> a = b).
  { intros a b H. unfold name_of in H. apply append_inv_head in H.
    by apply append_inv_tail in H. }
  apply NoDup_Permutation; [done| |].
  - (* the names of the files differ *)
    unfold entries. rewrite fmap_app. apply NoDup_app. split_and!.
    + rewrite <- list_fmap_compose. apply NoDup_fmap_2_strong; [|apply NoDup_seq].
      intros a b Ha Hb H. apply elem_of_seq in Ha, Hb. simpl in H.
      apply Hname_inj in H.
      apply (rest_name_inj cfg clock tau M Hstamps); [lia|lia|done].
    + intros x Hx Hx'. rewrite <- list_fmap_compose in Hx.
      apply list_elem_of_fmap in Hx as (n & -> & Hn). apply elem_of_seq in Hn.
      apply list_elem_of_singleton in Hx'. simpl in Hx'. apply Hname_inj in Hx'.
      symmetry in Hx'. by apply (head_rest_ne cfg clock tau M Hstamps) in Hx'; [|lia|lia].
    + apply NoDup_singleton.
  - intros name. rewrite Hnames. split.
    + (* a file of the directory is the file of a chunk *)
      intros [Hslash Hsome].
      set (p := (dirname +:+ name)%string) in *.
      destruct (decide (p = file_of cfg (head_name cfg clock m))) as [Hp|Hp].
      { unfold p in Hp. rewrite (file_of_name cfg dirname basename Hsplit) in Hp.
        apply append_inv_head in Hp. subst name.
        unfold entries. rewrite fmap_app. apply elem_of_app. right. left. }
      destruct (decide (p ∈ (fun n => file_of cfg (rest_name cfg clock n)) <$> seq 0 m))
        as [Hin|Hout].
      { apply list_elem_of_fmap in Hin as (n & Hpn & Hn).
        unfold p in Hpn. rewrite (file_of_name cfg dirname basename Hsplit) in Hpn.
        apply append_inv_head in Hpn. subst name.
        unfold entries. rewrite fmap_app. apply elem_of_app. left.
        rewrite <- list_fmap_compose. apply list_elem_of_fmap. by exists n. }
      exfalso. rewrite (wr_other _ _ _ _ _ _ _ Hwr) in Hsome; [|done|].
      * unfold p in Hsome. rewrite Hempty in Hsome by done. by destruct Hsome.
      * intros i Hi Heq. apply Hout. apply list_elem_of_fmap. exists i. split; [done|].
        apply elem_of_seq. lia.
    + (* the file of a chunk is in the directory *)
      intros Hin. apply list_elem_of_fmap in Hin as ([[vp t] ts] & -> & He). simpl.
      rewrite <- (file_of_name cfg dirname basename Hsplit).
      unfold entries in He. apply elem_of_app in He as [He|He].
      * apply list_elem_of_fmap in He as (n & [= -> -> ->] & Hn). apply elem_of_seq in Hn.
        split.
        -- apply (name_of_no_slash cfg dirname basename Hsuffix Hsplit).
           apply (so_rest_slash _ _ _ _ Hstamps). lia.
        -- destruct (lookup_lt_is_Some_2 past n) as [c Hc]; [lia|].
           rewrite (wr_done _ _ _ _ _ _ _ Hwr n c Hc). by eexists.
      * apply list_elem_of_singleton in He as [= -> -> ->]. split.
        -- apply (name_of_no_slash cfg dirname basename Hsuffix Hsplit).
           by apply (so_head_slash _ _ _ _ Hstamps).
        -- rewrite (wr_cur _ _ _ _ _ _ _ Hwr). by eexists.
Qed.

End Listing.

(** ** The scan round trip *)

Lemma GetJournalGroup_empty `{codec : PathCodec} (path dsuf : string) (maxSz : Z)
    (plugin : nat) (h : gmap ptr FileJournalChunk) (d : gmap string (list Byte.byte))
    (k : string) :
  exists f' g,
    GetJournalGroup (NewFileJournalGroupFactory dsuf maxSz) path plugin h
                    (Directory []) d = Ret (h, f', inr g) /\
    read_back h d (GetFileJournal k g).1 = Some [].
Proof.
  unfold GetJournalGroup, NewFileJournalGroupFactory. cbn [paths]. rewrite lookup_empty.
  cbn [defaultPathSuffix f_maxSize].
  destruct (split_pattern dsuf path) as [pre suf]. unfold scanJournals.
  destruct (path_Split pre) as [dn bn].
  eexists _, _. split.
  - cbn [scan_files]. rewrite bind_Ret.
    cbn [sc_journals]. rewrite map_to_list_empty. cbn [scan_finish]. rewrite bind_Ret.
    cbn iota beta. rewrite bind_Ret. cbn [sc_journals sc_heap].
    rewrite map_to_list_empty. cbn [open_writers]. rewrite bind_Ret. reflexivity.
  - unfold GetFileJournal. cbn [journals]. rewrite lookup_empty. done.
Qed.

(** X1.  Scan round trip.  Records are written one after the other to a
    journal of a group that starts without chunks, in a directory that
    holds no file yet; [Write] rolls over wherever the size limit asks for
    it.  Provided the names of the chunks decode to what they were built
    from and every chunk gets a greater timestamp than the chunks before
    it, every write succeeds; disposing the group closes the writer; and
    re-opening a group with the same path, whatever the order in which the
    directory lists its files, recovers the journal: reading its chunks
    from the tail chunk on, the oldest first, gives the records in the
    order in which they were written. *)
Theorem scan_round_trip `{codec : PathCodec} (k path dsuf pre suf dirname basename : string)
    (maxSz : Z) (plugin plugin' : nat) (clock : nat -> Z * Z) (tau : nat -> Z)
    (records : list (list Byte.byte)) (h0 h : gmap ptr FileJournalChunk)
    (d0 : gmap string (list Byte.byte)) :
  split_pattern dsuf path = (pre, suf) ->
  path_Split pre = (dirname, basename) ->
  (slash ∉ chars suf) ->
  0 <= maxSz < 2 ^ 63 ->
  (forall data, data ∈ records -> Z.of_nat (length data) < 2 ^ 63) ->
  stamps_ok (mkConfig k pre suf maxSz) clock tau (length records) ->
  (forall name, (slash ∉ chars name) -> d0 !! (dirname +:+ name)%string = None) ->
  exists s1,
    write_all (mkConfig k pre suf maxSz) clock 0 records
      (load h0 d0 (GetFileJournal k (mkGroup plugin pre suf maxSz ∅)).1)
    = Ret (None, s1) /\
    j_writer <$> journals (Group_Dispose
                   (mkGroup plugin pre suf maxSz {[ k := store s1 ]})) !! k
    = Some None /\
    forall names, dir_lists (disk s1) dirname names ->
      exists h' f' g,
        GetJournalGroup (NewFileJournalGroupFactory dsuf maxSz) path plugin' h
                        (Directory names) (disk s1) = Ret (h', f', inr g) /\
        (records <> [] -> is_Some (journals g !! k)) /\
        read_back h' (disk s1) (GetFileJournal k g).1 = Some (concat records).
Proof.
  intros Hpat Hsplit Hsuf Hmax Hlen Hstamps Hempty.
  set (cfg := mkConfig k pre suf maxSz) in *.
  unfold GetFileJournal at 1. cbn [journals]. rewrite lookup_empty. cbn [fst].
  destruct records as [|data records].
  - (* nothing is written *)
    eexists. split; [reflexivity|]. split.
    { unfold Group_Dispose. cbn [journals]. rewrite map_fmap_singleton.
      by rewrite lookup_singleton_eq. }
    intros names [_ Hnames]. cbn [load disk] in *.
    assert (names = []) as ->.
    { destruct names as [|name names]; [done|]. exfalso.
      destruct (proj1 (Hnames name) ltac:(left)) as [Hs Hsome].
      rewrite Hempty in Hsome by done. by destruct Hsome. }
    destruct (GetJournalGroup_empty path dsuf maxSz plugin' h d0 k) as (f' & g & Hg & Hread).
    exists h, f', g. done.
  - (* the first record makes the first chunk *)
    destruct (write_all_fresh cfg clock tau (length (data :: records)) dirname basename
                d0 Hstamps Hsuf Hsplit Hempty records data
                (load h0 d0 (mkJournal (mkDequeue None None 0) None 0)))
      as (s1 & m & past & cur & Hrun & Hwr & Hm & Hcat); try done.
    exists s1. split; [exact Hrun|]. split.
    { unfold Group_Dispose. cbn [journals]. rewrite map_fmap_singleton.
      rewrite lookup_singleton_eq. cbn [fmap option_fmap option_map].
      unfold Journal_Dispose, load, store. cbn [writer j_writer].
      rewrite (wr_writer _ _ _ _ _ _ _ Hwr). done. }
    intros names Hdir.
    pose proof (entries_listed cfg clock tau _ dirname basename d0 Hstamps Hsuf Hsplit
                  Hempty m past cur s1 names Hm Hwr Hdir) as Hnames.
    destruct (GetJournalGroup_recovers cfg dirname basename path dsuf plugin' h (disk s1)
                names ((fun n => (rest_name cfg clock n, Rest, tau n)) <$> seq 0 m)
                (head_name cfg clock m) (tau m) (past ++ [cur]))
      as (h' & f' & g & Hg & Hj & Hread & _); try done.
    + intros vp' t' ts' Hin.
      by apply (entries_decodes cfg clock tau _ Hstamps m).
    + by apply (entries_sorted cfg clock tau _ Hstamps m).
    + intros e He. apply list_elem_of_fmap in He as (n & -> & _). done.
    + by apply (entries_files cfg clock tau d0 m past cur s1).
    + exists h', f', g. split; [exact Hg|]. split; [done|]. by rewrite <- Hcat.
Qed.

Lemma scan_round_trip_witness :
  exists s1,
    write_all (codec := SampleCodec.codec) (mkConfig "s" "/tmp/j." ".log" 4)
      example_clock 0 [AAA; BBB; CCC]
      (load ∅ ∅ (GetFileJournal "s" (mkGroup 0 "/tmp/j." ".log" 4 ∅)).1)
    = Ret (None, s1) /\
    j_writer <$> journals (Group_Dispose
                   (mkGroup 0 "/tmp/j." ".log" 4 {[ "s"%string := store s1 ]})) !! "s"%string
    = Some None /\
    forall names, dir_lists (disk s1) "/tmp/" names ->
      exists h' f' g,
        GetJournalGroup (codec := SampleCodec.codec)
          (NewFileJournalGroupFactory ".buf" 4) "/tmp/j.*.log" 0 ∅
          (Directory names) (disk s1) = Ret (h', f', inr g) /\
        ([AAA; BBB; CCC] <> [] -> is_Some (journals g !! "s"%string)) /\
        read_back h' (disk s1) (GetFileJournal "s" g).1 = Some (concat [AAA; BBB; CCC]).
Proof.
  apply (scan_round_trip (codec := SampleCodec.codec) "s" "/tmp/j.*.log" ".buf"
           "/tmp/j." ".log" "/tmp/" "j." 4 0%nat 0%nat example_clock example_tau
           [AAA; BBB; CCC] ∅ ∅ ∅).
  - reflexivity.
  - reflexivity.
  - apply (bool_decide_unpack _). vm_compute. exact I.
  - lia.
  - intros data Hd.
    in_list Hd; simpl; lia.
  - assert (Hcases : forall n, (n < 3)%nat -> n = 0%nat \/ n = 1%nat \/ n = 2%nat) by lia.
    split.
    + intros n Hn. destruct (Hcases n Hn) as [-> | [-> | ->]];
        (eexists; split; [vm_compute; reflexivity|]; vm_compute; done).
    + intros n Hn. destruct (Hcases n Hn) as [-> | [-> | ->]];
        (eexists; split; [vm_compute; reflexivity|]; vm_compute; done).
    + intros n Hn. destruct (Hcases n Hn) as [-> | [-> | ->]];
        apply (bool_decide_unpack _); vm_compute; exact I.
    + intros n Hn. destruct (Hcases n Hn) as [-> | [-> | ->]];
        apply (bool_decide_unpack _); vm_compute; exact I.
    + intros n n' H1 H2. unfold example_tau. lia.
  - intros name _. apply lookup_empty.
Defined.

(** ** What the sort guarantees *)

(** X2.  [sortChunksByTimestamp] on the chunk list of a journal, in any
    order: it returns, the list holds the same chunks, no chunk comes
    before a chunk with a greater timestamp, the count is kept, and of the
    chunks nothing but the links is written. *)
Theorem sortChunksByTimestamp_sorts (h : gmap ptr FileJournalChunk)
    (q : FileJournalChunkDequeue) (l : list ptr) :
  dequeue_of h q l ->
  exists h' q' l',
    sortChunksByTimestamp h q = Ret (h', q') /\
    dequeue_of h' q' l' /\
    l' ≡ₚ l /\
    StronglySorted (newest_first (ts_of h)) l' /\
    chunks_count q' = chunks_count q /\
    (forall y, static h' y = static h y) /\
    (forall y, rc h' y = rc h y).
Proof. apply sortChunksByTimestamp_spec. Qed.

Lemma unsorted_dequeue : dequeue_of unsorted_heap unsorted [0; 1; 2]%nat.
Proof.
  split.
  - repeat (apply NoDup_cons_2; [rewrite ?elem_of_cons, elem_of_nil; lia|]).
    apply NoDup_nil_2.
  - split; [|done]. simpl. split_and!; done.
Qed.

Lemma sortChunksByTimestamp_sorts_witness :
  exists h' q' l',
    sortChunksByTimestamp unsorted_heap unsorted = Ret (h', q') /\
    dequeue_of h' q' l' /\
    l' ≡ₚ [0; 1; 2]%nat /\
    StronglySorted (newest_first (ts_of unsorted_heap)) l' /\
    chunks_count q' = chunks_count unsorted /\
    (forall y, static h' y = static unsorted_heap y) /\
    (forall y, rc h' y = rc unsorted_heap y).
Proof.
  apply (sortChunksByTimestamp_sorts unsorted_heap unsorted [0; 1; 2]%nat unsorted_dequeue).
Defined.

(** ** What [Purge] reclaims *)

Lemma survivors_held h (l : list ptr) (x : ptr) :
  x ∈ l -> rc h x <> Some 1 -> x ∈ survivors h l.
Proof.
  induction l as [|p l IH]; intros Hin Hrc; [by apply elem_of_nil in Hin|].
  simpl. apply elem_of_cons in Hin as [->|Hin].
  - destruct (survivors h l); [|left]. rewrite decide_False by done. left.
  - specialize (IH Hin Hrc). destruct (survivors h l) as [|q k]; [by apply elem_of_nil in IH|].
    by right.
Qed.

Lemma Purge_cascade (s : State) (l : list ptr) :
  journal_ok s l ->
  exists s', Purge s = Ret (None, s') /\
    journal_ok s' (survivors (heap s) l) /\
    (forall x, x ∈ survivors (heap s) l -> rc (heap s') x = rc (heap s) x) /\
    (forall x, static (heap s') x = static (heap s) x) /\
    disk s' = remove_files (heap s) (reclaimed (heap s) l) (disk s) /\
    writer s' = writer s /\ position s' = position s.
Proof.
  intros Hok.
  destruct l as [|n l1 _] using rev_ind.
  - assert (Hlast : chunks_last (chunks s) = None) by apply Hok.
    exists s. unfold Purge. rewrite Hlast. simpl. rewrite Hlast. done.
  - assert (Hlast : chunks_last (chunks s) = Some n).
    { destruct (ok_dequeue _ _ Hok) as (_ & _ & _ & ->). apply last_snoc. }
    destruct (ok_rc s _ n Hok) as (r & Hr & Hrange); [apply elem_of_app; right; left|].
    rewrite survivors_snoc, reclaimed_snoc.
    destruct (decide (r = 1)) as [->|Hne].
    + rewrite !decide_True by done.
      assert (Hfuel : (length l1 < depth s)%nat).
      { pose proof (ok_depth s _ Hok) as H. rewrite length_app in H. simpl in H. lia. }
      destruct (cascade_anchor (depth s) s l1 n Hok Hr Hfuel) as
        (s' & pn & Hrun & _ & Hlast' & Hlk & Hok3 & Hrc3 & Hst3 & Hd3 & Hw3).
      set (K := survivors (heap s) l1) in *.
      exists (anchor K s'). split; [|done].
      unfold Purge. rewrite Hlast, Hrun. simpl. rewrite Hlast'. unfold anchor.
      destruct (last K) as [k|] eqn:Hk; [|done].
      destruct (ok_dequeue _ _ Hok3) as (_ & Hseg & _).
      assert (Hin : k ∈ K).
      { apply list_elem_of_lookup. exists (pred (length K)). by rewrite <- last_lookup. }
      destruct (dseg_lookup _ _ _ _ _ Hseg Hin) as [c Hc].
      unfold anchor in Hc. rewrite Hk in Hc. simpl in Hc.
      unfold deref.
      destruct (heap s' !! k) as [c'|] eqn:Hc'; [done|].
      by rewrite lookup_alter_eq, Hc' in Hc.
    + assert (Hr1 : rc (heap s) n <> Some 1) by (rewrite Hr; congruence).
      rewrite !decide_False by done.
      exists s. split; [apply Purge_held with (k := n) (r := r); auto; lia|]. done.
Qed.

(** X3.  [Purge] on a journal in order returns no error.  It reclaims the
    chunks that nothing but the list references, from the oldest one up to
    the first chunk that is referenced more often: they leave the list and
    their files are removed.  The other chunks stay linked in their order,
    with their reference counts, their fields and their files; the writer
    and the position are not touched. *)
Theorem Purge_reclaims (s : State) (l : list ptr) :
  journal_ok s l ->
  exists s', Purge s = Ret (None, s') /\
    journal_ok s' (survivors (heap s) l) /\
    l = survivors (heap s) l ++ reclaimed (heap s) l /\
    (forall x, x ∈ reclaimed (heap s) l -> rc (heap s) x = Some 1) /\
    (forall k, last (survivors (heap s) l) = Some k -> rc (heap s) k <> Some 1) /\
    (forall x, x ∈ survivors (heap s) l -> rc (heap s') x = rc (heap s) x) /\
    (forall x, static (heap s') x = static (heap s) x) /\
    (forall x pth, x ∈ reclaimed (heap s) l -> path_of (heap s) x = Some pth ->
       disk s' !! pth = None) /\
    (forall x pth, x ∈ survivors (heap s) l -> path_of (heap s) x = Some pth ->
       disk s' !! pth = disk s !! pth) /\
    writer s' = writer s /\ position s' = position s.
Proof.
  intros Hok.
  destruct (Purge_cascade s l Hok) as (s' & Hrun & Hok' & Hrc & Hst & Hd & Hw & Hp).
  exists s'. split_and!; try done.
  - apply survivors_app.
  - apply reclaimed_once.
  - apply survivors_last.
  - intros x pth Hx Hpth. rewrite Hd. by apply (lookup_remove_files_None _ _ _ x).
  - intros x pth Hx Hpth. rewrite Hd. apply lookup_remove_files_other.
    intros y Hy Hypth.
    assert (x = y) as <-.
    { apply (ok_inj s l); [done| | |congruence].
      - by apply survivors_subset in Hx.
      - by apply reclaimed_subset in Hy. }
    destruct (ok_dequeue _ _ Hok) as (Hnd & _).
    rewrite (survivors_app (heap s) l) in Hnd.
    apply NoDup_app in Hnd as (_ & Hdisj & _). by apply (Hdisj x).
Qed.

Lemma Purge_reclaims_witness :
  journal_ok three_chunks [2; 1; 0]%nat /\
  exists s', Purge three_chunks = Ret (None, s') /\
    journal_ok s' (survivors (heap three_chunks) [2; 1; 0]%nat).
Proof.
  split; [apply three_chunks_ok|].
  destruct (Purge_reclaims three_chunks [2; 1; 0]%nat three_chunks_ok)
    as (s' & H1 & H2 & _).
  exists s'. split; [exact H1 | exact H2].
Defined.

(** X4.  On a journal in order, [Purge] does not reclaim a chunk whose
    reference count is two or more: [Purge] returns no error, the journal
    is in order afterwards, and the chunk is still linked, with the
    reference count and the file it had. *)
Theorem Purge_keeps_held (s : State) (l : list ptr) (p : ptr) (r : Z) :
  journal_ok s l -> p ∈ l -> rc (heap s) p = Some r -> 2 <= r ->
  exists s' l', Purge s = Ret (None, s') /\
    journal_ok s' l' /\ p ∈ l' /\ rc (heap s') p = Some r /\
    forall pth, path_of (heap s) p = Some pth -> disk s' !! pth = disk s !! pth.
Proof.
  intros Hok Hp Hr Hr2.
  destruct (Purge_cascade s l Hok) as (s' & Hrun & Hok' & Hrc & Hst & Hd & Hw & Hpos).
  assert (Hin : p ∈ survivors (heap s) l).
  { apply survivors_held; [done|]. rewrite Hr. intros [= ->]. lia. }
  exists s', (survivors (heap s) l). split_and!; try done.
  - by rewrite Hrc.
  - intros pth Hpth. rewrite Hd. apply lookup_remove_files_other.
    intros y Hy Hypth.
    assert (p = y) as <-.
    { apply (ok_inj s l); [done|done| |congruence]. by apply reclaimed_subset in Hy. }
    destruct (ok_dequeue _ _ Hok) as (Hnd & _).
    rewrite (survivors_app (heap s) l) in Hnd.
    apply NoDup_app in Hnd as (_ & Hdisj & _). by apply (Hdisj p).
Qed.

Lemma Purge_keeps_held_witness :
  exists s' l', Purge three_chunks = Ret (None, s') /\
    journal_ok s' l' /\ 2%nat ∈ l' /\ rc (heap s') 2%nat = Some 2 /\
    forall pth, path_of (heap three_chunks) 2%nat = Some pth ->
      disk s' !! pth = disk three_chunks !! pth.
Proof.
  apply (Purge_keeps_held three_chunks [2; 1; 0]%nat 2%nat 2 three_chunks_ok).
  - left.
  - reflexivity.
  - lia.
Defined.

(** ** Handles *)

Lemma int32_succ_pred (r : Z) : - 2 ^ 31 <= r < 2 ^ 31 -> int32 (int32 (r + 1) - 1) = r.
Proof.
  intros Hr. replace (r + 1) with (r - (-1)) by lia.
  replace (int32 (r - -1) - 1) with (int32 (r - -1) + -1) by lia.
  rewrite int32_add_sub. by apply int32_id.
Qed.

Lemma rc_add_refcount p d s x :
  rc (heap (add_refcount p d s)) x
  = if decide (x = p) then (fun r => int32 (r + d)) <$> rc (heap s) x else rc (heap s) x.
Proof.
  unfold add_refcount, rc. cbn [heap set_heap].
  destruct (decide (x = p)) as [->|Hne].
  - rewrite lookup_alter_eq. by destruct (heap s !! p).
  - by rewrite lookup_alter_ne.
Qed.

(** A handle that was made for a chunk and is disposed right away leaves
    the state as it was before the handle was made. *)
Lemma handle_released (s : State) (p : ptr) (r : Z) :
  rc (heap s) p = Some r -> 1 <= r < 2 ^ 31 ->
  newChunkWrapper p s = Ret (mkWrapper (Some p) 0, add_refcount p 1 s) /\
  Dispose (mkWrapper (Some p) 0) (add_refcount p 1 s) = Ret (None, mkWrapper None 0, s).
Proof.
  intros Hr Hrange. destruct (rc_Some _ _ _ Hr) as (c & Hc & Hrc).
  split.
  { unfold newChunkWrapper, deref. by rewrite Hc. }
  assert (Hd : deref (add_refcount p 1 s) p = Ret (with_refcount (int32 (r + 1)) c)).
  { unfold deref, add_refcount. cbn [heap set_heap]. rewrite lookup_alter_eq, Hc.
    simpl. by rewrite Hrc. }
  assert (Hback : add_refcount p (-1) (add_refcount p 1 s) = s).
  { change 1 with (- (-1)) at 1. apply (add_refcount_cancel p r (-1) s Hr). lia. }
  unfold Dispose. cbn [chunk ownershipTaken]. unfold depth.
  rewrite deleteRef_unfold. rewrite Hd, bind_Ret. cbn [refcount with_refcount].
  rewrite int32_succ_pred by lia.
  destruct (r =? 0) eqn:E0; [lia|]. destruct (r <? 0) eqn:E1; [lia|].
  rewrite bind_Ret. rewrite Hback. unfold deref. rewrite Hc. rewrite bind_Ret. done.
Qed.

Lemma add_refcount_comm p n d e s :
  p <> n -> add_refcount n e (add_refcount p d s) = add_refcount p d (add_refcount n e s).
Proof.
  intros Hne. unfold add_refcount, set_heap. cbn [heap disk chunks writer position].
  f_equal. by apply alter_alter_ne.
Qed.

Lemma deref_add_refcount p d s c :
  heap s !! p = Some c ->
  deref (add_refcount p d s) p = Ret (with_refcount (int32 (refcount c + d)) c).
Proof.
  intros Hc. unfold deref, add_refcount. cbn [heap set_heap].
  by rewrite lookup_alter_eq, Hc.
Qed.

Lemma read_chunks_spec (l1 : list ptr) : forall (fuel : nat) (p : ptr) (l2 : list ptr)
    (s : State),
  journal_ok s (l1 ++ p :: l2) -> (length l1 < fuel)%nat ->
  exists datas,
    mapM (fun x => c ← heap s !! x; disk s !! Path c) (reverse (l1 ++ [p])) = Some datas /\
    read_chunks fuel (mkWrapper (Some p) 0) (add_refcount p 1 s)
    = Ret (inr (concat datas), s).
Proof.
  induction l1 as [|n l1 IH] using rev_ind; intros fuel p l2 s Hok Hfuel.
  - destruct fuel as [|fuel]; [lia|].
    assert (Hp : p ∈ [] ++ p :: l2) by left.
    destruct (ok_rc s _ p Hok Hp) as (r & Hr & Hrange).
    destruct (rc_Some _ _ _ Hr) as (c & Hc & Hrc).
    destruct (ok_file s _ Hok p c Hp Hc) as [data Hdata].
    pose proof (dequeue_of_links _ _ [] p l2 (ok_dequeue _ _ Hok)) as Hlk.
    unfold links in Hlk. rewrite Hc in Hlk. simpl in Hlk. injection Hlk as Hprev _.
    exists [data]. split.
    { simpl. rewrite Hc. simpl. rewrite Hdata. done. }
    cbn [read_chunks]. unfold GetReader, GetNextChunk. cbn [chunk].
    rewrite (deref_add_refcount p 1 s c Hc), !bind_Ret.
    cbn [Path with_refcount head_prev disk add_refcount set_heap].
    rewrite Hdata, Hprev. repeat (rewrite bind_Ret; cbn [as_wrapper]; cbn iota beta).
    destruct (handle_released s p r Hr Hrange) as [_ Hdisp].
    change (set_heap (alter (fun c0 => with_refcount (int32 (refcount c0 + 1)) c0) p (heap s)) s)
      with (add_refcount p 1 s).
    rewrite Hdisp. repeat (rewrite bind_Ret; cbn iota beta). simpl. by rewrite app_nil_r.
  - rewrite length_app in Hfuel. simpl in Hfuel.
    destruct fuel as [|fuel]; [lia|].
    assert (Hp : p ∈ (l1 ++ [n]) ++ p :: l2) by (apply elem_of_app; right; left).
    assert (Hn : n ∈ (l1 ++ [n]) ++ p :: l2).
    { apply elem_of_app. left. apply elem_of_app. right. left. }
    assert (Hnp : p <> n).
    { destruct (ok_dequeue _ _ Hok) as (Hnd & _).
      apply NoDup_app in Hnd as (_ & Hdisj & _). intros ->.
      apply (Hdisj n); [apply elem_of_app; right; left | left]. }
    destruct (ok_rc s _ p Hok Hp) as (r & Hr & Hrange).
    destruct (rc_Some _ _ _ Hr) as (c & Hc & Hrc).
    destruct (ok_rc s _ n Hok Hn) as (rn & Hrn & Hrangen).
    destruct (rc_Some _ _ _ Hrn) as (cn & Hcn & Hrcn).
    destruct (ok_file s _ Hok p c Hp Hc) as [data Hdata].
    pose proof (dequeue_of_links _ _ (l1 ++ [n]) p l2 (ok_dequeue _ _ Hok)) as Hlk.
    unfold links in Hlk. rewrite Hc in Hlk. simpl in Hlk. injection Hlk as Hprev _.
    rewrite last_snoc in Hprev.
    destruct (IH fuel n (p :: l2) s) as (datas & Hmap & Hrun).
    { by rewrite <- app_assoc in Hok. }
    { lia. }
    exists (data :: datas). split.
    { rewrite reverse_snoc. cbn [mapM]. rewrite Hc. cbn [mbind option_bind].
      rewrite Hdata. cbn [mbind option_bind]. rewrite Hmap. done. }
    cbn [read_chunks]. unfold GetReader, GetNextChunk. cbn [chunk].
    rewrite (deref_add_refcount p 1 s c Hc), !bind_Ret.
    cbn [Path with_refcount head_prev disk add_refcount set_heap].
    rewrite Hdata, Hprev.
    change (set_heap (alter (fun c0 => with_refcount (int32 (refcount c0 + 1)) c0) p (heap s)) s)
      with (add_refcount p 1 s).
    assert (Hwrap : newChunkWrapper n (add_refcount p 1 s)
                    = Ret (mkWrapper (Some n) 0, add_refcount p 1 (add_refcount n 1 s))).
    { unfold newChunkWrapper, deref. cbn [heap add_refcount set_heap].
      rewrite lookup_alter_ne by done. rewrite Hcn, bind_Ret.
      by rewrite <- (add_refcount_comm p n 1 1 s). }
    rewrite bind_Ret. rewrite Hwrap.
    repeat (rewrite bind_Ret; cbn [as_wrapper]; cbn iota beta).
    destruct (handle_released (add_refcount n 1 s) p r) as [_ Hdisp]; [|done|].
    { rewrite rc_add_refcount, decide_False by done. done. }
    rewrite Hdisp. repeat (rewrite bind_Ret; cbn iota beta).
    rewrite Hrun. repeat (rewrite bind_Ret; cbn iota beta). done.
Qed.

(** X5.  Handles given out and given back.  On a journal in order,
    [GetTailChunk] gives a handle on the oldest chunk and [GetNextChunk]
    gives a handle on the next newer chunk; when there is no chunk, or at
    the newest one, the result is the interface value that holds the nil
    [*FileJournalChunkWrapper], not the nil interface.  Making a handle
    references its chunk once more; disposing the handle right away returns
    no error and leaves the whole state as it was before the handle was
    made. *)
Theorem handle_release_restores (s : State) (l : list ptr) :
  journal_ok s l ->
  (l = [] -> GetTailChunk s = Ret (wrapper_ptr None, s)) /\
  (forall p, last l = Some p ->
     GetTailChunk s = Ret (wrapper_ptr (Some (mkWrapper (Some p) 0)), add_refcount p 1 s) /\
     Dispose (mkWrapper (Some p) 0) (add_refcount p 1 s)
     = Ret (None, mkWrapper None 0, s)) /\
  (forall l1 p l2 o, l = l1 ++ p :: l2 ->
     match last l1 with
     | Some n =>
       GetNextChunk (mkWrapper (Some p) o) s
       = Ret (wrapper_ptr (Some (mkWrapper (Some n) 0)), add_refcount n 1 s) /\
       Dispose (mkWrapper (Some n) 0) (add_refcount n 1 s)
       = Ret (None, mkWrapper None 0, s)
     | None => GetNextChunk (mkWrapper (Some p) o) s = Ret (wrapper_ptr None, s)
     end).
Proof.
  intros Hok. split_and!.
  - intros ->. unfold GetTailChunk.
    destruct (ok_dequeue _ _ Hok) as (_ & _ & _ & ->). done.
  - intros p Hp.
    assert (Hin : p ∈ l).
    { apply list_elem_of_lookup. exists (pred (length l)). by rewrite <- last_lookup. }
    destruct (ok_rc s _ p Hok Hin) as (r & Hr & Hrange).
    destruct (handle_released s p r Hr Hrange) as [Hnew Hdisp].
    split; [|done]. unfold GetTailChunk.
    destruct (ok_dequeue _ _ Hok) as (_ & _ & _ & ->). rewrite Hp, Hnew, bind_Ret. done.
  - intros l1 p l2 o ->.
    assert (Hp : p ∈ l1 ++ p :: l2) by (apply elem_of_app; right; left).
    destruct (ok_rc s _ p Hok Hp) as (r & Hr & Hrange).
    destruct (rc_Some _ _ _ Hr) as (c & Hc & Hrc).
    pose proof (dequeue_of_links _ _ l1 p l2 (ok_dequeue _ _ Hok)) as Hlk.
    unfold links in Hlk. rewrite Hc in Hlk. simpl in Hlk. injection Hlk as Hprev _.
    unfold GetNextChunk. cbn [chunk]. unfold deref. rewrite Hc, bind_Ret, Hprev.
    destruct (last l1) as [n|] eqn:Hn; [|done].
    assert (Hin : n ∈ l1 ++ p :: l2).
    { apply elem_of_app. left. apply list_elem_of_lookup. exists (pred (length l1)).
      by rewrite <- last_lookup. }
    destruct (ok_rc s _ n Hok Hin) as (rn & Hrn & Hrangen).
    destruct (handle_released s n rn Hrn Hrangen) as [Hnew Hdisp].
    split; [|done]. rewrite Hnew, bind_Ret. done.
Qed.

Lemma handle_release_restores_witness :
  GetTailChunk three_chunks
  = Ret (wrapper_ptr (Some (mkWrapper (Some 0%nat) 0)), add_refcount 0%nat 1 three_chunks) /\
  Dispose (mkWrapper (Some 0%nat) 0) (add_refcount 0%nat 1 three_chunks)
  = Ret (None, mkWrapper None 0, three_chunks).
Proof.
  destruct (handle_release_restores three_chunks [2; 1; 0]%nat three_chunks_ok)
    as (_ & Htail & _).
  apply (Htail 0%nat). reflexivity.
Defined.

(** X6.  Ownership of a chunk is taken at most once through a handle: once
    [TakeOwnership] has returned true, every further call on the handle
    returns false and does not touch the state. *)
Theorem TakeOwnership_once (w w2 : FileJournalChunkWrapper) (s s2 : State) :
  TakeOwnership w s = Ret (true, w2, s2) ->
  chunk w2 = chunk w /\
  forall s3, TakeOwnership w2 s3 = Ret (false, w2, s3).
Proof.
  unfold TakeOwnership. destruct (chunk w) as [p|] eqn:Hp; [|done].
  destruct (ownershipTaken w =? 0); [|done].
  destruct (deleteRef (depth s) p s) as [[[e d] s']| |]; try done.
  simpl. intros [= <- <-]. split; [done|]. intros s3. done.
Qed.

Lemma TakeOwnership_once_witness :
  exists w2 s2,
    TakeOwnership (mkWrapper (Some 0%nat) 0) (add_refcount 0%nat 1 three_chunks)
    = Ret (true, w2, s2) /\
    TakeOwnership w2 s2 = Ret (false, w2, s2).
Proof.
  eexists _, _. split; [vm_compute; reflexivity|].
  apply (TakeOwnership_once (mkWrapper (Some 0%nat) 0) _
           (add_refcount 0%nat 1 three_chunks)
           (state_of (Ret (true, add_refcount 0%nat (-1) (add_refcount 0%nat 1 three_chunks))))).
  vm_compute. reflexivity.
Defined.

(** X7.  Reading a journal through its handles.  On a journal in order, a
    consumer that starts at [GetTailChunk], reads each chunk with
    [GetReader], moves on with [GetNextChunk], disposes the handle it
    leaves, and stops when the [*FileJournalChunkWrapper] inside the value
    it is given is the nil pointer, gets the contents of the files of all
    chunks, the oldest chunk first, meets no error, and leaves the whole
    state as it found it. *)
Theorem read_journal_reads (s : State) (l : list ptr) :
  journal_ok s l ->
  exists datas,
    mapM (fun x => c ← heap s !! x; disk s !! Path c) (reverse l) = Some datas /\
    read_journal s = Ret (inr (concat datas), s) /\
    read_back (heap s) (disk s) (store s) = Some (concat datas).
Proof.
  intros Hok.
  assert (Hback : forall datas,
            mapM (fun x => c ← heap s !! x; disk s !! Path c) (reverse l) = Some datas ->
            read_back (heap s) (disk s) (store s) = Some (concat datas)).
  { intros datas Hmap. unfold read_back, store. cbn [j_chunks].
    destruct (ok_dequeue _ _ Hok) as (Hnd & Hseg & _ & ->).
    rewrite (chain_prev_spec (heap s) l None (S (size (heap s))) Hseg).
    - cbn [mbind option_bind]. rewrite Hmap. done.
    - etrans; [apply (length_le_size (heap s) l Hnd)|lia].
      intros y Hy. by apply (dseg_lookup (heap s) None l None). }
  destruct l as [|p l1 _] using rev_ind.
  - exists []. split; [done|]. split; [|by apply Hback].
    unfold read_journal, GetTailChunk.
    destruct (ok_dequeue _ _ Hok) as (_ & _ & _ & ->). done.
  - destruct (read_chunks_spec l1 (depth s) p [] s Hok) as (datas & Hmap & Hrun).
    { pose proof (ok_depth s _ Hok) as H. rewrite length_app in H. simpl in H. lia. }
    exists datas. split; [done|]. split; [|by apply Hback].
    assert (Hp : p ∈ l1 ++ [p]) by (apply elem_of_app; right; left).
    destruct (ok_rc s _ p Hok Hp) as (r & Hr & Hrange).
    destruct (handle_released s p r Hr Hrange) as [Hnew _].
    unfold read_journal, GetTailChunk.
    destruct (ok_dequeue _ _ Hok) as (_ & _ & _ & ->). rewrite last_snoc.
    rewrite Hnew. repeat (rewrite bind_Ret; cbn [as_wrapper]; cbn iota beta). done.
Qed.

Lemma read_journal_reads_witness :
  exists datas,
    mapM (fun x => c ← heap three_chunks !! x; disk three_chunks !! Path c)
         (reverse [2; 1; 0]%nat) = Some datas /\
    read_journal three_chunks = Ret (inr (concat datas), three_chunks) /\
    read_back (heap three_chunks) (disk three_chunks) (store three_chunks)
    = Some (concat datas).
Proof.
  apply (read_journal_reads three_chunks [2; 1; 0]%nat three_chunks_ok).
Defined.

(** ** Groups and their factory *)

(** X8.  [GetFileJournal] gets the journal of a key or makes it: the
    journal it returns is the one the group holds for the key afterwards,
    a journal that was not there before has no chunk and no writer, the
    journals of the other keys are not touched, the key is among
    [GetJournalKeys], and a second call returns the same journal and
    changes nothing. *)
Theorem GetFileJournal_get_or_create (k : string) (g : FileJournalGroup) :
  let j := (GetFileJournal k g).1 in
  let g' := (GetFileJournal k g).2 in
  journals g' !! k = Some j /\
  (journals g !! k = None -> j = mkJournal (mkDequeue None None 0) None 0) /\
  (forall j0, journals g !! k = Some j0 -> j = j0 /\ g' = g) /\
  (forall k', k' <> k -> journals g' !! k' = journals g !! k') /\
  k ∈ GetJournalKeys g' /\
  GetFileJournal k g' = (j, g').
Proof.
  unfold GetFileJournal. destruct (journals g !! k) as [j0|] eqn:Hk; cbn [fst snd].
  - split_and!; try done.
    + intros j1 [= <-]. done.
    + unfold GetJournalKeys. apply list_elem_of_fmap. exists (k, j0). split; [done|].
      by apply elem_of_map_to_list.
    + by rewrite Hk.
  - cbn [journals]. split_and!; try done.
    + by rewrite lookup_insert_eq.
    + intros k' Hk'. by rewrite lookup_insert_ne.
    + unfold GetJournalKeys. cbn [journals]. apply list_elem_of_fmap.
      exists (k, mkJournal (mkDequeue None None 0) None 0). split; [done|].
      apply elem_of_map_to_list. by rewrite lookup_insert_eq.
    + by rewrite lookup_insert_eq.
Qed.

(** X9.  [journalGroup.Dispose] closes the writers: a journal whose writer
    is open comes out without a writer, its chunks and its position are
    kept, and no key is added or dropped.  Disposing the group a second
    time changes nothing. *)
Theorem Group_Dispose_closes (g : FileJournalGroup) :
  (forall k j, journals g !! k = Some j ->
     (forall w, j_writer j = Some w -> f_closed w = false) ->
     journals (Group_Dispose g) !! k
     = Some (mkJournal (j_chunks j) None (j_position j))) /\
  (forall k, journals g !! k = None -> journals (Group_Dispose g) !! k = None) /\
  Group_Dispose (Group_Dispose g) = Group_Dispose g.
Proof.
  split_and!.
  - intros k j Hj Hopen. unfold Group_Dispose. cbn [journals].
    rewrite lookup_fmap, Hj. cbn [fmap option_fmap option_map]. f_equal.
    unfold Journal_Dispose, load, store. cbn [writer].
    destruct (j_writer j) as [w|] eqn:Hw.
    + unfold file_Close. rewrite (Hopen w eq_refl). cbn. done.
    + cbn. done.
  - intros k Hk. unfold Group_Dispose. cbn [journals]. by rewrite lookup_fmap, Hk.
  - unfold Group_Dispose. cbn [journals pluginInstance g_pathPrefix g_pathSuffix g_maxSize].
    f_equal. rewrite <- map_fmap_compose. apply map_fmap_ext. intros k j _.
    unfold compose, Journal_Dispose, load, store. cbn [writer].
    destruct (j_writer j) as [w|] eqn:Hw; [|cbn; by rewrite ?Hw].
    unfold file_Close. destruct (f_closed w) eqn:Hc; cbn.
    + rewrite ?Hc. cbn. done.
    + done.
Qed.

Lemma Group_Dispose_closes_witness :
  journals (Group_Dispose (mkGroup 0 "/tmp/j." ".log" 4 {[ "s"%string := store three_chunks ]}))
    !! "s"%string
  = Some (mkJournal (chunks three_chunks) None (position three_chunks)).
Proof.
  destruct (Group_Dispose_closes
              (mkGroup 0 "/tmp/j." ".log" 4 {[ "s"%string := store three_chunks ]}))
    as (H & _ & _).
  apply (H "s"%string (store three_chunks)).
  - apply lookup_singleton_eq.
  - intros w Hw. injection Hw as <-. reflexivity.
Defined.

(** X10.  A group is made once per path.  When [GetJournalGroup] has
    returned a group for a path, the factory holds it under that path: a
    further call for the same path and the same plugin instance returns
    the same group without reading the directory, whatever it holds by
    then, and a call for another plugin instance is refused.  A call that
    returns an error leaves the factory as it was. *)
Theorem GetJournalGroup_registers `{codec : PathCodec} (f f' : FileJournalGroupFactory)
    (path : string) (plugin : nat) (h h' : gmap ptr FileJournalChunk) (dir : dirent)
    (d : gmap string (list Byte.byte)) (r : error + FileJournalGroup) :
  GetJournalGroup f path plugin h dir d = Ret (h', f', r) ->
  match r with
  | inr g =>
    pluginInstance g = plugin /\ paths f' !! path = Some g /\
    (forall h2 dir2 d2,
       GetJournalGroup f' path plugin h2 dir2 d2 = Ret (h2, f', inr g)) /\
    (forall plugin2 h2 dir2 d2, plugin2 <> plugin ->
       exists e, GetJournalGroup f' path plugin2 h2 dir2 d2 = Ret (h2, f', inl e))
  | inl _ => f' = f
  end.
Proof.
  assert (Hreg : forall (F : FileJournalGroupFactory) (g : FileJournalGroup),
            paths F !! path = Some g -> pluginInstance g = plugin ->
            (forall h2 dir2 d2,
               GetJournalGroup F path plugin h2 dir2 d2 = Ret (h2, F, inr g)) /\
            (forall plugin2 h2 dir2 d2, plugin2 <> plugin ->
               exists e, GetJournalGroup F path plugin2 h2 dir2 d2 = Ret (h2, F, inl e))).
  { intros F g HF Hg. split.
    - intros h2 dir2 d2. unfold GetJournalGroup. rewrite HF. by rewrite decide_True.
    - intros plugin2 h2 dir2 d2 Hne. unfold GetJournalGroup. rewrite HF.
      rewrite decide_False by congruence. by eexists. }
  unfold GetJournalGroup.
  destruct (paths f !! path) as [registered|] eqn:Hpath.
  - destruct (decide (pluginInstance registered = plugin)) as [Hp|Hp].
    + intros [= <- <- <-]. split; [done|]. split; [done|]. by apply Hreg.
    + intros [= <- <- <-]. done.
  - destruct (split_pattern (defaultPathSuffix f) path) as [pre suf].
    destruct (scanJournals h dir pre suf) as [[e|sc]| |]; simpl; try done.
    { intros [= <- <- <-]. done. }
    destruct (open_writers _ _ _ _) as [[h1 [e|js]]| |]; simpl; try done.
    { intros [= <- <- <-]. done. }
    intros [= <- <- <-]. split; [done|].
    assert (Hin : paths (mkFactory (<[path := mkGroup plugin pre suf (f_maxSize f) js]> (paths f))
                                   (defaultPathSuffix f) (f_maxSize f)) !! path
                  = Some (mkGroup plugin pre suf (f_maxSize f) js)).
    { cbn [paths]. by rewrite lookup_insert_eq. }
    split; [done|]. by apply Hreg.
Qed.

Lemma GetJournalGroup_registers_witness :
  exists f' g,
    GetJournalGroup (codec := SampleCodec.codec) (NewFileJournalGroupFactory ".log" 4)
      "/tmp/j.*.log" 7 ∅ (Directory []) ∅ = Ret (∅, f', inr g) /\
    GetJournalGroup (codec := SampleCodec.codec) f' "/tmp/j.*.log" 7 ∅
      (Directory foreign_names) foreign_disk = Ret (∅, f', inr g).
Proof.
  eexists _, _. split; [vm_compute; reflexivity|].
  pose proof (GetJournalGroup_registers (codec := SampleCodec.codec)
                (NewFileJournalGroupFactory ".log" 4)
                (mkFactory {[ "/tmp/j.*.log"%string := mkGroup 7 "/tmp/j." ".log" 4 ∅ ]} ".log" 4)
                "/tmp/j.*.log" 7 ∅ ∅ (Directory []) ∅
                (inr (mkGroup 7 "/tmp/j." ".log" 4 ∅))) as H.
  destruct H as (_ & _ & Hsame & _); [vm_compute; reflexivity|].
  apply Hsame.
Defined.

(** ** Writing: the ways it fails *)

Section WriteFails.

Context {codec : PathCodec}.
Variable cfg : Config.
Variable lsn : Listeners.

(** X11.  A journal that has been disposed takes no more records:
    [Dispose] closes the writer and sets it to nil, and a [Write] on a
    journal that has a chunk then calls [Write] on the nil writer, a nil
    pointer dereference.  A disposed journal without chunks starts a new
    chunk instead. *)
Theorem Write_after_Dispose_panics (data : list Byte.byte) (now rnd : Z) (s : State)
    (w : File) :
  writer s = Some w -> f_closed w = false -> chunks_first (chunks s) <> None ->
  Journal_Dispose s = (None, set_writer None s) /\
  Write cfg lsn data now rnd (set_writer None s)
  = Panic "invalid memory address or nil pointer dereference".
Proof.
  intros Hw Hopen Hfirst. split.
  - unfold Journal_Dispose, file_Close. by rewrite Hw, Hopen.
  - unfold Write. cbn [writer set_writer chunks].
    destruct (chunks_first (chunks s)); [|done]. by rewrite bind_Ret.
Qed.

(** X12.  The file of a new chunk is made with [O_EXCL]: when a file of
    that name is there already, [newChunk] and with it [Write] return the
    error of the open, and the journal is as before: the chunk list, the
    chunks that were there, the disk, the writer and the position. *)
Theorem Write_name_collision (data : list Byte.byte) (now rnd : Z) (s : State) :
  is_Some (disk s !! head_path cfg now rnd) ->
  calls_newChunk cfg data s = true ->
  exists e s',
    Write cfg lsn data now rnd s = Ret (Some e, s') /\
    e = ("open " +:+ head_path cfg now rnd +:+ ": file exists")%string /\
    chunks s' = chunks s /\ disk s' = disk s /\ writer s' = writer s /\
    position s' = position s /\
    forall p c, heap s !! p = Some c -> heap s' !! p = Some c.
Proof.
  intros [old Hold] Hcalls.
  assert (Hnew : exists s',
            newChunk cfg lsn now rnd s
            = Ret (inl ("open " +:+ head_path cfg now rnd +:+ ": file exists")%string, s') /\
            chunks s' = chunks s /\ disk s' = disk s /\ writer s' = writer s /\
            position s' = position s /\
            forall p c, heap s !! p = Some c -> heap s' !! p = Some c).
  { eexists. split.
    - unfold newChunk. cbv zeta. fold (head_path cfg now rnd). cbn [Path].
      unfold os_Create. cbn [disk set_heap]. rewrite Hold. reflexivity.
    - cbn [chunks disk writer position heap set_heap]. split_and!; try done.
      intros p c Hc. rewrite lookup_insert_ne; [done|].
      intros <-. by rewrite new_ptr_fresh in Hc. }
  destruct Hnew as (s' & Hrun & Hrest).
  exists ("open " +:+ head_path cfg now rnd +:+ ": file exists")%string, s'.
  split; [|done].
  unfold calls_newChunk in Hcalls. unfold Write.
  destruct (writer s) as [w|].
  - rewrite Hcalls. rewrite Hrun. by repeat (rewrite bind_Ret; cbn iota beta).
  - apply bool_decide_eq_true in Hcalls. rewrite Hcalls.
    rewrite Hrun. by repeat (rewrite bind_Ret; cbn iota beta).
Qed.

End WriteFails.

Lemma Write_after_Dispose_panics_witness :
  Journal_Dispose three_chunks = (None, set_writer None three_chunks) /\
  Write (codec := SampleCodec.codec) example_cfg no_listeners AAA 4 11
        (set_writer None three_chunks)
  = Panic "invalid memory address or nil pointer dereference".
Proof.
  apply (Write_after_Dispose_panics (codec := SampleCodec.codec) example_cfg no_listeners
           AAA 4 11 three_chunks (mkFile "/tmp/j.s.b12297.log" false)).
  - reflexivity.
  - reflexivity.
  - discriminate.
Defined.

Lemma Write_name_collision_witness :
  exists e s',
    Write (codec := SampleCodec.codec) example_cfg no_listeners CCC 3 9 three_chunks
    = Ret (Some e, s') /\
    e = ("open " +:+ head_path (codec := SampleCodec.codec) example_cfg 3 9
         +:+ ": file exists")%string /\
    chunks s' = chunks three_chunks /\ disk s' = disk three_chunks /\
    writer s' = writer three_chunks /\ position s' = position three_chunks /\
    forall p c, heap three_chunks !! p = Some c -> heap s' !! p = Some c.
Proof.
  apply (Write_name_collision (codec := SampleCodec.codec) example_cfg no_listeners
           CCC 3 9 three_chunks).
  - vm_compute. eexists. reflexivity.
  - vm_compute. reflexivity.
Defined.

(** ** The scan: what it refuses and what it passes over *)

(** X13.  The two errors of [validateChunks] on the chunk list of a
    journal: with more than one head chunk it is "multiple chunk heads
    found", wherever they are; with one head chunk that is not the first
    chunk of the list it is "chunk head does not have the newest
    timestamp". *)
Theorem validateChunks_errors (h : gmap ptr FileJournalChunk)
    (q : FileJournalChunkDequeue) (l : list ptr) :
  dequeue_of h q l ->
  ((2 <= length (filter (is_head h) l))%nat ->
     validateChunks h q = Ret (Some "multiple chunk heads found"%string)) /\
  (forall p, filter (is_head h) l = [p] -> head l <> Some p ->
     validateChunks h q
     = Ret (Some "chunk head does not have the newest timestamp"%string)).
Proof.
  intros (Hnd & Hseg & Hfirst & _).
  assert (Hlen : (length l < S (size h))%nat).
  { apply Nat.lt_succ_r, length_le_size; [done|].
    intros x. by apply dseg_lookup with (1 := Hseg). }
  assert (Hhd : chunks_first q = hd_or l None) by (rewrite Hfirst; by destruct l).
  unfold validateChunks. rewrite Hhd.
  rewrite (validate_loop_spec h l None _ None Hseg Hlen). rewrite bind_Ret.
  split.
  - intros H2. destruct (filter (is_head h) l) as [|x [|y k]]; simpl in H2; try lia.
    done.
  - intros p Hp Hne. rewrite Hp. simpl.
    rewrite decide_False; [done|]. destruct l; simpl in *; congruence.
Qed.

Lemma validateChunks_errors_witness :
  validateChunks unsorted_heap unsorted
  = Ret (Some "chunk head does not have the newest timestamp"%string).
Proof.
  destruct (validateChunks_errors unsorted_heap unsorted [0; 1; 2]%nat unsorted_dequeue)
    as [_ H].
  apply (H 1%nat).
  - vm_compute. reflexivity.
  - discriminate.
Defined.

Section ScanSkips.

Context {codec : PathCodec}.

(** X14.  What the scan passes over.  A directory entry that does not end
    with the suffix is skipped.  An entry that ends with the suffix, is
    long enough to be cut, and whose cut does not decode is skipped with a
    warning.  So when every entry is of one of the two kinds the scan
    returns no journal, allocates no chunk, and warns, in the order of the
    listing, of the entries of the second kind. *)
Theorem scanJournals_skips (h : gmap ptr FileJournalChunk) (names : list string)
    (pre suf : string) :
  (forall name, name ∈ names ->
     HasSuffix name suf = false \/
     (len (path_Split pre).2 + len suf <= len name)%nat /\
     forall vp, slice name (Z.of_nat (len (path_Split pre).2))
                      (Z.of_nat (len name) - Z.of_nat (len suf)) = Ret vp ->
                DecodeJournalPath vp = None) ->
  scanJournals h (Directory names) pre suf
  = Ret (inr (mkScan h ∅ (filter (fun name => HasSuffix name suf = true) names))).
Proof.
  intros Hnames. unfold scanJournals.
  destruct (path_Split pre) as [dirname basename] eqn:Hsplit. cbn [snd] in Hnames.
  assert (Hscan : forall ws,
            scan_files pre suf basename names (mkScan h ∅ ws)
            = Ret (mkScan h ∅ (ws ++ filter (fun name => HasSuffix name suf = true) names))).
  { induction names as [|name names IH]; intros ws.
    - simpl. by rewrite app_nil_r.
    - cbn [scan_files]. unfold scan_file at 1.
      destruct (Hnames name ltac:(left)) as [Hno|[Hlong Hdec]].
      + rewrite Hno. cbn [negb]. rewrite bind_Ret.
        rewrite IH by (intros x Hx; apply Hnames; by right).
        rewrite filter_cons, decide_False by (rewrite Hno; done). done.
      + destruct (HasSuffix name suf) eqn:Hs.
        * cbn [negb].
          assert (Hsl : exists vp, slice name (Z.of_nat (len basename))
                          (Z.of_nat (len name) - Z.of_nat (len suf)) = Ret vp).
          { unfold slice. rewrite bool_decide_eq_true_2 by lia. by eexists. }
          destruct Hsl as [vp Hvp]. rewrite Hvp, bind_Ret. rewrite (Hdec vp Hvp).
          rewrite bind_Ret. cbn [sc_heap sc_journals sc_warnings].
          rewrite IH by (intros x Hx; apply Hnames; by right).
          rewrite filter_cons, decide_True by done. by rewrite <- app_assoc.
        * cbn [negb]. rewrite bind_Ret.
          rewrite IH by (intros x Hx; apply Hnames; by right).
          rewrite filter_cons, decide_False by (rewrite Hs; done). done. }
  rewrite (Hscan []), bind_Ret. cbn [sc_journals app].
  rewrite map_to_list_empty. cbn [scan_finish]. by rewrite bind_Ret.
Qed.

End ScanSkips.

Lemma scanJournals_skips_witness :
  scanJournals (codec := SampleCodec.codec) ∅
    (Directory ["notes.txt"; "j.garbage.log"]%string) "/tmp/j." ".log"
  = Ret (inr (mkScan ∅ ∅ ["j.garbage.log"%string])).
Proof.
  apply (scanJournals_skips (codec := SampleCodec.codec) ∅
           ["notes.txt"; "j.garbage.log"]%string "/tmp/j." ".log").
  intros name Hin. in_list Hin.
  - left. vm_compute. reflexivity.
  - right. split; [vm_compute; lia|]. intros vp Hvp. vm_compute in Hvp.
    injection Hvp as <-. vm_compute. reflexivity.
Defined.

(** X15.  How [GetJournalGroup] cuts its path.  A path with a star is cut
    at the first star: the prefix holds no star, and prefix, star and
    suffix make up the path.  A path without a star gets a dot behind it
    as the prefix, and the default suffix of the factory. *)
Theorem split_pattern_spec (dsuf path : string) :
  let pre := (split_pattern dsuf path).1 in
  let suf := (split_pattern dsuf path).2 in
  (("*"%char ∈ chars path) ->
     path = (pre +:+ "*" +:+ suf)%string /\ "*"%char ∉ chars pre) /\
  (("*"%char ∉ chars path) -> pre = (path +:+ ".")%string /\ suf = dsuf).
Proof.
  assert (Hidx : forall (c : ascii) (l : list ascii),
            match index_of c l with
            | Some i => l = take i l ++ c :: drop (S i) l /\ c ∉ take i l
            | None => c ∉ l
            end).
  { intros c l. induction l as [|x l IH]; simpl; [apply not_elem_of_nil|].
    destruct (decide (x = c)) as [->|Hne].
    - simpl. rewrite drop_0. split; [done|apply not_elem_of_nil].
    - destruct (index_of c l) as [i|]; simpl.
      + destruct IH as [IH1 IH2]. split; [by rewrite <- IH1|].
        apply not_elem_of_cons. split; [congruence|done].
      + apply not_elem_of_cons. split; [congruence|done]. }
  unfold split_pattern. specialize (Hidx "*"%char (chars path)).
  destruct (index_of "*"%char (chars path)) as [i|]; cbn [fst snd].
  - destruct Hidx as [Heq Hnot]. split.
    + intros _. split.
      * apply chars_inj. rewrite !chars_app, !chars_str. exact Heq.
      * by rewrite chars_str.
    + intros Hno. exfalso. apply Hno. rewrite Heq. apply elem_of_app. right. left.
  - split; [done|]. done.
Qed.

(** ** [Flush] *)

Lemma flush_collect_spec (h : gmap ptr FileJournalChunk) (q : FileJournalChunkDequeue)
    (l1 : list ptr) : forall (l2 : list ptr) (fuel : nat),
  dequeue_of h q (l1 ++ l2) -> (length l1 <= fuel)%nat ->
  flush_collect fuel h (last l1) (length l2)
    ((Some <$> reverse l2) ++ replicate (length l1) None)
  = Ret (Some <$> reverse (l1 ++ l2)).
Proof.
  induction l1 as [|p l1 IH] using rev_ind; intros l2 fuel Hq Hfuel.
  - simpl. rewrite app_nil_r. by destruct fuel.
  - rewrite length_app in Hfuel. simpl in Hfuel.
    destruct fuel as [|fuel]; [lia|].
    rewrite last_snoc. cbn [flush_collect].
    rewrite decide_True.
    2:{ rewrite length_app, length_fmap, length_reverse, length_replicate, length_app.
        simpl. lia. }
    rewrite <- app_assoc in Hq. cbn [app] in Hq.
    pose proof (dequeue_of_links _ _ l1 p l2 Hq) as Hlk.
    unfold links in Hlk. destruct (h !! p) as [c|] eqn:Hc; [|done].
    simpl in Hlk. injection Hlk as Hprev _. rewrite Hprev.
    rewrite length_app. cbn [length]. rewrite Nat.add_1_r. cbn [replicate].
    assert (Hins : <[length l2 := Some p]>
                     ((Some <$> reverse l2) ++ None :: replicate (length l1) None)
                   = (Some <$> reverse (p :: l2)) ++ replicate (length l1) None).
    { rewrite reverse_cons, fmap_app, <- app_assoc. cbn [fmap list_fmap app].
      replace (length l2) with (length (Some <$> reverse l2) + 0)%nat at 1
        by (rewrite length_fmap, length_reverse; lia).
      by rewrite insert_app_r. }
    rewrite Hins.
    change (S (length l2)) with (length (p :: l2)).
    rewrite (IH (p :: l2) fuel Hq) by lia.
    by rewrite <- app_assoc.
Qed.

Lemma flush_collect_all (s : State) (l : list ptr) :
  journal_ok s l ->
  flush_collect (depth s) (heap s) (chunks_last (chunks s)) 0
                (replicate (length l) None)
  = Ret (Some <$> reverse l).
Proof.
  intros Hok. destruct (ok_dequeue _ _ Hok) as (Hnd & Hseg & Hfirst & Hlast).
  rewrite Hlast.
  pose proof (flush_collect_spec (heap s) (chunks s) l [] (depth s)) as Hcol.
  rewrite app_nil_r in Hcol. apply Hcol; [apply Hok|].
  pose proof (ok_depth s l Hok). lia.
Qed.

Lemma flush_visit_release (s : State) (l : list ptr) (k : list ptr) :
  journal_ok s l -> (forall x, x ∈ k -> x ∈ l) ->
  flush_visit release (Some <$> k) s = Ret (None, s).
Proof.
  intros Hok. induction k as [|p k IH]; intros Hk; [done|].
  destruct (ok_rc s _ p Hok (Hk p ltac:(left))) as (r & Hr & Hrange).
  destruct (handle_released s p r Hr Hrange) as [Hnew Hdisp].
  cbn [fmap list_fmap flush_visit]. rewrite Hnew, bind_Ret. cbn iota beta.
  unfold release. rewrite Hdisp. repeat (rewrite bind_Ret; cbn iota beta).
  apply IH. intros x Hx. apply Hk. by right.
Qed.

(** X16.  What [Flush] hands to its visitor.  On a journal in order whose
    count is the number of its chunks, [Flush] makes one handle per chunk,
    from the oldest chunk to the newest, and calls the visitor with it;
    the first error of the visitor ends the call and is returned, and
    [Purge] does not run then.  When the visitor meets no error [Purge]
    runs and [Flush] returns no error, whatever [Purge] returned. *)
Theorem Flush_visits (v : Visitor) (s : State) (l : list ptr) :
  journal_ok s l -> chunks_count (chunks s) = Z.of_nat (length l) ->
  Flush (Some v) s
  = '(err, s1) ← flush_visit v (Some <$> reverse l) s;
    match err with
    | Some e => Ret (Some e, s1)
    | None => '(_, s2) ← Purge s1; Ret (None, s2)
    end.
Proof.
  intros Hok Hcount. unfold Flush. rewrite Hcount.
  destruct (Z.of_nat (length l) <? 0) eqn:E; [lia|].
  rewrite Nat2Z.id. rewrite (flush_collect_all s l Hok). by rewrite bind_Ret.
Qed.

Lemma Flush_visits_witness :
  Flush (Some release) three_chunks
  = '(err, s1) ← flush_visit release (Some <$> reverse [2; 1; 0]%nat) three_chunks;
    match err with
    | Some e => Ret (Some e, s1)
    | None => '(_, s2) ← Purge s1; Ret (None, s2)
    end.
Proof.
  apply (Flush_visits release three_chunks [2; 1; 0]%nat three_chunks_ok).
  reflexivity.
Defined.

(** X17.  A visitor that only gives its handles back: [Flush] with it does
    what [Flush] with a nil visitor does, which is what [Purge] does, and
    returns no error. *)
Theorem Flush_release (s : State) (l : list ptr) :
  journal_ok s l -> chunks_count (chunks s) = Z.of_nat (length l) ->
  exists s', Purge s = Ret (None, s') /\
    Flush None s = Ret (None, s') /\
    Flush (Some release) s = Ret (None, s').
Proof.
  intros Hok Hcount.
  destruct (Purge_cascade s l Hok) as (s' & Hpurge & _).
  exists s'. split; [done|]. split.
  - unfold Flush. rewrite bind_Ret. cbn iota beta. rewrite Hpurge, bind_Ret. done.
  - unfold Flush. rewrite Hcount.
    destruct (Z.of_nat (length l) <? 0) eqn:E; [lia|].
    rewrite Nat2Z.id. rewrite (flush_collect_all s l Hok). rewrite bind_Ret.
    rewrite (flush_visit_release s l (reverse l) Hok)
      by (intros x Hx; by rewrite elem_of_reverse in Hx).
    rewrite bind_Ret. cbn iota beta. rewrite Hpurge, bind_Ret. done.
Qed.

Lemma Flush_release_witness :
  exists s', Purge three_chunks = Ret (None, s') /\
    Flush None three_chunks = Ret (None, s') /\
    Flush (Some release) three_chunks = Ret (None, s').
Proof.
  apply (Flush_release three_chunks [2; 1; 0]%nat three_chunks_ok). reflexivity.
Defined.

(** ** Writing keeps the journal in order *)

Section WriteKeeps.

Context {codec : PathCodec}.
Variable cfg : Config.

Lemma rolled_ok (now rnd : Z) (s : State) (oh : ptr) (l0 : list ptr)
    (c : FileJournalChunk) (old data : list Byte.byte) :
  journal_ok s (oh :: l0) -> heap s !! oh = Some c -> 2 <= refcount c ->
  disk s !! Path c = Some old ->
  disk s !! head_path cfg now rnd = None ->
  disk s !! rest_path cfg c = None ->
  rest_path cfg c <> head_path cfg now rnd ->
  journal_ok (set_position (Z.of_nat (length data))
                (set_disk (<[head_path cfg now rnd := data]>
                             (disk (rolled cfg now rnd s oh c old)))
                          (rolled cfg now rnd s oh c old)))
             (new_ptr (heap s) :: oh :: l0).
Proof.
  intros Hok Hc Hrc Hold Hnew Hrest Hne.
  pose proof (new_ptr_fresh (heap s)) as Hfresh.
  set (p := new_ptr (heap s)) in *.
  destruct (ok_dequeue _ _ Hok) as (Hnd & Hseg & Hfirst & Hlast).
  assert (Hpl : p ∉ oh :: l0).
  { intros Hin. destruct (dseg_lookup _ _ _ _ p Hseg Hin) as [x Hx]. congruence. }
  assert (Hpoh : p <> oh) by (intros ->; apply Hpl; left).
  apply NoDup_cons in Hnd as [Hoh Hnd0].
  destruct Hseg as [Hlk Hseg0].
  unfold links in Hlk. rewrite Hc in Hlk. simpl in Hlk. injection Hlk as _ Hnext.
  set (h' := <[p := new_head cfg now rnd (Some oh)]> (<[oh := sealed cfg p c]> (heap s))).
  assert (Hother : forall x, x ∈ l0 -> h' !! x = heap s !! x).
  { intros x Hx. unfold h'. rewrite !lookup_insert_ne; [done| |].
    - intros <-. done.
    - intros <-. apply Hpl. by right. }
  assert (Hfile_other : forall x cx, x ∈ l0 -> heap s !! x = Some cx ->
            Path cx <> Path c /\ Path cx <> head_path cfg now rnd /\
            Path cx <> rest_path cfg c).
  { intros x cx Hx Hcx.
    destruct (ok_file _ _ Hok x cx ltac:(by right) Hcx) as [y Hy]. split_and!.
    - intros Heq. assert (x = oh); [|by subst].
      apply (ok_paths _ _ Hok x oh cx c); [by right|left|done|done|done].
    - intros Heq. congruence.
    - intros Heq. congruence. }
  split; cbn [heap chunks disk set_position set_disk rolled]; fold p; fold h'.
  - (* the list *)
    split_and!.
    + apply NoDup_cons. split; [done|]. by apply NoDup_cons.
    + cbn [dseg hd_or]. split_and!.
      * unfold links, h'. by rewrite lookup_insert_eq.
      * unfold links, h'. rewrite lookup_insert_ne by done. rewrite lookup_insert_eq.
        simpl. by rewrite Hnext.
      * apply dseg_frame with (h := heap s); [|done].
        intros x Hx. unfold links. by rewrite Hother.
    + done.
    + cbn [chunks_last]. rewrite Hlast. done.
  - (* the reference counts *)
    intros x cx Hx Hcx. apply elem_of_cons in Hx as [->|Hx].
    { unfold h' in Hcx. rewrite lookup_insert_eq in Hcx. injection Hcx as <-. simpl. lia. }
    apply elem_of_cons in Hx as [->|Hx].
    { unfold h' in Hcx. rewrite lookup_insert_ne, lookup_insert_eq in Hcx by done.
      injection Hcx as <-. simpl.
      pose proof (ok_refcount _ _ Hok oh c ltac:(left) Hc). lia. }
    rewrite Hother in Hcx by done.
    apply (ok_refcount _ _ Hok x cx); [by right|done].
  - (* the files *)
    intros x cx Hx Hcx. apply elem_of_cons in Hx as [->|Hx].
    { unfold h' in Hcx. rewrite lookup_insert_eq in Hcx. injection Hcx as <-. simpl.
      rewrite lookup_insert_eq. by eexists. }
    apply elem_of_cons in Hx as [->|Hx].
    { unfold h' in Hcx. rewrite lookup_insert_ne, lookup_insert_eq in Hcx by done.
      injection Hcx as <-. simpl.
      rewrite lookup_insert_ne by done. rewrite lookup_insert_eq. by eexists. }
    rewrite Hother in Hcx by done.
    destruct (Hfile_other x cx Hx Hcx) as (H1 & H2 & H3).
    rewrite lookup_insert_ne by done. rewrite lookup_insert_ne by done.
    rewrite lookup_delete_ne by done. rewrite lookup_insert_ne by done.
    apply (ok_file _ _ Hok x cx); [by right|done].
  - (* the paths differ *)
    assert (Hpath : forall x cx, x ∈ p :: oh :: l0 -> h' !! x = Some cx ->
              (x = p /\ Path cx = head_path cfg now rnd) \/
              (x = oh /\ Path cx = rest_path cfg c) \/
              (x ∈ l0 /\ heap s !! x = Some cx)).
    { intros x cx Hx Hcx. apply elem_of_cons in Hx as [->|Hx].
      { left. unfold h' in Hcx. rewrite lookup_insert_eq in Hcx. by injection Hcx as <-. }
      apply elem_of_cons in Hx as [->|Hx].
      { right. left. unfold h' in Hcx.
        rewrite lookup_insert_ne, lookup_insert_eq in Hcx by done. by injection Hcx as <-. }
      right. right. by rewrite Hother in Hcx. }
    intros x y cx cy Hx Hy Hcx Hcy Heq.
    destruct (Hpath x cx Hx Hcx) as [[-> Hpx]|[[-> Hpx]|[Hx0 Hcx0]]];
      destruct (Hpath y cy Hy Hcy) as [[-> Hpy]|[[-> Hpy]|[Hy0 Hcy0]]]; try done;
      try congruence.
    + destruct (Hfile_other y cy Hy0 Hcy0) as (_ & H2 & _). congruence.
    + destruct (Hfile_other y cy Hy0 Hcy0) as (_ & _ & H3). congruence.
    + destruct (Hfile_other x cx Hx0 Hcx0) as (_ & H2 & _). congruence.
    + destruct (Hfile_other x cx Hx0 Hcx0) as (_ & _ & H3). congruence.
    + apply (ok_paths _ _ Hok x y cx cy); [by right|by right|done|done|done].
Qed.

(** X18.  Writing keeps the journal in order.  On a journal that is in
    order, whose writer is open on the file of the newest chunk and whose
    newest chunk has a reference count of two or more (the list's
    reference and the writer's), a [Write] without listeners succeeds,
    provided that, when it has to roll over, the names of the new head file
    and of the sealed file are free.  Afterwards the journal is in order
    again, with the writer open on the file of the newest chunk and that
    chunk referenced twice or more: the chunk list is the same, or has one
    new chunk in front. *)
Theorem Write_keeps_open (data : list Byte.byte) (now rnd : Z) (s : State)
    (oh : ptr) (l0 : list ptr) (c : FileJournalChunk) :
  journal_open s (oh :: l0) -> heap s !! oh = Some c ->
  0 <= maxSize cfg < 2 ^ 63 -> Z.of_nat (length data) < 2 ^ 63 ->
  (calls_newChunk cfg data s = true ->
     disk s !! head_path cfg now rnd = None /\ disk s !! rest_path cfg c = None /\
     rest_path cfg c <> head_path cfg now rnd) ->
  exists s' l',
    Write cfg no_listeners data now rnd s = Ret (None, s') /\
    journal_open s' l' /\
    l' = (if calls_newChunk cfg data s then new_ptr (heap s) :: oh :: l0 else oh :: l0).
Proof.
  intros [Hok (oh' & c' & w & Hhd & Hc' & Hw & Hpath & Hopen & Hrc) Hpos] Hc Hmax Hlen Hfree.
  simpl in Hhd. injection Hhd as <-. assert (c' = c) as -> by congruence.
  destruct (ok_file _ _ Hok oh c ltac:(left) Hc) as [old Hold].
  pose proof (ok_refcount _ _ Hok oh c ltac:(left) Hc) as Hrange.
  unfold calls_newChunk in *. rewrite Hw in *.
  rewrite (int64_id (maxSize cfg - position s)) in * by lia.
  destruct (maxSize cfg - position s <? Z.of_nat (length data)) eqn:E.
  - apply Z.ltb_lt in E. destruct (Hfree eq_refl) as (Hnew & Hrest & Hne).
    destruct (ok_dequeue _ _ Hok) as (_ & _ & Hfirst & _).
    eexists _, _. split; [|split; [|reflexivity]].
    + eapply (Write_rolls cfg data now rnd s w oh c old); try done; try lia.
    + split.
      * by apply rolled_ok.
      * exists (new_ptr (heap s)), (new_head cfg now rnd (Some oh)),
               (mkFile (head_path cfg now rnd) false).
        cbn [head heap writer set_position set_disk rolled f_path f_closed].
        split_and!; try done. by rewrite lookup_insert_eq.
      * cbn [position set_position]. lia.
  - apply Z.ltb_ge in E.
    eexists _, _. split; [|split; [|reflexivity]].
    + eapply (Write_appends cfg data now rnd s w); try done; lia.
    + rewrite Hpath, Hold. split.
      * destruct Hok as [Hq Hrcs Hfiles Hpaths].
        split; cbn [heap chunks disk set_position set_disk]; try done.
        intros x cx Hx Hcx. destruct (Hfiles x cx Hx Hcx) as [y Hy].
        destruct (decide (Path c = Path cx)) as [Heq|Hneq].
        -- rewrite Heq, lookup_insert_eq. by eexists.
        -- rewrite lookup_insert_ne by done. by eexists.
      * exists oh, c, w. cbn [head heap writer set_position set_disk]. done.
      * cbn [position set_position]. lia.
Qed.

End WriteKeeps.

Lemma three_chunks_open : journal_open three_chunks [2; 1; 0]%nat.
Proof.
  split.
  - apply three_chunks_ok.
  - eexists 2%nat, _, _. split; [reflexivity|]. split; [vm_compute; reflexivity|].
    split; [reflexivity|]. split; [reflexivity|]. split; [reflexivity|]. simpl. lia.
  - simpl. lia.
Qed.

Lemma Write_keeps_open_witness :
  exists s' l',
    Write (codec := SampleCodec.codec) example_cfg no_listeners AAA 4 11 three_chunks
    = Ret (None, s') /\
    journal_open s' l' /\
    l' = (if calls_newChunk example_cfg AAA three_chunks
          then new_ptr (heap three_chunks) :: 2%nat :: [1; 0]%nat
          else 2%nat :: [1; 0]%nat).
Proof.
  apply (Write_keeps_open (codec := SampleCodec.codec) example_cfg AAA 4 11 three_chunks
           2%nat [1; 0]%nat
           (mkChunk (Some 1%nat) None "/tmp/j.s.b12297.log" Head "12297" 0
                    (list_byte_of_string "12297") 2)).
  - apply three_chunks_open.
  - vm_compute. reflexivity.
  - simpl. lia.
  - simpl. lia.
  - intros _. split; [vm_compute; reflexivity|]. split; [vm_compute; reflexivity|].
    vm_compute. discriminate.
Defined.

(** ** The journal that a restart recovers *)

(** X19.  What [GetJournalGroup] recovers.  The directory holds, in any
    order, the files of the sealed chunks [E0] and the file of one head
    chunk of a key and nothing else; the names decode, and the timestamps
    grow from file to file up to the head.  Then a new factory returns a
    group whose journal of that key is in order: one chunk per file, from
    the head chunk down to the oldest timestamp, each with its file; the
    head chunk is referenced by the list and by the writer, the others
    once; the writer is open on the head file, and the position is the
    size of that file. *)
Theorem reopened_journal_open `{codec : PathCodec} (cfg : Config)
    (dirname basename path dsuf : string) (plugin : nat)
    (h : gmap ptr FileJournalChunk) (d : gmap string (list Byte.byte))
    (names : list string) (E0 : list (string * JournalFileType * Z)) (vp : string)
    (ts : Z) (contents : list (list Byte.byte)) :
  split_pattern dsuf path = (pathPrefix cfg, pathSuffix cfg) ->
  path_Split (pathPrefix cfg) = (dirname, basename) ->
  names ≡ₚ (fun e => name_of cfg basename e.1.1) <$> (E0 ++ [(vp, Head, ts)]) ->
  (forall vp' t' ts', (vp', t', ts') ∈ E0 ++ [(vp, Head, ts)] -> decodes cfg vp' t' ts') ->
  StronglySorted (fun a b => a.2 < b.2) (E0 ++ [(vp, Head, ts)]) ->
  (forall e, e ∈ E0 -> e.1.2 = Rest) ->
  Forall2 (fun e c => d !! file_of cfg e.1.1 = Some c) (E0 ++ [(vp, Head, ts)]) contents ->
  (forall data, d !! file_of cfg vp = Some data -> Z.of_nat (length data) < 2 ^ 63) ->
  exists h' f' g j x l c data,
    GetJournalGroup (NewFileJournalGroupFactory dsuf (maxSize cfg)) path plugin h
                    (Directory names) d = Ret (h', f', inr g) /\
    journals g !! key cfg = Some j /\
    journal_open (load h' d j) (x :: l) /\
    length (x :: l) = S (length E0) /\
    h' !! x = Some c /\ Path c = file_of cfg vp /\ refcount c = 2 /\
    (forall y, y ∈ l -> rc h' y = Some 1) /\
    summary h' <$> reverse (x :: l) = recovered cfg <$> (E0 ++ [(vp, Head, ts)]) /\
    d !! file_of cfg vp = Some data /\
    j_writer j = Some (mkFile (file_of cfg vp) false) /\
    j_position j = Z.of_nat (length data).
Proof.
  intros Hpat Hsplit Hnames Hdec Hsorted Hrest Hfiles Hbound.
  destruct (GetJournalGroup_recovers cfg dirname basename path dsuf plugin h d names
              E0 vp ts contents Hpat Hsplit Hnames Hdec Hsorted Hrest Hfiles)
    as (h' & f' & g & Hg & _ & _ & j & x & l & c & data & Hj & Hok & Hc & Hpath & Hrc
        & Hdata & Hw & Hpos & Hlen & Hones & Hsum).
  exists h', f', g, j, x, l, c, data. split_and!; try done.
  - split; [done| |].
    + exists x, c, (mkFile (file_of cfg vp) false). unfold load.
      cbn [head heap writer f_path f_closed]. split_and!; try done. lia.
    + unfold load. cbn [position]. rewrite Hpos. specialize (Hbound data Hdata). lia.
  - rewrite Hlen, length_app. simpl. lia.
Qed.

Lemma reopened_journal_open_witness :
  exists h' f' g j x l c data,
    GetJournalGroup (codec := SampleCodec.codec)
      (NewFileJournalGroupFactory ".buf" (maxSize example_cfg)) "/tmp/j.*.log" 0 ∅
      (Directory ["j.s.q8199.log"; "j.s.q4101.log"; "j.s.b12297.log"]%string)
      (disk three_chunks) = Ret (h', f', inr g) /\
    journals g !! key example_cfg = Some j /\
    journal_open (load h' (disk three_chunks) j) (x :: l) /\
    length (x :: l) = S (length [("s.q4101"%string, Rest, 1); ("s.q8199"%string, Rest, 2)]) /\
    h' !! x = Some c /\
    Path c = file_of example_cfg "s.b12297" /\ refcount c = 2 /\
    (forall y, y ∈ l -> rc h' y = Some 1) /\
    summary h' <$> reverse (x :: l)
    = recovered example_cfg
        <$> ([("s.q4101"%string, Rest, 1); ("s.q8199"%string, Rest, 2)]
             ++ [("s.b12297"%string, Head, 3)]) /\
    disk three_chunks !! file_of example_cfg "s.b12297" = Some data /\
    j_writer j = Some (mkFile (file_of example_cfg "s.b12297") false) /\
    j_position j = Z.of_nat (length data).
Proof.
  apply (reopened_journal_open (codec := SampleCodec.codec) example_cfg "/tmp/" "j."
           "/tmp/j.*.log" ".buf" 0%nat ∅ (disk three_chunks)
           ["j.s.q8199.log"; "j.s.q4101.log"; "j.s.b12297.log"]%string
           [("s.q4101"%string, Rest, 1); ("s.q8199"%string, Rest, 2)] "s.b12297" 3
           [AAA; BBB; CCC]).
  - reflexivity.
  - reflexivity.
  - apply perm_swap.
  - intros vp' t' ts' Hin. simpl in Hin.
    repeat (apply elem_of_cons in Hin as [Heq|Hin];
            [injection Heq as -> -> ->; eexists; split; [vm_compute; reflexivity|];
             vm_compute; done|]).
    by apply elem_of_nil in Hin.
  - repeat constructor; simpl; lia.
  - intros e Hin. in_list Hin; reflexivity.
  - repeat constructor; vm_compute; reflexivity.
  - intros data Hdata. vm_compute in Hdata. injection Hdata as <-. simpl. lia.
Defined.

(** ** A chunk is destroyed once *)

Lemma deleteRef_destroyed_zero (s s' : State) (l1 : list ptr) (n : ptr) (l2 : list ptr)
    (fuel : nat) (e : option error) :
  dequeue_of (heap s) (chunks s) (l1 ++ n :: l2) ->
  deleteRef fuel n s = Ret (e, true, s') ->
  e = None /\ rc (heap s') n = Some 0.
Proof.
  intros Hdq Hrun.
  destruct fuel as [|fuel]; [done|]. rewrite deleteRef_unfold in Hrun.
  apply bind_Ret_inv in Hrun as (c & Hc & Hrun).
  unfold deref in Hc. destruct (heap s !! n) as [c'|] eqn:Hheap; [|done].
  injection Hc as ->.
  set (s1 := add_refcount n (-1) s) in *.
  destruct (int32 (refcount c - 1) =? 0) eqn:E0.
  2:{ destruct (int32 (refcount c - 1) <? 0); [done|]. by injection Hrun. }
  apply Z.eqb_eq in E0.
  assert (Hrc1 : rc (heap s1) n = Some 0).
  { unfold s1. rewrite rc_add_refcount, decide_True by done. unfold rc. rewrite Hheap.
    simpl. f_equal. by replace (refcount c + -1) with (refcount c - 1) by lia. }
  assert (Hdq1 : dequeue_of (heap s1) (chunks s1) (l1 ++ n :: l2)).
  { apply dequeue_of_frame with (h := heap s); [|done].
    intros x. apply links_alter_refcount. }
  apply bind_Ret_inv in Hrun as ([err s2] & Hrec & Hrun).
  assert (Hs2 : rc (heap s2) n = Some 0 /\
                exists l1', dequeue_of (heap s2) (chunks s2) (l1' ++ n :: l2)).
  { destruct (head_prev c) as [m|] eqn:Hpv.
    - apply bind_Ret_inv in Hrec as ([[err' d'] s2'] & Hrec & Heq).
      injection Heq as -> ->.
      pose proof (dequeue_of_links _ _ _ _ _ Hdq) as Hlk. unfold links in Hlk.
      rewrite Hheap in Hlk. simpl in Hlk. injection Hlk as Hlast _.
      rewrite Hpv in Hlast.
      destruct l1 as [|m' l0 _] using rev_ind; [done|].
      rewrite last_snoc in Hlast. injection Hlast as <-.
      assert (Hn0 : n ∉ l0 ++ [m]).
      { destruct Hdq as (Hnd & _). apply NoDup_app in Hnd as (_ & Hd & _).
        intros Hin. apply (Hd n Hin). left. }
      rewrite <- app_assoc in Hdq1. cbn [app] in Hdq1.
      pose proof (deleteRef_untouched l0 fuel s1 m (n :: l2) err d' s2 Hdq1 Hrec) as Hun.
      split.
      + by rewrite (un_rc _ _ _ _ _ _ _ Hun).
      + destruct (un_linked _ _ _ _ _ _ _ Hun) as (l1' & H).
        exists (l1' ++ (if d' then [] else [m])). by rewrite <- app_assoc.
    - injection Hrec as <- <-. split; [done|]. by exists l1. }
  destruct Hs2 as [Hrc2 (l1' & Hdq2)].
  destruct err as [err|]; [by injection Hrun|].
  apply bind_Ret_inv in Hrun as (c2 & Hc2 & Hrun).
  unfold os_Remove in Hrun. destruct (disk s2 !! Path c2) as [data|]; [|by injection Hrun].
  apply bind_Ret_inv in Hrun as (s3 & Hun & Hrun). injection Hrun as <- <-.
  destruct (unlink_spec (set_disk (delete (Path c2) (disk s2)) s2) l1' l2 n Hdq2)
    as (s3' & Hun' & _ & _ & Hrc' & _).
  rewrite Hun in Hun'. injection Hun' as <-.
  split; [done|]. by rewrite Hrc'.
Qed.

(** X20.  A chunk is destroyed once.  When [deleteRef] has destroyed a
    linked chunk, the chunk is left with the reference count zero, and a
    further [deleteRef] on it, as [Dispose] on another handle of the chunk
    makes it, finds the count below zero and panics. *)
Theorem destroyed_chunk_panics (s s' : State) (l1 : list ptr) (n : ptr) (l2 : list ptr)
    (fuel : nat) (e : option error) :
  dequeue_of (heap s) (chunks s) (l1 ++ n :: l2) ->
  deleteRef fuel n s = Ret (e, true, s') ->
  e = None /\ rc (heap s') n = Some 0 /\
  (forall fuel', deleteRef (S fuel') n s' = Panic "something went wrong!") /\
  (forall o, Dispose (mkWrapper (Some n) o) s' = Panic "something went wrong!") /\
  (forall o, TakeOwnership (mkWrapper (Some n) o) s'
             = if o =? 0 then Panic "something went wrong!"
               else Ret (false, mkWrapper (Some n) o, s')).
Proof.
  intros Hdq Hrun.
  destruct (deleteRef_destroyed_zero s s' l1 n l2 fuel e Hdq Hrun) as [-> Hrc].
  destruct (rc_Some _ _ _ Hrc) as (c & Hc & Hc0).
  assert (Hpanic : forall fuel', deleteRef (S fuel') n s' = Panic "something went wrong!").
  { intros fuel'. rewrite deleteRef_unfold. unfold deref. rewrite Hc, bind_Ret, Hc0.
    done. }
  split_and!; try done.
  - intros o. unfold Dispose. cbn [chunk]. unfold depth. by rewrite Hpanic.
  - intros o. unfold TakeOwnership. cbn [chunk ownershipTaken].
    destruct (o =? 0); [|done]. unfold depth. by rewrite Hpanic.
Qed.

Lemma destroyed_chunk_panics_witness :
  let s' := state_of (deleteRef 4 0%nat three_chunks) in
  rc (heap s') 0%nat = Some 0 /\
  Dispose (mkWrapper (Some 0%nat) 1) s' = Panic "something went wrong!".
Proof.
  intros s'.
  destruct (destroyed_chunk_panics three_chunks s' [2; 1]%nat 0%nat [] 4 None)
    as (_ & Hrc & _ & Hd & _).
  - apply three_chunks_ok.
  - vm_compute. reflexivity.
  - split; [exact Hrc | apply Hd].
Defined.

(** X21.  What [deleteRef] leaves alone.  Whatever [deleteRef] on a linked
    chunk returns, it has changed no path, type, suffix, timestamp or id
    of any chunk; the reference counts of the older chunks and of all
    chunks outside the list are what they were; the list is linked as
    before, without the chunks that were destroyed, and the older chunks
    are all still in it; when it returns an error the chunk is not
    destroyed and its reference count is back at its value; files other
    than those of the chunk and of its newer neighbours are not touched,
    nor is the file of a chunk that was not destroyed by the files of
    others; the writer and the position are as before. *)
Theorem deleteRef_frame (s s' : State) (l1 : list ptr) (n : ptr) (l2 : list ptr)
    (fuel : nat) (e : option error) (d : bool) :
  dequeue_of (heap s) (chunks s) (l1 ++ n :: l2) ->
  deleteRef fuel n s = Ret (e, d, s') ->
  untouched s s' l1 n l2 e d.
Proof. intros Hdq Hrun. by apply (deleteRef_untouched l1 fuel s n l2 e d s'). Qed.

Lemma deleteRef_frame_witness :
  untouched three_chunks (state_of (deleteRef 4 0%nat three_chunks)) [2; 1]%nat 0%nat []
            None true.
Proof.
  apply (deleteRef_frame three_chunks _ [2; 1]%nat 0%nat [] 4 None true).
  - apply three_chunks_ok.
  - vm_compute. reflexivity.
Defined.

Lemma read_until_nil_spec (l1 : list ptr) : forall (fuel : nat) (p : ptr) (l2 : list ptr)
    (s : State),
  journal_ok s (l1 ++ p :: l2) -> (S (length l1) < fuel)%nat ->
  read_until_nil fuel (wrapper_ptr (Some (mkWrapper (Some p) 0))) (add_refcount p 1 s)
  = Panic nil_dereference.
Proof.
  induction l1 as [|n l1 IH] using rev_ind; intros fuel p l2 s Hok Hfuel.
  - destruct fuel as [|[|fuel]]; [simpl in Hfuel; lia..|].
    assert (Hp : p ∈ [] ++ p :: l2) by left.
    destruct (ok_rc s _ p Hok Hp) as (r & Hr & Hrange).
    destruct (rc_Some _ _ _ Hr) as (c & Hc & Hrc).
    destruct (ok_file s _ Hok p c Hp Hc) as [data Hdata].
    pose proof (dequeue_of_links _ _ [] p l2 (ok_dequeue _ _ Hok)) as Hlk.
    unfold links in Hlk. rewrite Hc in Hlk. simpl in Hlk. injection Hlk as Hprev _.
    cbn [read_until_nil is_nil call]. unfold GetReader, GetNextChunk. cbn [chunk].
    rewrite (deref_add_refcount p 1 s c Hc), !bind_Ret.
    cbn [Path with_refcount head_prev disk add_refcount set_heap].
    rewrite Hdata, Hprev. repeat (rewrite bind_Ret; cbn iota beta).
    destruct (handle_released s p r Hr Hrange) as [_ Hdisp].
    change (set_heap (alter (fun c0 => with_refcount (int32 (refcount c0 + 1)) c0) p (heap s)) s)
      with (add_refcount p 1 s).
    rewrite Hdisp. repeat (rewrite bind_Ret; cbn iota beta). done.
  - rewrite length_app in Hfuel. simpl in Hfuel.
    destruct fuel as [|fuel]; [lia|].
    assert (Hp : p ∈ (l1 ++ [n]) ++ p :: l2) by (apply elem_of_app; right; left).
    assert (Hn : n ∈ (l1 ++ [n]) ++ p :: l2).
    { apply elem_of_app. left. apply elem_of_app. right. left. }
    assert (Hnp : p <> n).
    { destruct (ok_dequeue _ _ Hok) as (Hnd & _).
      apply NoDup_app in Hnd as (_ & Hdisj & _). intros ->.
      apply (Hdisj n); [apply elem_of_app; right; left | left]. }
    destruct (ok_rc s _ p Hok Hp) as (r & Hr & Hrange).
    destruct (rc_Some _ _ _ Hr) as (c & Hc & Hrc).
    destruct (ok_rc s _ n Hok Hn) as (rn & Hrn & Hrangen).
    destruct (rc_Some _ _ _ Hrn) as (cn & Hcn & Hrcn).
    destruct (ok_file s _ Hok p c Hp Hc) as [data Hdata].
    pose proof (dequeue_of_links _ _ (l1 ++ [n]) p l2 (ok_dequeue _ _ Hok)) as Hlk.
    unfold links in Hlk. rewrite Hc in Hlk. simpl in Hlk. injection Hlk as Hprev _.
    rewrite last_snoc in Hprev.
    assert (Hrun : read_until_nil fuel (wrapper_ptr (Some (mkWrapper (Some n) 0)))
                     (add_refcount n 1 s) = Panic nil_dereference).
    { apply (IH fuel n (p :: l2) s); [by rewrite <- app_assoc in Hok | lia]. }
    cbn [read_until_nil is_nil call]. unfold GetReader, GetNextChunk. cbn [chunk].
    rewrite (deref_add_refcount p 1 s c Hc), !bind_Ret.
    cbn [Path with_refcount head_prev disk add_refcount set_heap].
    rewrite Hdata, Hprev.
    change (set_heap (alter (fun c0 => with_refcount (int32 (refcount c0 + 1)) c0) p (heap s)) s)
      with (add_refcount p 1 s).
    assert (Hwrap : newChunkWrapper n (add_refcount p 1 s)
                    = Ret (mkWrapper (Some n) 0, add_refcount p 1 (add_refcount n 1 s))).
    { unfold newChunkWrapper, deref. cbn [heap add_refcount set_heap].
      rewrite lookup_alter_ne by done. rewrite Hcn, bind_Ret.
      by rewrite <- (add_refcount_comm p n 1 1 s). }
    rewrite bind_Ret. rewrite Hwrap.
    repeat (rewrite bind_Ret; cbn iota beta).
    destruct (handle_released (add_refcount n 1 s) p r) as [_ Hdisp]; [|done|].
    { rewrite rc_add_refcount, decide_False by done. done. }
    rewrite Hdisp. repeat (rewrite bind_Ret; cbn iota beta).
    rewrite Hrun. done.
Qed.

(** X24.  The nil test does not end the walk.  On every journal in order,
    a consumer that starts at [GetTailChunk], calls [GetReader],
    [GetNextChunk] and [Dispose] through the interface and stops when the
    value it holds equals nil panics with a nil pointer dereference: the
    value that [GetTailChunk] gives for an empty journal, and
    [GetNextChunk] at the newest chunk, holds the nil pointer and is not
    nil. *)
Theorem read_until_nil_panics (s : State) (l : list ptr) (fuel : nat) :
  journal_ok s l -> (length l < fuel)%nat ->
  ('(j, s1) ← GetTailChunk s; read_until_nil fuel j s1) = Panic nil_dereference.
Proof.
  intros Hok Hfuel.
  destruct l as [|p l1 _] using rev_ind.
  - unfold GetTailChunk.
    destruct (ok_dequeue _ _ Hok) as (_ & _ & _ & ->). cbn [last].
    rewrite bind_Ret. destruct fuel as [|fuel]; [simpl in Hfuel; lia|]. done.
  - rewrite length_app in Hfuel. simpl in Hfuel.
    assert (Hp : p ∈ l1 ++ [p]) by (apply elem_of_app; right; left).
    destruct (ok_rc s _ p Hok Hp) as (r & Hr & Hrange).
    destruct (handle_released s p r Hr Hrange) as [Hnew _].
    unfold GetTailChunk.
    destruct (ok_dequeue _ _ Hok) as (_ & _ & _ & ->). rewrite last_snoc.
    rewrite Hnew. repeat (rewrite bind_Ret; cbn iota beta).
    apply (read_until_nil_spec l1 fuel p [] s Hok). lia.
Qed.

Lemma read_until_nil_panics_witness :
  ('(j, s1) ← GetTailChunk three_chunks; read_until_nil 4 j s1) = Panic nil_dereference.
Proof.
  apply (read_until_nil_panics three_chunks [2; 1; 0]%nat 4 three_chunks_ok).
  simpl. lia.
Defined.
